(** * QR code backend: scan lifecycle, expiration policy and analytics

    A shallow embedding of the scan-tracking logic of the QR code backend
    (utils/analytics.js, models/QRCode.js and the routes that call them),
    and the properties its specification states about it.  A second part
    embeds the other routes (creation, update, deletion, analytics), the
    authentication middleware and the content formatters, with further
    properties of the code.

    Conventions of the embedding.
    - JavaScript strings are [string]: a character is one code unit in the
      range 0..255.  This is exact for HTTP header values (Node decodes
      them as Latin-1) and covers the Latin-1 fragment of passwords.
    - Counters ([scanCount], [maxScans], device counts) are integers [Z].
    - A [Date] is a millisecond timestamp or the Invalid Date; the
      [new Date()] readings taken while one request is served are a single
      instant [now], passed to the operation.
    - The Mongo collection is a finite map from [_id] to documents.  A
      store call can throw: the [World] carries a schedule of outcomes of
      the coming store calls, and the operations are written in a state and
      exception monad over it. *)

From Stdlib Require Import ZArith String Ascii List Bool Lia DecimalString.
From stdpp Require Import base option gmap strings list.

Local Open Scope string_scope.
Local Open Scope Z_scope.

(** ** JavaScript strings *)

Module JSString.

(** [String.prototype.toLowerCase] on one Latin-1 code unit: A-Z and the
    accented capitals U+00C0..U+00DE (without the multiplication sign
    U+00D7) move up by 32, everything else is unchanged. *)
Definition lowerChar (c : ascii) : ascii :=
  let n := N_of_ascii c in
  if ((65 <=? n) && (n <=? 90)
      || (192 <=? n) && (n <=? 214)
      || (216 <=? n) && (n <=? 222))%N
  then ascii_of_N (n + 32) else c.

Fixpoint toLowerCase (s : string) : string :=
  match s with
  | EmptyString => EmptyString
  | String c s' => String (lowerChar c) (toLowerCase s')
  end.

(** [p] is a prefix of [s]. *)
Fixpoint startsWith (s p : string) {struct p} : bool :=
  match p, s with
  | EmptyString, _ => true
  | String _ _, EmptyString => false
  | String a p', String b s' => Ascii.eqb a b && startsWith s' p'
  end.

(** [s.includes(t)]: [t] occurs in [s] as a contiguous substring. *)
Fixpoint includes (s t : string) : bool :=
  startsWith s t ||
  match s with
  | EmptyString => false
  | String _ s' => includes s' t
  end.

(** WhiteSpace and LineTerminator code points of ECMAScript below 256:
    TAB, LF, VT, FF, CR, SPACE and NO-BREAK SPACE. *)
Definition isWhiteSpace (c : ascii) : bool :=
  let n := N_of_ascii c in
  ((9 <=? n) && (n <=? 13) || (n =? 32) || (n =? 160))%N.

Fixpoint trimStart (s : string) : string :=
  match s with
  | EmptyString => EmptyString
  | String c s' => if isWhiteSpace c then trimStart s' else s
  end.

Fixpoint trimEnd (s : string) : string :=
  match s with
  | EmptyString => EmptyString
  | String c s' =>
      match trimEnd s' with
      | EmptyString => if isWhiteSpace c then EmptyString else String c EmptyString
      | t => String c t
      end
  end.

Definition trim (s : string) : string := trimEnd (trimStart s).

(** Truthiness of a string value: only the empty string is falsy. *)
Definition truthy (s : string) : bool := negb (String.eqb s "").

(** [s || d] on strings. *)
Definition orElse (s d : string) : string := if truthy s then s else d.

(** [s] contains [t]: the declarative reading of a substring. *)
Definition contains (s t : string) : Prop :=
  exists pre post, s = pre +:+ t +:+ post.

End JSString.

Import JSString.

(** ** Dates *)

Inductive Date : Type :=
| ValidDate (ms : Z)
| InvalidDate.

(** [d.getTime()]: [None] stands for NaN. *)
Definition getTime (d : Date) : option Z :=
  match d with
  | ValidDate ms => Some ms
  | InvalidDate => None
  end.

Definition isNaN (n : option Z) : bool :=
  match n with Some _ => false | None => true end.

(** [new Date(d)] of a Date copies it. *)
Definition newDate (d : Date) : Date := d.

(** [a > b] on dates compares the time values; a comparison with NaN is
    false. *)
Definition date_gt (a b : Date) : bool :=
  match getTime a, getTime b with
  | Some x, Some y => x >? y
  | _, _ => false
  end.

(** ** The QR record (models/QRCode.js) *)

Record Location : Type := mkLocation {
  country : string;
  city : string;
  timestamp : Date
}.

Record Device : Type := mkDevice {
  type : string;
  count : Z
}.

Record Analytics : Type := mkAnalytics {
  scanCount : Z;
  lastScanned : option Date;
  scanLocations : list Location;
  devices : list Device
}.

(** [password] and [expiresAt] have no schema default: [None] is an absent
    (or null) value. *)
Record Security : Type := mkSecurity {
  password : option string;
  isPasswordProtected : bool;
  expiresAt : option Date;
  maxScans : Z
}.

Record QRCode : Type := mkQRCode {
  _id : string;
  userId : string;
  text : string;
  qrType : string;
  analytics : Analytics;
  security : Security;
  isExpired : bool
}.

(** ** Expiration policy (utils/analytics.js, isQrCodeExpired) *)

Definition isQrCodeExpired (now : Z) (qrCode : option QRCode) : bool :=
  match qrCode with
  | None => true
  | Some q =>
      if isExpired q then true
      else if
        match expiresAt (security q) with
        | Some d =>
            let expiry := newDate d in
            negb (isNaN (getTime expiry)) && date_gt (ValidDate now) expiry
        | None => false
        end
      then true
      else if (maxScans (security q) >? 0)
              && (scanCount (analytics q) >=? maxScans (security q))
      then true
      else false
  end.

(** The policy as the specification words it. *)
Definition spec_expired (now : Z) (record : option QRCode) : Prop :=
  match record with
  | None => True
  | Some q =>
      isExpired q = true
      \/ (exists t, expiresAt (security q) = Some (ValidDate t) /\ t < now)
      \/ (maxScans (security q) > 0
          /\ scanCount (analytics q) >= maxScans (security q))
  end.

(** Only the date decides, once the flag is down and no limit is set. *)
Definition spec_dateExpired (now : Z) (q : QRCode) : bool :=
  match expiresAt (security q) with
  | Some (ValidDate t) => t <? now
  | _ => false
  end.

(** ** Device classification (utils/analytics.js, recordScan, lines 50-79) *)

Definition deviceTypeOf (userAgent : string) : string :=
  let ua := toLowerCase userAgent in
  let deviceType :=
    if includes ua "iphone" || includes ua "ipad" then "ios"
    else if includes ua "android" then "android"
    else if includes ua "windows phone" then "windows phone"
    else if includes ua "macintosh" || includes ua "mac os" then "mac"
    else if includes ua "windows" then "windows"
    else if includes ua "linux" then "linux"
    else "unknown" in
  if String.eqb deviceType "unknown" then
    if includes ua "mobile" || includes ua "tablet" then "mobile"
    else if includes ua "windows" || includes ua "macintosh" || includes ua "linux"
    then "desktop"
    else deviceType
  else deviceType.

(** The classification as the specification words it: an ordered list of
    rules, each a set of markers and a label; the first rule with a marker
    in the lower-cased user agent wins, and no rule gives "unknown". *)
Definition spec_rules : list (list string * string) :=
  [ (["iphone"; "ipad"], "ios");
    (["android"], "android");
    (["windows phone"], "windows phone");
    (["macintosh"; "mac os"], "mac");
    (["windows"], "windows");
    (["linux"], "linux");
    (["mobile"; "tablet"], "mobile");
    (["windows"; "macintosh"; "linux"], "desktop") ].

Fixpoint spec_first_match (rules : list (list string * string)) (ua : string)
  : string :=
  match rules with
  | [] => "unknown"
  | (markers, label) :: rest =>
      if existsb (includes ua) markers then label
      else spec_first_match rest ua
  end.

Definition spec_classify (userAgent : string) : string :=
  spec_first_match spec_rules (toLowerCase userAgent).

(** ** Field updates of a record *)

Definition with_analytics (a : Analytics) (q : QRCode) : QRCode :=
  mkQRCode (_id q) (userId q) (text q) (qrType q) a (security q) (isExpired q).

Definition with_security (s : Security) (q : QRCode) : QRCode :=
  mkQRCode (_id q) (userId q) (text q) (qrType q) (analytics q) s (isExpired q).

Definition with_isExpired (b : bool) (q : QRCode) : QRCode :=
  mkQRCode (_id q) (userId q) (text q) (qrType q) (analytics q) (security q) b.

Definition with_text (s : string) (q : QRCode) : QRCode :=
  mkQRCode (_id q) (userId q) s (qrType q) (analytics q) (security q) (isExpired q).

Definition with_userId (s : string) (q : QRCode) : QRCode :=
  mkQRCode (_id q) s (text q) (qrType q) (analytics q) (security q) (isExpired q).

Definition with_password (p : option string) (s : Security) : Security :=
  mkSecurity p (isPasswordProtected s) (expiresAt s) (maxScans s).

Definition with_isPasswordProtected (b : bool) (s : Security) : Security :=
  mkSecurity (password s) b (expiresAt s) (maxScans s).

Definition with_expiresAt (d : option Date) (s : Security) : Security :=
  mkSecurity (password s) (isPasswordProtected s) d (maxScans s).

Definition with_maxScans (n : Z) (s : Security) : Security :=
  mkSecurity (password s) (isPasswordProtected s) (expiresAt s) n.

(** ** The pre-save hook (models/QRCode.js, qrCodeSchema.pre("save")) *)

Definition preSave (q : QRCode) : QRCode :=
  let s0 := security q in
  (* Clear password if not password protected *)
  let s1 := if negb (isPasswordProtected s0) then with_password (Some "") s0 else s0 in
  (* Ensure maxScans is a positive number or 0 *)
  let s2 := if maxScans s1 <? 0 then with_maxScans 0 s1 else s1 in
  (* Validate expiration date *)
  let s3 :=
    match expiresAt s2 with
    | Some d => if isNaN (getTime (newDate d)) then with_expiresAt None s2 else s2
    | None => s2
    end in
  with_security s3 q.

(** ** The world: the collection and the outcomes of the coming store calls *)

Inductive Error : Type :=
| StoreError   (* the store rejected or failed a call *)
| TypeError.   (* a property read or method call on undefined or null *)

Inductive Outcome (A : Type) : Type :=
| Returns (a : A)
| Throws (e : Error).
Arguments Returns {A} a.
Arguments Throws {A} e.

(** [failures] lists, for the store calls to come, whether each one throws;
    past its end no call throws. *)
Record World : Type := mkWorld {
  docs : gmap string QRCode;
  failures : list bool
}.

Definition M (A : Type) : Type := World -> Outcome A * World.

Definition ret {A} (a : A) : M A := fun w => (Returns a, w).

Definition throw {A} (e : Error) : M A := fun w => (Throws e, w).

Definition bind {A B} (m : M A) (k : A -> M B) : M B :=
  fun w =>
    match m w with
    | (Returns a, w') => k a w'
    | (Throws e, w') => (Throws e, w')
    end.

(** [try { m } catch (error) { h error }]: what [m] wrote before it threw
    stays written. *)
Definition tryCatch {A} (m : M A) (h : Error -> M A) : M A :=
  fun w =>
    match m w with
    | (Returns a, w') => (Returns a, w')
    | (Throws e, w') => h e w'
    end.

Notation "'let!' x ':=' m 'in' k" := (bind m (fun x => k))
  (at level 10, x name, m at level 100, k at level 200, only parsing).

(** One call to the store: it throws when the schedule says so, and runs
    [f] on the collection otherwise. *)
Definition storeCall {A} (f : gmap string QRCode -> A * gmap string QRCode) : M A :=
  fun w =>
    match failures w with
    | true :: rest => (Throws StoreError, mkWorld (docs w) rest)
    | false :: rest => let (a, d) := f (docs w) in (Returns a, mkWorld d rest)
    | [] => let (a, d) := f (docs w) in (Returns a, mkWorld d [])
    end.

(** ** Queries and updates of the store *)

(** The filters the code uses: [{_id}], [{userId}], [{_id, userId}] and
    [{_id, "analytics.devices.type"}]. *)
Record Query : Type := mkQuery {
  q_id : option string;
  q_userId : option string;
  q_deviceType : option string
}.

Definition byId (id : string) : Query := mkQuery (Some id) None None.
Definition byUserId (u : string) : Query := mkQuery None (Some u) None.
Definition byIdAndUserId (id u : string) : Query := mkQuery (Some id) (Some u) None.
Definition byIdAndDeviceType (id t : string) : Query := mkQuery (Some id) None (Some t).

Definition hasDeviceType (t : string) (q : QRCode) : bool :=
  existsb (fun d => String.eqb (type d) t) (devices (analytics q)).

Definition matchesFields (qy : Query) (q : QRCode) : bool :=
  match q_userId qy with Some u => String.eqb (userId q) u | None => true end
  && match q_deviceType qy with Some t => hasDeviceType t q | None => true end.

(** The documents a query selects, with their keys, in the order the store
    yields them. *)
Definition select (qy : Query) (d : gmap string QRCode) : list (string * QRCode) :=
  match q_id qy with
  | Some id =>
      match d !! id with
      | Some q => if matchesFields qy q then [(id, q)] else []
      | None => []
      end
  | None => List.filter (fun kq => matchesFields qy (snd kq)) (map_to_list d)
  end.

(** The update operators the code sends.  [IncMatchedDeviceCount] is
    [$inc: {"analytics.devices.$.count": n}]: the [$] is the first entry of
    [devices] that matched the query's device type. *)
Inductive UpdateOp : Type :=
| IncScanCount (n : Z)
| SetLastScanned (d : Date)
| SetIsExpired (b : bool)
| PushScanLocation (l : Location)
| IncMatchedDeviceCount (n : Z)
| PushDevice (dv : Device)
| SetText (s : string)
| SetUserId (s : string)
| SetPassword (s : string)
| SetIsPasswordProtected (b : bool).

Fixpoint incFirstDevice (t : string) (n : Z) (ds : list Device) : list Device :=
  match ds with
  | [] => []
  | dv :: rest =>
      if String.eqb (type dv) t then mkDevice (type dv) (count dv + n) :: rest
      else dv :: incFirstDevice t n rest
  end.

Definition applyOp (qy : Query) (op : UpdateOp) (q : QRCode) : QRCode :=
  let a := analytics q in
  match op with
  | IncScanCount n =>
      with_analytics (mkAnalytics (scanCount a + n) (lastScanned a) (scanLocations a) (devices a)) q
  | SetLastScanned d =>
      with_analytics (mkAnalytics (scanCount a) (Some d) (scanLocations a) (devices a)) q
  | SetIsExpired b => with_isExpired b q
  | PushScanLocation l =>
      with_analytics (mkAnalytics (scanCount a) (lastScanned a) (scanLocations a ++ [l]) (devices a)) q
  | IncMatchedDeviceCount n =>
      match q_deviceType qy with
      | Some t =>
          with_analytics
            (mkAnalytics (scanCount a) (lastScanned a) (scanLocations a)
               (incFirstDevice t n (devices a))) q
      | None => q
      end
  | PushDevice dv =>
      with_analytics (mkAnalytics (scanCount a) (lastScanned a) (scanLocations a) (devices a ++ [dv])) q
  | SetText s => with_text s q
  | SetUserId s => with_userId s q
  | SetPassword s => with_security (with_password (Some s) (security q)) q
  | SetIsPasswordProtected b => with_security (with_isPasswordProtected b (security q)) q
  end.

Definition applyUpdate (qy : Query) (ops : list UpdateOp) (q : QRCode) : QRCode :=
  fold_left (fun acc op => applyOp qy op acc) ops q.

(** [Model.find(query)] *)
Definition find (qy : Query) : M (list QRCode) :=
  storeCall (fun d => (map snd (select qy d), d)).

(** [Model.findOne(query)] *)
Definition findOne (qy : Query) : M (option QRCode) :=
  storeCall (fun d => (head (map snd (select qy d)), d)).

(** [Model.findById(id)] *)
Definition findById (id : string) : M (option QRCode) := findOne (byId id).

(** The first selected document is rewritten in place; no document
    selected, nothing written.  The result is the document after the
    update ([new: true]). *)
Definition updateFirst (qy : Query) (ops : list UpdateOp) (d : gmap string QRCode)
  : option QRCode * gmap string QRCode :=
  match head (select qy d) with
  | Some (k, q) => let q' := applyUpdate qy ops q in (Some q', <[k := q']> d)
  | None => (None, d)
  end.

(** [Model.findOneAndUpdate(query, update, {new: true})]; save hooks do
    not run on it. *)
Definition findOneAndUpdate (qy : Query) (ops : list UpdateOp) : M (option QRCode) :=
  storeCall (updateFirst qy ops).

(** [Model.findByIdAndUpdate(id, update, {new: true, runValidators: true})] *)
Definition findByIdAndUpdate (id : string) (ops : list UpdateOp) : M (option QRCode) :=
  findOneAndUpdate (byId id) ops.

(** [Model.updateOne(query, update)] *)
Definition updateOne (qy : Query) (ops : list UpdateOp) : M unit :=
  storeCall (fun d => (tt, snd (updateFirst qy ops d))).

(** [doc.save()]: the pre-save hook runs, then the document is written
    under its [_id]. *)
Definition save (q : QRCode) : M unit :=
  storeCall (fun d => (tt, <[_id q := preSave q]> d)).

(** ** Scan recorder (utils/analytics.js, recordScan) *)

Module ScanData.
(** The [scanData] argument; [None] is a property that is undefined. *)
Record t : Type := mk {
  userAgent : option string;
  ip : option string;
  referer : option string;
  country : option string;
  city : option string
}.
End ScanData.

(** The update of step 4, built from the record [q] read at the start. *)
Definition scanUpdate (now : Z) (q : QRCode) (locationInfo : string * string)
  : list UpdateOp :=
  [ IncScanCount 1;
    SetLastScanned (ValidDate now);
    SetIsExpired ((maxScans (security q) >? 0)
                  && (scanCount (analytics q) + 1 >=? maxScans (security q)));
    PushScanLocation (mkLocation (fst locationInfo) (snd locationInfo) (ValidDate now)) ].

Definition recordScan (now : Z) (qrCodeId : string) (scanData : ScanData.t)
  : M (option QRCode) :=
  tryCatch
    (let! qrCode := findById qrCodeId in
     match qrCode with
     | None => ret None
     | Some q =>
         (* Check expiration before recording scan *)
         if isQrCodeExpired now (Some q) then
           let! _u := save (with_isExpired true q) in
           ret None
         else
           (* Process scan data *)
           let userAgent := default "" (ScanData.userAgent scanData) in
           let country := default "Unknown" (ScanData.country scanData) in
           let city := default "Unknown" (ScanData.city scanData) in
           (* Enhanced device detection *)
           let deviceType := deviceTypeOf userAgent in
           (* Get location data *)
           let locationInfo := (orElse country "Unknown", orElse city "Unknown") in
           (* Use atomic update to increment scan count and update other fields *)
           let! _updatedQrCode :=
             findByIdAndUpdate qrCodeId (scanUpdate now q locationInfo) in
           (* Handle device analytics *)
           let! deviceExists := findOne (byIdAndDeviceType qrCodeId deviceType) in
           let! _u :=
             match deviceExists with
             | Some _ =>
                 updateOne (byIdAndDeviceType qrCodeId deviceType)
                   [IncMatchedDeviceCount 1]
             | None =>
                 updateOne (byId qrCodeId) [PushDevice (mkDevice deviceType 1)]
             end in
           (* Double-check the final state *)
           let! finalQrCode := findById qrCodeId in
           match finalQrCode with
           | None => throw TypeError   (* finalQrCode.analytics of null *)
           | Some f => ret (Some f)
           end
     end)
    (fun _ => ret None).

(** [recordScan] from its first [await] on: the rest of the function, run
    with the record [qrCode] that [findById] answered.  While the function
    waits for that answer, and again at each later [await], the store
    serves the calls of other requests. *)
Definition recordScanAfterRead (now : Z) (qrCodeId : string)
  (scanData : ScanData.t) (qrCode : option QRCode) : M (option QRCode) :=
  tryCatch
    (match qrCode with
     | None => ret None
     | Some q =>
         (* Check expiration before recording scan *)
         if isQrCodeExpired now (Some q) then
           let! _u := save (with_isExpired true q) in
           ret None
         else
           (* Process scan data *)
           let userAgent := default "" (ScanData.userAgent scanData) in
           let country := default "Unknown" (ScanData.country scanData) in
           let city := default "Unknown" (ScanData.city scanData) in
           (* Enhanced device detection *)
           let deviceType := deviceTypeOf userAgent in
           (* Get location data *)
           let locationInfo := (orElse country "Unknown", orElse city "Unknown") in
           (* Use atomic update to increment scan count and update other fields *)
           let! _updatedQrCode :=
             findByIdAndUpdate qrCodeId (scanUpdate now q locationInfo) in
           (* Handle device analytics *)
           let! deviceExists := findOne (byIdAndDeviceType qrCodeId deviceType) in
           let! _u :=
             match deviceExists with
             | Some _ =>
                 updateOne (byIdAndDeviceType qrCodeId deviceType)
                   [IncMatchedDeviceCount 1]
             | None =>
                 updateOne (byId qrCodeId) [PushDevice (mkDevice deviceType 1)]
             end in
           (* Double-check the final state *)
           let! finalQrCode := findById qrCodeId in
           match finalQrCode with
           | None => throw TypeError   (* finalQrCode.analytics of null *)
           | Some f => ret (Some f)
           end
     end)
    (fun _ => ret None).

(** ** Analytics aggregator (utils/analytics.js, getAnalytics) *)

Module MostScanned.
Record t : Type := mk {
  id : string;
  text : string;
  scanCount : Z
}.
End MostScanned.

(** What a property of [scansByDevice] or [scansByLocation] holds: a
    number, NaN, or the text that [+=] builds once the value it adds to is
    not a number. *)
Inductive Value : Type :=
| NumberValue (n : Z)
| NotANumber
| StringValue (s : string).

Record Summary : Type := mkSummary {
  totalQrCodes : Z;
  totalScans : Z;
  scansByDate : gmap string Value;
  scansByDevice : gmap string Value;
  scansByLocation : gmap string Value;
  mostScanned : option MostScanned.t
}.

Inductive AnalyticsResult : Type :=
| RecordAnalytics (a : Analytics)
| UserSummary (s : Summary).

(** [n || d] on numbers: 0 is the falsy integer. *)
Definition numOr (n d : Z) : Z := if n =? 0 then d else n.

(** An integer in decimal, as JavaScript prints it. *)
Definition decimal (n : Z) : string := NilZero.string_of_int (Z.to_int n).

(** The two summary objects are plain objects, [{}]: the finite map holds
    their own properties, and a name they do not own is looked up in
    [Object.prototype].  These are the methods found there, each with the
    name of the function, and [__proto__], which reads as the prototype
    itself. *)
Definition prototypeFunctions : list (string * string) :=
  [("constructor", "Object"); ("toString", "toString");
   ("toLocaleString", "toLocaleString"); ("valueOf", "valueOf");
   ("hasOwnProperty", "hasOwnProperty"); ("isPrototypeOf", "isPrototypeOf");
   ("propertyIsEnumerable", "propertyIsEnumerable");
   ("__defineGetter__", "__defineGetter__");
   ("__defineSetter__", "__defineSetter__");
   ("__lookupGetter__", "__lookupGetter__");
   ("__lookupSetter__", "__lookupSetter__")].

Definition inheritedFunction (key : string) : option string :=
  snd <$> List.find (fun e => String.eqb (fst e) key) prototypeFunctions.

(** The name is one that [Object.prototype] defines. *)
Definition inheritedName (key : string) : bool :=
  String.eqb key "__proto__"
  || match inheritedFunction key with Some _ => true | None => false end.

(** What [obj[key]] reads. *)
Inductive Read : Type :=
| ReadUndefined
| ReadOwn (v : Value)
| ReadFunction (name : string)   (* an inherited method *)
| ReadPrototype.                 (* [obj.__proto__] *)

Definition readProperty (obj : gmap string Value) (key : string) : Read :=
  match obj !! key with
  | Some v => ReadOwn v
  | None =>
      if String.eqb key "__proto__" then ReadPrototype
      else match inheritedFunction key with
           | Some f => ReadFunction f
           | None => ReadUndefined
           end
  end.

(** [!r] *)
Definition isFalsy (r : Read) : bool :=
  match r with
  | ReadUndefined => true
  | ReadOwn (NumberValue n) => n =? 0
  | ReadOwn NotANumber => true
  | ReadOwn (StringValue s) => negb (truthy s)
  | ReadFunction _ | ReadPrototype => false
  end.

(** [obj[key] = v] for a number or a string [v]: the setter of
    [__proto__] ignores a value that is not an object. *)
Definition writeProperty (key : string) (v : Value) (obj : gmap string Value)
  : gmap string Value :=
  if String.eqb key "__proto__" then obj else <[key := v]> obj.

(** [r + n] for an integer [n]: a sum of numbers, or the text of [r]
    followed by [n] in decimal. *)
Definition plus (r : Read) (n : Z) : Value :=
  match r with
  | ReadUndefined => NotANumber
  | ReadOwn (NumberValue v) => NumberValue (v + n)
  | ReadOwn NotANumber => NotANumber
  | ReadOwn (StringValue s) => StringValue (s +:+ decimal n)
  | ReadFunction f =>
      StringValue ("function " +:+ f +:+ "() { [native code] }" +:+ decimal n)
  | ReadPrototype => StringValue ("[object Object]" +:+ decimal n)
  end.

(** [if (!obj[key]) obj[key] = 0; obj[key] += n] *)
Definition addTo (key : string) (n : Z) (obj : gmap string Value)
  : gmap string Value :=
  let obj1 :=
    if isFalsy (readProperty obj key) then writeProperty key (NumberValue 0) obj
    else obj in
  writeProperty key (plus (readProperty obj1 key) n) obj1.

(** The body of [qrCodes.forEach]: the state is the summary and the local
    [maxScans]. *)
Definition aggregateStep (st : Summary * Z) (qr : QRCode) : Summary * Z :=
  let (a, maxScans) := st in
  (* Count total scans *)
  let total := totalScans a + numOr (scanCount (analytics qr)) 0 in
  (* Find most scanned QR code *)
  let (most, maxScans') :=
    if numOr (scanCount (analytics qr)) 0 >? maxScans
    then (Some (MostScanned.mk (_id qr) (text qr) (scanCount (analytics qr))),
          scanCount (analytics qr))
    else (mostScanned a, maxScans) in
  (* Count scans by device *)
  let byDevice :=
    fold_left (fun acc device => addTo (type device) (count device) acc)
      (devices (analytics qr)) (scansByDevice a) in
  (* Count scans by location *)
  let byLocation :=
    fold_left (fun acc location => addTo (orElse (country location) "Unknown") 1 acc)
      (scanLocations (analytics qr)) (scansByLocation a) in
  (mkSummary (totalQrCodes a) total (scansByDate a) byDevice byLocation most,
   maxScans').

Definition aggregate (qrCodes : list QRCode) : Summary :=
  fst (fold_left aggregateStep qrCodes
         (mkSummary (Z.of_nat (length qrCodes)) 0 ∅ ∅ ∅ None, 0)).

(** Truthiness of an identifier argument: null, undefined and the empty
    string are falsy. *)
Definition given (x : option string) : option string :=
  match x with
  | Some s => if truthy s then Some s else None
  | None => None
  end.

Definition getAnalytics (qrCodeId userId : option string)
  : M (option AnalyticsResult) :=
  tryCatch
    (match given qrCodeId, given userId with
     | Some qid, _ =>
         let! qrCodes := find (byId qid) in
         (* For a single QR code *)
         ret (match head qrCodes with
              | Some q => Some (RecordAnalytics (analytics q))
              | None => None
              end)
     | None, Some uid =>
         let! qrCodes := find (byUserId uid) in
         (* For all user's QR codes *)
         ret (Some (UserSummary (aggregate qrCodes)))
     | None, None => ret None
     end)
    (fun _ => ret None).

(** ** Routes (routes/analytics.js, routes/track.js, routes/qrcode.js) *)

(** What the routes read from a request: the two headers, and the client
    address ([req.ip], or [req.connection.remoteAddress] in the page
    route); [None] is undefined. *)
Record Request : Type := mkRequest {
  header_userAgent : option string;
  header_referer : option string;
  req_ip : option string
}.

Inductive Body : Type :=
| ErrorBody (error : string)                       (* {error} *)
| ExpiredBody (message : string)                   (* {expired: true, message} *)
| RequiresPasswordBody (qrCodeId trackingId : string)
| ScannedBody (text qrType : string) (scanCount maxScans : Z)
                                                   (* {success: true, qrCode} *)
| InvalidPasswordBody                              (* {error: "Invalid password", message} *)
| VerifiedBody (redirectUrl qrType : string) (scanCount maxScans : Z)
                                                   (* {success: true, redirectUrl, ...} *)
| RecordBody (q : QRCode).

Inductive Page : Type :=
| NotFoundPage
| ExpiredPage
| ScanLimitPage
| PasswordFormPage (qrCodeId trackingId : string)
| ExpiredOrLimitPage
| ErrorPage.

Inductive Response : Type :=
| Json (status : Z) (body : Body)
| Send (status : Z) (page : Page)
| Redirect (url : string).

(** GET /api/analytics/track/:qrCodeId/:trackingId *)
Definition trackScan (now : Z) (qrCodeId trackingId : string) (req : Request)
  : M Response :=
  tryCatch
    (* First check if QR code exists *)
    (let! qrCode := findById qrCodeId in
     match qrCode with
     | None => ret (Json 404 (ErrorBody "QR code not found"))
     | Some q =>
         (* Check security before recording scan *)
         if isQrCodeExpired now (Some q) then
           ret (Json 200 (ExpiredBody "This QR code has expired"))
         else
           (* Record scan with available data *)
           let scanData :=
             ScanData.mk (header_userAgent req) (req_ip req) (header_referer req)
               (Some "Unknown") (Some "Unknown") in
           let! updatedQrCode := recordScan now qrCodeId scanData in
           match updatedQrCode with
           | None =>
               ret (Json 200
                      (ExpiredBody "This QR code has expired or reached maximum scans"))
           | Some u =>
               if isPasswordProtected (security u) then
                 ret (Json 200 (RequiresPasswordBody qrCodeId trackingId))
               else
                 ret (Json 200
                        (ScannedBody (text u) (qrType u) (scanCount (analytics u))
                           (numOr (maxScans (security u)) 0)))
           end
     end)
    (fun _ => ret (Json 500 (ErrorBody "Internal server error"))).

(** The [password] property of the body of a verification request. *)
Inductive Submitted : Type :=
| NoPassword                  (* undefined or null *)
| PasswordString (s : string)
| NotAString (truthy : bool). (* a number, a boolean, an object, an array *)

Definition submittedFalsy (p : Submitted) : bool :=
  match p with
  | NoPassword => true
  | PasswordString s => negb (truthy s)
  | NotAString t => negb t
  end.

(** POST /api/analytics/verify-password/:qrCodeId *)
Definition verifyPassword (now : Z) (qrCodeId : string) (submitted : Submitted)
  (req : Request) : M Response :=
  tryCatch
    (let! qrCode := findById qrCodeId in
     match qrCode with
     | None => ret (Json 404 (ErrorBody "QR code not found"))
     | Some q =>
         (* Verify the QR code is actually password protected *)
         if negb (isPasswordProtected (security q)) then
           ret (Json 400 (ErrorBody "This QR code is not password protected"))
         (* Validate expiration *)
         else if
           match expiresAt (security q) with
           | Some d => date_gt (ValidDate now) (newDate d)
           | None => false
           end
         then ret (Json 410 (ExpiredBody "This QR code has expired"))
         (* Validate scan limit *)
         else if (maxScans (security q) >? 0)
                 && (scanCount (analytics q) >=? maxScans (security q))
         then ret (Json 429
                     (ExpiredBody "This QR code has reached its maximum number of scans"))
         (* Handle password check *)
         else if submittedFalsy submitted then
           ret (Json 401 (ErrorBody "Password is required"))
         else
           (* Compare passwords after trimming whitespace *)
           match password (security q), submitted with
           | None, _ => throw TypeError            (* undefined.trim() *)
           | Some _, NoPassword => throw TypeError
           | Some _, NotAString _ => throw TypeError   (* password.trim is not a function *)
           | Some stored, PasswordString s =>
               let storedPassword := trim stored in
               let submittedPassword := trim s in
               if negb (String.eqb storedPassword submittedPassword) then
                 ret (Json 401 InvalidPasswordBody)
               else
                 (* Record scan after successful password verification *)
                 let! _r :=
                   recordScan now qrCodeId
                     (ScanData.mk (header_userAgent req) (req_ip req)
                        (header_referer req) None None) in
                 (* Return success and the original destination URL *)
                 ret (Json 200
                        (VerifiedBody (text q) (qrType q) (scanCount (analytics q))
                           (numOr (maxScans (security q)) 0)))
           end
     end)
    (fun _ => ret (Json 500 (ErrorBody "Internal server error"))).

(** GET /track/:qrCodeId/:trackingId, the page route.  [geo] is the answer
    of [geoip.lookup(ip)]: country and city, or null. *)
Definition trackPage (now : Z) (qrCodeId trackingId : string) (req : Request)
  (geo : option (string * string)) : M Response :=
  tryCatch
    (let! qrCode := findById qrCodeId in
     match qrCode with
     (* Check if QR code exists *)
     | None => ret (Send 200 NotFoundPage)
     | Some q =>
         (* Check for expiration *)
         if match expiresAt (security q) with
            | Some d => date_gt (ValidDate now) d
            | None => false
            end
         then ret (Send 200 ExpiredPage)
         (* Check scan limit *)
         else if (maxScans (security q) >? 0)
                 && (scanCount (analytics q) >=? maxScans (security q))
         then ret (Send 200 ScanLimitPage)
         (* For password protected QR codes, show password form *)
         else if isPasswordProtected (security q) then
           ret (Send 200 (PasswordFormPage (_id q) trackingId))
         (* Check expiration first *)
         else if isQrCodeExpired now (Some q) then
           ret (Send 200 ExpiredOrLimitPage)
         else
           match req_ip req with
           | None => throw TypeError            (* ip.replace of undefined *)
           | Some ip =>
               (* Get location data from IP *)
               let locationData :=
                 match geo with
                 | Some (c, t) => (c, t)
                 | None => ("Unknown", "Unknown")
                 end in
               (* If not password protected, record scan and redirect *)
               let! _r :=
                 tryCatch
                   (recordScan now qrCodeId
                      (ScanData.mk (header_userAgent req) (Some ip)
                         (header_referer req)
                         (Some (fst locationData)) (Some (snd locationData))))
                   (fun _ => ret None) in
               (* Redirect to destination URL *)
               ret (Redirect (text q))
           end
     end)
    (fun _ => ret (Send 500 ErrorPage)).

(** [delete updateData.userId] *)
Definition deleteUserId (updateData : list UpdateOp) : list UpdateOp :=
  List.filter (fun op => match op with SetUserId _ => false | _ => true end)
    updateData.

(** PUT /api/qrcodes/:id.  The body is the update document: the fields it
    names are set, among those of the model. *)
Definition updateQRCode (id userId : string) (updateData : list UpdateOp)
  : M Response :=
  tryCatch
    ((* Prevent updating userId *)
     let updateData := deleteUserId updateData in
     let! qrCode := findOneAndUpdate (byIdAndUserId id userId) updateData in
     match qrCode with
     | None => ret (Json 404 (ErrorBody "QR code not found or unauthorized"))
     | Some q => ret (Json 200 (RecordBody q))
     end)
    (fun _ => ret (Json 500 (ErrorBody "Internal server error"))).

(** ** Invariants of the data model *)

(** [password] is non-empty only when [isPasswordProtected] is true. *)
Definition passwordInvariant (q : QRCode) : bool :=
  isPasswordProtected (security q)
  || match password (security q) with
     | None => true
     | Some p => String.eqb p ""
     end.

(** The analytics of the record stored under [id]. *)
Definition analyticsOf (w : World) (id : string) : option Analytics :=
  analytics <$> docs w !! id.

(** The outcomes of the store calls an execution from [w] to [w'] used. *)
Definition cleanRun (w w' : World) : Prop :=
  exists used, failures w = (used ++ failures w')%list /\ Forall (fun b => b = false) used.

(** A world in which no store call fails. *)
Definition quiet (d : gmap string QRCode) : World := mkWorld d [].

(** [wp m Q w]: running [m] from [w] ends in an outcome and a world that
    satisfy [Q]. *)
Definition wp {A} (m : M A) (Q : Outcome A -> World -> Prop) (w : World) : Prop :=
  Q (fst (m w)) (snd (m w)).

(** A sequence of scan requests, each with its instant, identifier and
    scan data, served one after the other. *)
Definition runScans (scans : list (Z * string * ScanData.t)) (w : World) : World :=
  fold_left (fun acc s => snd (recordScan (fst (fst s)) (snd (fst s)) (snd s) acc))
    scans w.

(** The record under [id] is flagged expired. *)
Definition flagged (id : string) (w : World) : Prop :=
  exists q, docs w !! id = Some q /\ isExpired q = true.

(** [m] returns normally only when every store call it made succeeded. *)
Definition clean {A} (m : M A) : Prop :=
  forall w, match m w with
            | (Returns _, w') => cleanRun w w'
            | (Throws _, _) => True
            end.

(** Step 5 as the specification words it: the entry of the device type
    is incremented when there is one, and appended with count 1 when there
    is none. *)
Definition spec_countDevice (t : string) (ds : list Device) : list Device :=
  if existsb (fun d => String.eqb (type d) t) ds
  then incFirstDevice t 1 ds
  else ds ++ [mkDevice t 1].

(** A country or city that could not be resolved (absent, null or empty)
    is recorded as "Unknown". *)
Definition spec_resolved (x : option string) : string :=
  match x with
  | Some s => if String.eqb s "" then "Unknown" else s
  | None => "Unknown"
  end.

(** The location data [recordScan] derives from its [scanData]. *)
Definition locationInfoOf (scanData : ScanData.t) : string * string :=
  (orElse (default "Unknown" (ScanData.country scanData)) "Unknown",
   orElse (default "Unknown" (ScanData.city scanData)) "Unknown").

(** *** The aggregation as the specification words it *)

Definition toMostScanned (q : QRCode) : MostScanned.t :=
  MostScanned.mk (_id q) (text q) (scanCount (analytics q)).

(** The total scan count: a sum over the records. *)
Definition spec_totalScans (qrCodes : list QRCode) : Z :=
  foldr Z.add 0 (map (fun q => scanCount (analytics q)) qrCodes).

(** The record with the highest [scanCount]; among equals, the first in
    query order. *)
Fixpoint spec_highest (qrCodes : list QRCode) : option QRCode :=
  match qrCodes with
  | [] => None
  | q :: rest =>
      match spec_highest rest with
      | None => Some q
      | Some r =>
          if scanCount (analytics r) >? scanCount (analytics q) then Some r
          else Some q
      end
  end.

(** The total of the amounts filed under [key]; no amount, no total. *)
Definition spec_totalOf (key : string) (entries : list (string * Z)) : option Z :=
  match List.filter (fun e => String.eqb (fst e) key) entries with
  | [] => None
  | hits => Some (foldr Z.add 0 (map snd hits))
  end.

(** Every device entry of every record, as label and count. *)
Definition spec_deviceEntries (qrCodes : list QRCode) : list (string * Z) :=
  concat (map (fun q => map (fun dv => (type dv, count dv)) (devices (analytics q)))
            qrCodes).

(** Every scan-location entry of every record, as country and one unit. *)
Definition spec_locationEntries (qrCodes : list QRCode) : list (string * Z) :=
  concat (map (fun q => map (fun l => (spec_resolved (Some (country l)), 1))
                          (scanLocations (analytics q)))
            qrCodes).

(** The records a user owns, in the order the store yields them. *)
Definition ownedBy (u : string) (d : gmap string QRCode) : list QRCode :=
  map snd (select (byUserId u) d).

(** The number a property holds; 0 when the object does not own it. *)
Definition numberAt (obj : gmap string Value) (key : string) : Z :=
  match obj !! key with
  | Some (NumberValue v) => v
  | _ => 0
  end.

(** The object owns no property [key], or one that holds a number. *)
Definition countable (obj : gmap string Value) (key : string) : Prop :=
  match obj !! key with
  | Some (NumberValue _) | None => True
  | Some _ => False
  end.

(** The object built by a run of [addTo] over labelled amounts. *)
Definition tally (entries : list (string * Z)) (obj : gmap string Value)
  : gmap string Value :=
  fold_left (fun acc e => addTo (fst e) (snd e) acc) entries obj.

(** Every stored record satisfies the password invariant. *)
Definition passwordsConsistent (d : gmap string QRCode) : Prop :=
  forall k q, d !! k = Some q -> passwordInvariant q = true.

(** The operators [recordScan] sends: none of them names a security
    field. *)
Definition analyticsOp (op : UpdateOp) : bool :=
  match op with
  | IncScanCount _ | SetLastScanned _ | SetIsExpired _ | PushScanLocation _
  | IncMatchedDeviceCount _ | PushDevice _ => true
  | _ => false
  end.

(** ** Sample records *)

Module Sample.

(** One scan short of its limit of three. *)
Definition limited : QRCode :=
  mkQRCode "q1" "u1" "https://example.org/a" "url"
    (mkAnalytics 2 None [] []) (mkSecurity (Some "") false None 3) false.

(** Flagged expired, protected, without date or limit. *)
Definition retired : QRCode :=
  mkQRCode "q2" "u1" "https://example.org/b" "url"
    (mkAnalytics 7 None [] []) (mkSecurity (Some "abc") true None 0) true.

(** Protected and usable, never scanned. *)
Definition locked : QRCode :=
  mkQRCode "q3" "u1" "https://example.org/c" "url"
    (mkAnalytics 0 None [] []) (mkSecurity (Some "abc") true None 0) false.

(** The only record of user u2, never scanned. *)
Definition unscanned : QRCode :=
  mkQRCode "q4" "u2" "https://example.org/d" "url"
    (mkAnalytics 0 None [] []) (mkSecurity (Some "") false None 0) false.

Definition store : gmap string QRCode :=
  <["q1" := limited]> (<["q2" := retired]> (<["q3" := locked]>
    (<["q4" := unscanned]> ∅))).

Definition request : Request :=
  mkRequest (Some "Mozilla/5.0 (iPhone; CPU iPhone OS 17_0 like Mac OS X)") None None.

Definition scanData : ScanData.t :=
  ScanData.mk (header_userAgent request) None None None None.

End Sample.

(** * Further operations of the repository *)

(** ** QR version helper (routes/qrcode.js, calculateOptimalVersion)

    [ceilScaled n] stands for [Math.ceil(n * 1.3)], a floating-point
    product that is left to the caller.  The loop runs for versions 2 to
    40; [fuel] counts the turns that are left. *)

Fixpoint versionLoop (fuel : nat) (ceilScaled : Z -> Z) (contentLength : Z)
  (hasLogo : bool) (version : Z) : Z :=
  match fuel with
  | O => 40
  | S fuel' =>
      if version <=? 40 then
        let effectiveLength :=
          if hasLogo then ceilScaled contentLength else contentLength in
        if version * version * 4 >=? effectiveLength then version
        else versionLoop fuel' ceilScaled contentLength hasLogo (version + 1)
      else 40
  end.

Definition calculateOptimalVersion (ceilScaled : Z -> Z) (contentLength : Z)
  (hasLogo : bool) : Z :=
  versionLoop 39 ceilScaled contentLength hasLogo 2.

(** The length the loop compares with. *)
Definition effectiveLengthOf (ceilScaled : Z -> Z) (contentLength : Z)
  (hasLogo : bool) : Z :=
  if hasLogo then ceilScaled contentLength else contentLength.

(** ** Requests served one after the other *)

(** Scan requests on one record through the JSON tracking route: the
    answers, in order, and the world they leave. *)
Fixpoint trackAll (qrCodeId : string) (reqs : list (Z * string * Request))
  (w : World) : list (Outcome Response) * World :=
  match reqs with
  | [] => ([], w)
  | (now, trackingId, req) :: rest =>
      let (o, w1) := trackScan now qrCodeId trackingId req w in
      let (os, w2) := trackAll qrCodeId rest w1 in
      (o :: os, w2)
  end.

(** The answer to the [k]-th successful scan of a record that had [c]
    scans before. *)
Definition scannedAnswer (q : QRCode) (c : Z) (k : nat) : Outcome Response :=
  Returns (Json 200 (ScannedBody (text q) (qrType q) (c + Z.of_nat k)
                       (numOr (maxScans (security q)) 0))).

(** ** Invariants of the collection *)

(** Step 5 of [recordScan] when the store fails neither of its two calls:
    the existence check and the increment or the append that follows. *)
Definition deviceStep (id t : string) (d : gmap string QRCode) : gmap string QRCode :=
  match head (map snd (select (byIdAndDeviceType id t) d)) with
  | Some _ => snd (updateFirst (byIdAndDeviceType id t) [IncMatchedDeviceCount 1] d)
  | None => snd (updateFirst (byId id) [PushDevice (mkDevice t 1)] d)
  end.

(** Every document is stored under its own [_id]. *)
Definition keyed (d : gmap string QRCode) : Prop :=
  forall k q, d !! k = Some q -> _id q = k.

(** No device label occurs twice in the record. *)
Definition labelsUnique (q : QRCode) : Prop :=
  NoDup (map type (devices (analytics q))).

(** [q'] is a later state of [q]: the same identity and content, a scan
    count that did not go down, and a location history that grew at its
    end by as many entries as the count grew. *)
Definition grewFrom (q q' : QRCode) : Prop :=
  _id q' = _id q /\ userId q' = userId q /\ text q' = text q
  /\ qrType q' = qrType q
  /\ scanCount (analytics q) <= scanCount (analytics q')
  /\ exists new,
      scanLocations (analytics q') = (scanLocations (analytics q) ++ new)%list
      /\ Z.of_nat (length new) = scanCount (analytics q') - scanCount (analytics q).

(** Every record of [d0] is still in [d], in a later state. *)
Definition collectionGrew (d0 d : gmap string QRCode) : Prop :=
  forall k q, d0 !! k = Some q -> exists q', d !! k = Some q' /\ grewFrom q q'.

(** The record with its device list replaced. *)
Definition withDevices (ds : list Device) (q : QRCode) : QRCode :=
  with_analytics
    (mkAnalytics (scanCount (analytics q)) (lastScanned (analytics q))
       (scanLocations (analytics q)) ds) q.

(** Every stored record has unique device labels. *)
Definition labelsUniqueIn (d : gmap string QRCode) : Prop :=
  forall k q, d !! k = Some q -> labelsUnique q.

(** ** Answers of the verification route *)

(** The route answered success. *)
Definition isVerifiedAnswer (o : Outcome Response) : bool :=
  match o with
  | Returns (Json _ (VerifiedBody _ _ _ _)) => true
  | _ => false
  end.

(** ** Deleting records and reading analytics
       (routes/qrcode.js, DELETE /:id and POST /delete-bulk;
        routes/analytics.js, GET / and GET /:qrCodeId) *)

(** [Model.findOneAndDelete(query)] *)
Definition findOneAndDelete (qy : Query) : M (option QRCode) :=
  storeCall (fun d =>
               match head (select qy d) with
               | Some (k, q) => (Some q, delete k d)
               | None => (None, d)
               end).

(** The filter [{_id: {$in: ids}, userId}]. *)
Definition listedAndOwned (ids : list string) (u : string)
  (kq : string * QRCode) : bool :=
  existsb (String.eqb (fst kq)) ids && String.eqb (userId (snd kq)) u.

(** [Model.deleteMany({_id: {$in: ids}, userId})]; the result is
    [deletedCount]. *)
Definition deleteMany (ids : list string) (u : string) : M Z :=
  storeCall (fun d =>
               let hits := List.filter (listedAndOwned ids u) (map_to_list d) in
               (Z.of_nat (length hits),
                fold_right (fun kq acc => delete (fst kq) acc) d hits)).

(** The bodies these routes answer with.  The message of a bulk deletion
    is built from [deletedCount]. *)
Inductive Answer : Type :=
| AnswerError (status : Z) (error : string)          (* status, {error} *)
| AnswerMessage (status : Z) (message : string)      (* status, {message} *)
| AnswerDeleted (deletedCount : Z)                   (* 200, {message, deletedCount} *)
| AnswerAnalytics (a : AnalyticsResult)              (* 200, the analytics *)
| AnswerRecord (status : Z) (q : QRCode).            (* status, the record *)

(** DELETE /api/qrcodes/:id *)
Definition deleteQRCode (id userId : string) : M Answer :=
  tryCatch
    (let! qrCode := findOneAndDelete (byIdAndUserId id userId) in
     match qrCode with
     | None => ret (AnswerError 404 "QR code not found or unauthorized")
     | Some _ => ret (AnswerMessage 200 "QR code deleted successfully")
     end)
    (fun _ => ret (AnswerError 500 "Internal server error")).

(** POST /api/qrcodes/delete-bulk.  [qrCodeIds] is [None] when the body
    holds no array under that name. *)
Definition deleteBulk (qrCodeIds : option (list string)) (userId : string)
  : M Answer :=
  tryCatch
    (match qrCodeIds with
     | None | Some [] => ret (AnswerError 400 "No QR codes specified for deletion")
     | Some ids =>
         (* Find and delete QR codes that belong to the user *)
         let! result := deleteMany ids userId in
         ret (AnswerDeleted result)
     end)
    (fun _ => ret (AnswerError 500 "Internal server error")).

(** GET /api/analytics/ *)
Definition getUserAnalytics (userId : string) : M Answer :=
  tryCatch
    (let! analytics := getAnalytics None (Some userId) in
     match analytics with
     | None => ret (AnswerError 404 "No analytics found")
     | Some a => ret (AnswerAnalytics a)
     end)
    (fun _ => ret (AnswerError 500 "Internal server error")).

(** GET /api/analytics/:qrCodeId *)
Definition getQRCodeAnalytics (qrCodeId userId : string) : M Answer :=
  tryCatch
    ((* First check if QR code belongs to the user *)
     let! qrCode := findOne (byIdAndUserId qrCodeId userId) in
     match qrCode with
     | None => ret (AnswerError 404 "QR code not found or unauthorized")
     | Some _ =>
         let! analytics := getAnalytics (Some qrCodeId) None in
         match analytics with
         | None => ret (AnswerError 404 "No analytics found for this QR code")
         | Some a => ret (AnswerAnalytics a)
         end
     end)
    (fun _ => ret (AnswerError 500 "Internal server error")).

(** The sum of two optional totals. *)
Definition addTotals (x y : option Z) : option Z :=
  match x, y with
  | Some a, Some b => Some (a + b)
  | Some a, None => Some a
  | None, y => y
  end.

(** ** Tracking URL (utils/analytics.js, createTrackingUrl)

    [trackingId] is the token [shortid.generate()] returns. *)
Definition createTrackingUrl (baseUrl qrCodeId trackingId : string) : string :=
  baseUrl +:+ "/track/" +:+ qrCodeId +:+ "/" +:+ trackingId.

(** The character [c] occurs in [s]. *)
Fixpoint hasChar (c : ascii) (s : string) : bool :=
  match s with
  | EmptyString => false
  | String a s' => Ascii.eqb a c || hasChar c s'
  end.

(** ** Authentication middleware (middleware/auth.js) *)

(** [s.split(sep)] for a separator of one character. *)
Fixpoint split (sep : ascii) (s : string) : list string :=
  match s with
  | EmptyString => [EmptyString]
  | String c s' =>
      if Ascii.eqb c sep then EmptyString :: split sep s'
      else match split sep s' with
           | h :: t => String c h :: t
           | [] => [String c EmptyString]
           end
  end.

(** What the middleware does with a request: it answers itself, or it
    attaches the decoded token as [req.user] and calls [next()]. *)
Inductive AuthOutcome (Decoded : Type) : Type :=
| Denied (status : Z) (message : string)
| Next (user : Decoded).
Arguments Denied {Decoded} status message.
Arguments Next {Decoded} user.

(** [verify token] stands for [jwt.verify(token, JWT_SECRET)]: the decoded
    token, or [None] when it throws.  [authorization] is the header, [None]
    when it is absent. *)
Definition authMiddleware {Decoded : Type} (verify : string -> option Decoded)
  (authorization : option string) : AuthOutcome Decoded :=
  match authorization with
  | None => Denied 401 "No token, authorization denied"
  | Some authHeader =>
      (* Check if no token *)
      if negb (truthy authHeader) || negb (startsWith authHeader "Bearer ") then
        Denied 401 "No token, authorization denied"
      else
        match nth_error (split " " authHeader) 1 with
        | Some token =>
            (* Verify token *)
            match verify token with
            | Some decoded => Next decoded
            | None => Denied 401 "Token is not valid"
            end
        | None => Denied 401 "Token is not valid"
        end
  end.

(** The text of [s] before its first space. *)
Fixpoint uptoSpace (s : string) : string :=
  match s with
  | EmptyString => EmptyString
  | String c s' => if Ascii.eqb c " " then EmptyString else String c (uptoSpace s')
  end.

(** ** Creating records (models/QRCode.js, the setters of the schema;
       routes/qrcode.js, POST / and POST /bulk) *)

(** The values a JSON body can hold under a name, as far as the creation
    routes tell them apart: nothing, null, a boolean or a string. *)
Inductive JsVal : Type :=
| JUndefined
| JNull
| JBool (b : bool)
| JStr (s : string).

Definition jsTruthy (v : JsVal) : bool :=
  match v with
  | JUndefined | JNull => false
  | JBool b => b
  | JStr s => truthy s
  end.

(** The [security] object of a creation request.  [in_expiresAt] is
    [None] for a falsy value and the date [new Date(value)] otherwise;
    [in_maxScans] is [parseInt(value)], [None] for NaN. *)
Record SecurityInput : Type := mkSecurityInput {
  in_isPasswordProtected : JsVal;
  in_password : JsVal;
  in_expiresAt : option Date;
  in_maxScans : option Z
}.

(** The body of a creation request: [text], [qrType], [security] and
    [enableTracking]. *)
Record CreateInput : Type := mkCreateInput {
  in_text : option string;
  in_qrType : option string;
  in_security : SecurityInput;
  in_enableTracking : JsVal
}.

(** The setter of [security.expiresAt]. *)
Definition expiresAtSetter (val : option Date) : option Date :=
  match val with
  | Some v =>
      let date := newDate v in
      if isNaN (getTime date) then None else Some date
  | None => None
  end.

(** The setter of [security.maxScans], on the value of [parseInt(val)]. *)
Definition maxScansSetter (num : option Z) : Z :=
  match num with
  | None => 0
  | Some n => Z.max 0 n
  end.

(** [parseInt(x) || 0] *)
Definition parsedOr0 (num : option Z) : Z :=
  match num with
  | None => 0
  | Some n => numOr n 0
  end.

(** The values [qrType] may take. *)
Definition qrTypes : list string :=
  ["url"; "text"; "vcard"; "wifi"; "email"; "sms"; "geo"; "event"; "phone"].

(** [new QRCode({...})]: the setters run, and the defaults of the schema
    fill what is not given. *)
Definition newQRCode (id userId : string) (text : option string) (qrType : string)
  (isProtected : bool) (password : option string) (expiresAt : option Date)
  (maxScans : Z) : QRCode :=
  mkQRCode id userId (default "" text) qrType
    (mkAnalytics 0 None [] [])
    (mkSecurity password isProtected (expiresAtSetter expiresAt)
       (maxScansSetter (Some maxScans)))
    false.

(** The validation that runs before a new document is saved: [userId],
    [text] and [qrImage] are required, [qrType] is one of the listed
    values, [maxScans] is at least 0. *)
Definition validates (text : option string) (qrImage : string) (q : QRCode) : bool :=
  truthy (userId q)
  && match text with Some t => truthy t | None => false end
  && truthy qrImage
  && existsb (String.eqb (qrType q)) qrTypes
  && (0 <=? maxScans (security q)).

(** The password check of POST /: the trimmed password, or nothing when
    protection is asked for without a usable password. *)
Definition checkedPassword (security : SecurityInput) : option string :=
  if jsTruthy (in_isPasswordProtected security) then
    match in_password security with
    | JStr p =>
        if negb (truthy p) || String.eqb (trim p) "" then None
        else Some (trim p)
    | _ => None
    end
  else Some "".

(** The text the creation routes encode into the image: the tracking URL
    when tracking is on, the destination otherwise. *)
Definition textToEncode (baseUrl temporaryId trackingId : string)
  (enableTracking : bool) (text : option string) : option string :=
  if enableTracking
  then Some (createTrackingUrl baseUrl temporaryId trackingId)
  else text.

(** [enableTracking = true] as a default of the destructuring. *)
Definition trackingAsked (v : JsVal) : bool :=
  match v with
  | JUndefined => true
  | v => jsTruthy v
  end.

(** POST /api/qrcodes.  [render] stands for [generateQRCodeWithLogo] on
    the text to encode ([None]: it throws), [temporaryId] for the fresh
    [ObjectId], under which the collection holds no document yet, and
    [trackingId] for the [shortid] token. *)
Definition createQRCode (render : option string -> option string)
  (baseUrl temporaryId trackingId userId : string) (input : CreateInput)
  : M Answer :=
  tryCatch
    (let security := in_security input in
     (* Validate and process security options *)
     let isProtected := jsTruthy (in_isPasswordProtected security) in
     match checkedPassword security with
     | None =>
         ret (AnswerError 400
                "Password is required and cannot be empty when password protection is enabled.")
     | Some passwordValue =>
         let enableTracking := trackingAsked (in_enableTracking input) in
         let qrTextForImage :=
           textToEncode baseUrl temporaryId trackingId enableTracking
             (in_text input) in
         match render qrTextForImage with
         | None => throw TypeError   (* any Error: the handler does not look at it *)
         | Some finalQrImage =>
             let qrCode :=
               newQRCode temporaryId userId (in_text input)
                 (default "url" (in_qrType input))
                 isProtected (Some passwordValue) (in_expiresAt security)
                 (parsedOr0 (in_maxScans security)) in
             if validates (in_text input) finalQrImage qrCode then
               let! _u := save qrCode in
               ret (AnswerRecord 201 (preSave qrCode))
             else throw StoreError   (* ValidationError *)
         end
     end)
    (fun _ => ret (AnswerError 500 "Internal server error")).

(** One item of POST /api/qrcodes/bulk: the created record, or null when
    anything fails.  The password is taken as it is given. *)
Definition createBulkItem (render : option string -> option string)
  (baseUrl temporaryId trackingId userId : string) (enableTracking : bool)
  (qr : CreateInput) : M (option QRCode) :=
  tryCatch
    (let qrTextForImage :=
       textToEncode baseUrl temporaryId trackingId enableTracking (in_text qr) in
     match render qrTextForImage with
     | None => throw TypeError
     | Some finalQrImage =>
         let security := in_security qr in
         let isProtected := jsTruthy (in_isPasswordProtected security) in
         let password :=
           if isProtected then
             match in_password security with
             | JStr p => Some p
             | JUndefined | JNull => None
             | JBool b => Some (if b then "true" else "false")  (* cast to String *)
             end
           else Some "" in
         let qrCode :=
           newQRCode temporaryId userId (in_text qr)
             (orElse (default "" (in_qrType qr)) "url")
             isProtected password (in_expiresAt security)
             (parsedOr0 (in_maxScans security)) in
         if validates (in_text qr) finalQrImage qrCode then
           let! _u := save qrCode in
           ret (Some (preSave qrCode))
         else throw StoreError   (* ValidationError *)
     end)
    (fun _ => ret None).

(** [s] is empty or starts with a character that is not white space. *)
Definition tightStart (s : string) : Prop :=
  match s with
  | EmptyString => True
  | String c _ => isWhiteSpace c = false
  end.

(** ** Sample data for the further operations *)

Module Cases.

(** Protected, but stored without a password. *)
Definition passwordless : QRCode :=
  mkQRCode "q5" "u1" "https://example.org/e" "url"
    (mkAnalytics 0 None [] []) (mkSecurity None true None 0) false.

Definition store : gmap string QRCode := <["q5" := passwordless]> Sample.store.

(** A request that carries the client address. *)
Definition request : Request :=
  mkRequest (Some "Mozilla/5.0 (Linux; Android 14)") None (Some "203.0.113.7").

(** Good for two scans, never scanned. *)
Definition twice : QRCode :=
  mkQRCode "q6" "u1" "https://example.org/g" "url"
    (mkAnalytics 0 None [] []) (mkSecurity (Some "") false None 2) false.

Definition raceStore : gmap string QRCode := <["q6" := twice]> Sample.store.

(** Creation requests: protection with a password, with a blank password
    and without a password. *)
Definition protectedInput : CreateInput :=
  mkCreateInput (Some "https://example.org/f") None
    (mkSecurityInput (JBool true) (JStr " s3cret ") None (Some 5)) (JBool false).

Definition blankInput : CreateInput :=
  mkCreateInput (Some "https://example.org/f") None
    (mkSecurityInput (JBool true) (JStr "   ") None None) JUndefined.

Definition bareInput : CreateInput :=
  mkCreateInput (Some "https://example.org/f") None
    (mkSecurityInput (JBool true) JUndefined None None) JUndefined.

(** The record the creation route makes of [protectedInput]. *)
Definition created : QRCode :=
  mkQRCode "q9" "u1" "https://example.org/f" "url"
    (mkAnalytics 0 None [] []) (mkSecurity (Some "s3cret") true None 5) false.

(** A renderer that fails on a missing text only. *)
Definition render (t : option string) : option string :=
  match t with
  | Some s => Some ("png:" +:+ s)
  | None => None
  end.

(** A verifier that accepts one token. *)
Definition verify (token : string) : option string :=
  if String.eqb token "tok" then Some "u1" else None.

End Cases.

(** ** Requests to the routes, served one after the other *)

(** One request to one of the routes, with what the route reads of it. *)
Inductive Call : Type :=
| GetTrack (now : Z) (qrCodeId trackingId : string) (req : Request)
| PostVerifyPassword (now : Z) (qrCodeId : string) (submitted : Submitted)
    (req : Request)
| GetTrackPage (now : Z) (qrCodeId trackingId : string) (req : Request)
    (geo : option (string * string))
| GetUserAnalytics (userId : string)
| GetQRCodeAnalytics (qrCodeId userId : string)
| PostQRCode (render : option string -> option string)
    (baseUrl temporaryId trackingId userId : string) (input : CreateInput)
| PostBulkItem (render : option string -> option string)
    (baseUrl temporaryId trackingId userId : string) (enableTracking : bool)
    (qr : CreateInput)
| PutQRCode (id userId : string) (updateData : list UpdateOp)
| DeleteQRCode (id userId : string)
| PostDeleteBulk (qrCodeIds : option (list string)) (userId : string).

(** The world a request leaves. *)
Definition serve (c : Call) (w : World) : World :=
  match c with
  | GetTrack now id t req => snd (trackScan now id t req w)
  | PostVerifyPassword now id p req => snd (verifyPassword now id p req w)
  | GetTrackPage now id t req geo => snd (trackPage now id t req geo w)
  | GetUserAnalytics u => snd (getUserAnalytics u w)
  | GetQRCodeAnalytics id u => snd (getQRCodeAnalytics id u w)
  | PostQRCode render baseUrl id t u input =>
      snd (createQRCode render baseUrl id t u input w)
  | PostBulkItem render baseUrl id t u enableTracking qr =>
      snd (createBulkItem render baseUrl id t u enableTracking qr w)
  | PutQRCode id u updateData => snd (updateQRCode id u updateData w)
  | DeleteQRCode id u => snd (deleteQRCode id u w)
  | PostDeleteBulk ids u => snd (deleteBulk ids u w)
  end.

Definition serveAll (calls : list Call) (w : World) : World :=
  fold_left (fun acc c => serve c acc) calls w.

(** The operator writes [security.password] or
    [security.isPasswordProtected]. *)
Definition securityOp (op : UpdateOp) : bool :=
  match op with
  | SetPassword _ | SetIsPasswordProtected _ => true
  | _ => false
  end.

(** The request is not an update whose body names one of the two
    password fields. *)
Definition leavesPasswords (c : Call) : bool :=
  match c with
  | PutQRCode _ _ updateData => forallb (fun op => negb (securityOp op)) updateData
  | _ => true
  end.

(** ** Content formatters (utils/qrTypeFormatter.js) *)

(** A value read from the [data] object of a request, as far as the
    formatters tell values apart: they test its truthiness, compare it
    with [true] and print it in a template.  [Other] is a number, an
    object or an array, with its truthiness and its printed form. *)
Inductive FieldValue : Type :=
| Undefined
| Null
| Boolean (b : bool)
| Text (s : string)
| Other (truthy : bool) (printed : string).

Definition isTruthy (v : FieldValue) : bool :=
  match v with
  | Undefined | Null => false
  | Boolean b => b
  | Text s => truthy s
  | Other t _ => t
  end.

(** The value in a template literal, [String(v)]. *)
Definition printed (v : FieldValue) : string :=
  match v with
  | Undefined => "undefined"
  | Null => "null"
  | Boolean b => if b then "true" else "false"
  | Text s => s
  | Other _ p => p
  end.

(** [data.name], undefined when the object has no such property. *)
Definition field (data : gmap string FieldValue) (name : string) : FieldValue :=
  default Undefined (data !! name).

(** [v || ""] *)
Definition orEmpty (v : FieldValue) : FieldValue :=
  if isTruthy v then v else Text "".

(** The line feed of the templates. *)
Definition LF : string := String "010"%char EmptyString.

(** [encodeURIComponent] on code units below 256: letters, digits and
    [- _ . ! ~ * ' ( )] stay, every other character becomes the
    percent-encoded bytes of its UTF-8 form, one byte below U+0080 and two
    from there on. *)
Definition uriUnreserved (c : ascii) : bool :=
  let n := N_of_ascii c in
  ((65 <=? n) && (n <=? 90) || (97 <=? n) && (n <=? 122)
   || (48 <=? n) && (n <=? 57))%N
  || existsb (Ascii.eqb c) (list_ascii_of_string "-_.!~*'()").

Definition hexDigit (n : N) : ascii :=
  nth (N.to_nat n) (list_ascii_of_string "0123456789ABCDEF") "0"%char.

Definition percentByte (b : N) : string :=
  String "%" (String (hexDigit (b / 16)) (String (hexDigit (b mod 16)) EmptyString)).

Definition encodeChar (c : ascii) : string :=
  if uriUnreserved c then String c EmptyString
  else
    let n := N_of_ascii c in
    if (n <? 128)%N then percentByte n
    else percentByte (192 + n / 64) +:+ percentByte (128 + n mod 64).

Fixpoint encodeURIComponent (s : string) : string :=
  match s with
  | EmptyString => EmptyString
  | String c s' => encodeChar c +:+ encodeURIComponent s'
  end.

(** The first character an encoded text stands for, and the rest of the
    text: the inverse of [encodeChar], used to show that the encoding
    loses nothing. *)
Definition hexValue (c : ascii) : option N :=
  let n := N_of_ascii c in
  if ((48 <=? n) && (n <=? 57))%N then Some (n - 48)%N
  else if ((65 <=? n) && (n <=? 70))%N then Some (n - 55)%N
  else None.

Definition decodeByte (s : string) : option (N * string) :=
  match s with
  | String p (String h (String l r)) =>
      if Ascii.eqb p "%" then
        match hexValue h, hexValue l with
        | Some a, Some b => Some (16 * a + b, r)%N
        | _, _ => None
        end
      else None
  | _ => None
  end.

Definition decodeFirst (s : string) : option (ascii * string) :=
  match s with
  | EmptyString => None
  | String c r =>
      if uriUnreserved c then Some (c, r)
      else
        match decodeByte s with
        | Some (b, r1) =>
            if (b <? 128)%N then Some (ascii_of_N b, r1)
            else
              match decodeByte r1 with
              | Some (b2, r2) => Some (ascii_of_N ((b - 192) * 64 + (b2 - 128)), r2)
              | None => None
              end
        | None => None
        end
  end.

(** formatEmail *)
Definition formatEmail (data : gmap string FieldValue) : string :=
  let email := field data "email" in
  let subject := field data "subject" in
  let body := field data "body" in
  "mailto:" +:+ printed email +:+ "?subject="
  +:+ encodeURIComponent (printed (orEmpty subject))
  +:+ "&body=" +:+ encodeURIComponent (printed (orEmpty body)).

(** formatWifi *)
Definition formatWifi (data : gmap string FieldValue) : string :=
  let ssid := field data "ssid" in
  let password := field data "password" in
  let encryption := field data "encryption" in
  let hidden := field data "hidden" in
  let wifi := "WIFI:S:" +:+ printed ssid +:+ ";" in
  let wifi :=
    if isTruthy encryption then wifi +:+ "T:" +:+ printed encryption +:+ ";"
    else wifi in
  let wifi :=
    if isTruthy password then wifi +:+ "P:" +:+ printed password +:+ ";"
    else wifi in
  let wifi :=
    match hidden with
    | Boolean true => wifi +:+ "H:true;"     (* hidden === true *)
    | _ => wifi
    end in
  wifi +:+ ";".

(** What the formatter reads of a [Date]: its UTC fields, or nothing for
    the Invalid Date, of which every getter answers NaN. *)
Record UTCFields : Type := mkUTCFields {
  utcFullYear : Z;
  utcMonth : Z;
  utcDate : Z;
  utcHours : Z;
  utcMinutes : Z;
  utcSeconds : Z
}.

(** [n.toString()] and a number in a template; [None] is NaN. *)
Definition numberToString (n : option Z) : string :=
  match n with
  | Some z => decimal z
  | None => "NaN"
  end.

(** [s.padStart(2, "0")] *)
Definition padStart2 (s : string) : string :=
  match String.length s with
  | O => "00"
  | S O => "0" +:+ s
  | _ => s
  end.

(** Helper function to format date for iCal.  [newDateOf v] stands for
    [new Date(v)]. *)
Definition formatICalDate (newDateOf : FieldValue -> option UTCFields)
  (dateString : FieldValue) : string :=
  let date := newDateOf dateString in
  let year := utcFullYear <$> date in
  let month := padStart2 (numberToString (Z.succ <$> (utcMonth <$> date))) in
  let day := padStart2 (numberToString (utcDate <$> date)) in
  let hours := padStart2 (numberToString (utcHours <$> date)) in
  let minutes := padStart2 (numberToString (utcMinutes <$> date)) in
  let seconds := padStart2 (numberToString (utcSeconds <$> date)) in
  numberToString year +:+ month +:+ day +:+ "T" +:+ hours +:+ minutes
  +:+ seconds +:+ "Z".

(** formatEvent *)
Definition formatEvent (newDateOf : FieldValue -> option UTCFields)
  (data : gmap string FieldValue) : string :=
  let summary := field data "summary" in
  let location := field data "location" in
  let description := field data "description" in
  let startDate := field data "startDate" in
  let endDate := field data "endDate" in
  let event := "BEGIN:VEVENT" +:+ LF in
  let event :=
    if isTruthy summary then event +:+ "SUMMARY:" +:+ printed summary +:+ LF
    else event in
  let event :=
    if isTruthy location then event +:+ "LOCATION:" +:+ printed location +:+ LF
    else event in
  let event :=
    if isTruthy description
    then event +:+ "DESCRIPTION:" +:+ printed description +:+ LF
    else event in
  let event :=
    if isTruthy startDate
    then event +:+ "DTSTART:" +:+ formatICalDate newDateOf startDate +:+ LF
    else event in
  let event :=
    if isTruthy endDate
    then event +:+ "DTEND:" +:+ formatICalDate newDateOf endDate +:+ LF
    else event in
  event +:+ "END:VEVENT".

(** Sample data objects for the formatters. *)
Module Forms.

Definition mail : gmap string FieldValue :=
  <["email" := Text "a@example.org"]>
    (<["subject" := Text "5&body=x"]> (<["body" := Text "see you"]> ∅)).

(** The same mail with the subject held by another kind of value that
    prints alike. *)
Definition mail' : gmap string FieldValue :=
  <["email" := Text "a@example.org"]>
    (<["subject" := Other true "5&body=x"]> (<["body" := Text "see you"]> ∅)).

Definition wifi : gmap string FieldValue :=
  <["password" := Text "secret"]> (<["hidden" := Boolean true]> ∅).

Definition event : gmap string FieldValue :=
  <["summary" := Text "Launch"]> (<["startDate" := Text "tomorrow"]> ∅).

(** A parser that rejects every text, and one that reads every text as
    5 January 2024, 07:08:09 UTC. *)
Definition rejecting (v : FieldValue) : option UTCFields := None.

Definition fixedDate (v : FieldValue) : option UTCFields :=
  Some (mkUTCFields 2024 0 5 7 8 9).

End Forms.

(** * Properties *)

(** ** Strings *)

Section StringFacts.

Lemma startsWith_append (t post : string) : startsWith (t +:+ post) t = true.
Proof.
  induction t as [|c t IH]; simpl; [reflexivity|].
  rewrite Ascii.eqb_refl. exact IH.
Qed.

Lemma startsWith_inv (s t : string) :
  startsWith s t = true -> exists post, s = t +:+ post.
Proof.
  revert s. induction t as [|c t IH]; intros s H.
  - exists s. reflexivity.
  - destruct s as [|b s]; simpl in H; [discriminate|].
    apply andb_true_iff in H as [Hc Hs].
    apply Ascii.eqb_eq in Hc. subst b.
    destruct (IH _ Hs) as [post ->]. exists post. reflexivity.
Qed.

Lemma includes_cons (c : ascii) (s t : string) :
  includes s t = true -> includes (String c s) t = true.
Proof. intros H. simpl. rewrite H. apply orb_true_r. Qed.

Lemma includes_append (pre t post : string) :
  includes (pre +:+ t +:+ post) t = true.
Proof.
  induction pre as [|c pre IH].
  - change ("" +:+ t +:+ post) with (t +:+ post).
    pose proof (startsWith_append t post) as H.
    destruct (t +:+ post); simpl; rewrite H; reflexivity.
  - change (String c pre +:+ t +:+ post) with (String c (pre +:+ t +:+ post)).
    apply includes_cons. exact IH.
Qed.

(** [includes] decides the substring relation. *)
Lemma includes_contains (s t : string) :
  includes s t = true <-> contains s t.
Proof.
  split.
  - induction s as [|c s IH]; simpl; intros H.
    + rewrite orb_false_r in H. apply startsWith_inv in H as [post E].
      exists "", post. exact E.
    + apply orb_true_iff in H as [H|H].
      * apply startsWith_inv in H as [post E]. exists "", post. exact E.
      * destruct (IH H) as (pre & post & ->).
        exists (String c pre), post. reflexivity.
  - intros (pre & post & ->). apply includes_append.
Qed.

Lemma toLowerCase_append (a b : string) :
  toLowerCase (a +:+ b) = toLowerCase a +:+ toLowerCase b.
Proof. induction a as [|c a IH]; simpl; [reflexivity|]. now rewrite IH. Qed.

(** A marker in lower case that occurs in the user agent still occurs after
    lower-casing. *)
Lemma contains_toLowerCase (s t : string) :
  toLowerCase t = t -> contains s t -> contains (toLowerCase s) t.
Proof.
  intros Ht (pre & post & ->).
  exists (toLowerCase pre), (toLowerCase post).
  rewrite !toLowerCase_append, Ht. reflexivity.
Qed.

Example trim_both_ends : trim "  a b  " = "a b".
Proof. reflexivity. Qed.

Example trim_line_ends :
  trim (String (ascii_of_N 9) (String (ascii_of_N 160)
          ("abc" +:+ String (ascii_of_N 13) (String (ascii_of_N 10) ""))))
  = "abc".
Proof. reflexivity. Qed.

Example trim_keeps_case : trim "ABC" = "ABC".
Proof. reflexivity. Qed.

Example toLowerCase_ascii : toLowerCase "Mozilla/5.0 (iPhone)" = "mozilla/5.0 (iphone)".
Proof. reflexivity. Qed.

Example includes_inside : includes "mozilla/5.0 (iphone)" "iphone" = true.
Proof. reflexivity. Qed.

Example includes_missing : includes "mozilla/5.0 (iphone)" "ipad" = false.
Proof. reflexivity. Qed.

End StringFacts.

(** ** C1: the expiration policy *)

(** C1.  [isQrCodeExpired] returns true exactly when the record is
    missing, or its [isExpired] flag is set, or [expiresAt] is a valid
    timestamp strictly before the current time, or [maxScans > 0] and
    [scanCount >= maxScans]; otherwise it returns false.  With
    [maxScans = 0] the answer is the flag or the date, whatever
    [scanCount] is.  The evaluator is a function of the record and the
    clock alone: it returns a boolean and has no access to the store. *)
Theorem isQrCodeExpired_policy (now : Z) (record : option QRCode) :
  (isQrCodeExpired now record = true <-> spec_expired now record)
  /\ (isQrCodeExpired now record = false <-> ~ spec_expired now record)
  /\ (forall q, record = Some q -> maxScans (security q) = 0 ->
      isQrCodeExpired now record = isExpired q || spec_dateExpired now q).
Proof.
  assert (Hiff : isQrCodeExpired now record = true <-> spec_expired now record).
  { destruct record as [q|]; simpl; [|tauto].
    unfold date_gt, newDate, getTime, isNaN.
    destruct (isExpired q); [tauto|].
    destruct (expiresAt (security q)) as [[t|]|]; simpl;
      rewrite ?Z.gtb_ltb, ?Z.geb_leb;
      repeat match goal with
        | |- context [?a <? ?b] => destruct (Z.ltb_spec a b)
        | |- context [?a <=? ?b] => destruct (Z.leb_spec a b)
        end; simpl;
      (split;
       [ try discriminate; intros _;
         first [ right; left; eexists; split; [reflexivity|lia]
               | right; right; lia ]
       | try reflexivity;
         intros [Hf|[(t' & Ht & Hlt)|Hlim]]; try discriminate; try lia;
         injection Ht as <-; lia ]). }
  split; [exact Hiff|]. split.
  - rewrite <- Hiff. destruct (isQrCodeExpired now record); split; congruence.
  - intros q -> Hmax. unfold spec_dateExpired, isQrCodeExpired, date_gt, newDate.
    rewrite Hmax.
    destruct (isExpired q); [reflexivity|].
    destruct (expiresAt (security q)) as [[t|]|]; simpl; try reflexivity.
    rewrite Z.gtb_ltb. destruct (t <? now); reflexivity.
Qed.

(** ** C7: device classification *)

(** The [desktop] label is dead: its markers are tried only after all of
    them failed. *)
Lemma deviceTypeOf_never_desktop (userAgent : string) :
  deviceTypeOf userAgent <> "desktop".
Proof.
  unfold deviceTypeOf.
  repeat match goal with
         | |- context [includes ?s ?t] => destruct (includes s t); simpl
         end; discriminate.
Qed.

(** C7.  The device type is the label of the first rule, in the order
    iOS (iphone, ipad), Android, Windows Phone, Mac, Windows, Linux, then
    mobile/tablet and desktop, that has a marker in the lower-cased user
    agent, and "unknown" when none has.  A user agent that contains both
    "iphone" and "android" is classified "ios". *)
Theorem deviceTypeOf_first_match (userAgent : string) :
  deviceTypeOf userAgent = spec_classify userAgent
  /\ (contains userAgent "iphone" /\ contains userAgent "android" ->
      deviceTypeOf userAgent = "ios").
Proof.
  split.
  - unfold deviceTypeOf, spec_classify, spec_rules, spec_first_match, existsb.
    repeat match goal with
           | |- context [includes ?s ?t] => destruct (includes s t); simpl
           end; reflexivity.
  - intros [Hi _].
    apply (contains_toLowerCase _ "iphone" eq_refl) in Hi.
    apply includes_contains in Hi.
    unfold deviceTypeOf. rewrite Hi. reflexivity.
Qed.

Lemma deviceTypeOf_first_match_witness :
  deviceTypeOf "Mozilla/5.0 (iphone; like android) Mobile" = "ios".
Proof.
  apply (deviceTypeOf_first_match "Mozilla/5.0 (iphone; like android) Mobile").
  split.
  - exists "Mozilla/5.0 (", "; like android) Mobile". reflexivity.
  - exists "Mozilla/5.0 (iphone; like ", ") Mobile". reflexivity.
Defined.

(** ** The monad and the store *)

Section Monad.

Context {A B : Type}.

Lemma wp_ret (a : A) (Q : Outcome A -> World -> Prop) (w : World) :
  Q (Returns a) w -> wp (ret a) Q w.
Proof. intros H. exact H. Qed.

Lemma wp_throw (e : Error) (Q : Outcome A -> World -> Prop) (w : World) :
  Q (Throws e) w -> wp (throw e) Q w.
Proof. intros H. exact H. Qed.

Lemma wp_bind (m : M A) (k : A -> M B) (Q : Outcome B -> World -> Prop) (w : World) :
  wp m (fun o w' =>
          match o with
          | Returns a => wp (k a) Q w'
          | Throws e => Q (Throws e) w'
          end) w ->
  wp (bind m k) Q w.
Proof.
  unfold wp, bind. destruct (m w) as [[a|e] w']; simpl; intros H; exact H.
Qed.

Lemma wp_tryCatch (m : M A) (h : Error -> M A) (Q : Outcome A -> World -> Prop)
  (w : World) :
  wp m (fun o w' =>
          match o with
          | Returns a => Q (Returns a) w'
          | Throws e => wp (h e) Q w'
          end) w ->
  wp (tryCatch m h) Q w.
Proof.
  unfold wp, tryCatch. destruct (m w) as [[a|e] w']; simpl; intros H; exact H.
Qed.

Lemma wp_mono (m : M A) (Q Q' : Outcome A -> World -> Prop) (w : World) :
  (forall o w', Q o w' -> Q' o w') -> wp m Q w -> wp m Q' w.
Proof. unfold wp. intros H. apply H. Qed.

(** A store call either throws and leaves the collection as it is, or
    runs; the rest of the schedule is arbitrary. *)
Lemma wp_storeCall (f : gmap string QRCode -> A * gmap string QRCode)
  (Q : Outcome A -> World -> Prop) (w : World) :
  (forall fs, Q (Throws StoreError) (mkWorld (docs w) fs)) ->
  (forall fs, Q (Returns (fst (f (docs w)))) (mkWorld (snd (f (docs w))) fs)) ->
  wp (storeCall f) Q w.
Proof.
  unfold wp, storeCall. intros Ht Hr.
  destruct (failures w) as [|[|] rest]; [| apply Ht |];
    destruct (f (docs w)) as [a d] eqn:E; simpl in *; apply Hr.
Qed.

Lemma storeCall_quiet (f : gmap string QRCode -> A * gmap string QRCode)
  (d : gmap string QRCode) :
  storeCall f (quiet d) = (Returns (fst (f d)), quiet (snd (f d))).
Proof. unfold storeCall, quiet. simpl. destruct (f d); reflexivity. Qed.

Lemma bind_returns (m : M A) (k : A -> M B) (w w' : World) (a : A) :
  m w = (Returns a, w') -> bind m k w = k a w'.
Proof. unfold bind. intros ->. reflexivity. Qed.

(** A [try] whose handler returns a value never throws. *)
Lemma tryCatch_returns (m : M A) (a : A) (w : World) :
  exists r, fst (tryCatch m (fun _ => ret a) w) = Returns r.
Proof.
  unfold tryCatch, ret. destruct (m w) as [[r|e] w']; simpl; eauto.
Qed.

End Monad.

Section Store.

Implicit Types (d : gmap string QRCode) (id : string) (q : QRCode).

Lemma select_byId d id :
  map snd (select (byId id) d) = option_list (d !! id).
Proof. unfold select. simpl. destruct (d !! id); reflexivity. Qed.

Lemma findById_quiet d id :
  findById id (quiet d) = (Returns (d !! id), quiet d).
Proof.
  unfold findById, findOne. rewrite storeCall_quiet. simpl.
  rewrite select_byId. destruct (d !! id); reflexivity.
Qed.

Lemma updateFirst_byId d id ops q :
  d !! id = Some q ->
  updateFirst (byId id) ops d
  = (Some (applyUpdate (byId id) ops q), <[id := applyUpdate (byId id) ops q]> d).
Proof. intros H. unfold updateFirst, select. simpl. rewrite H. reflexivity. Qed.

(** An update keyed by an identifier leaves the other records alone. *)
Lemma updateFirst_other (qy : Query) ops d id j :
  q_id qy = Some id -> j <> id ->
  snd (updateFirst qy ops d) !! j = d !! j.
Proof.
  intros Hq Hne. unfold updateFirst, select. rewrite Hq.
  destruct (d !! id) as [q|]; [|reflexivity].
  destruct (matchesFields qy q); simpl; [|reflexivity].
  apply lookup_insert_ne. congruence.
Qed.

Lemma preSave_isExpired q : isExpired (preSave q) = isExpired q.
Proof. reflexivity. Qed.

Lemma preSave_analytics q : analytics (preSave q) = analytics q.
Proof. reflexivity. Qed.

Lemma preSave__id q : _id (preSave q) = _id q.
Proof. reflexivity. Qed.

(** The stored flag implies the verdict, at any time. *)
Lemma flag_expired (now : Z) q :
  isExpired q = true -> isQrCodeExpired now (Some q) = true.
Proof. intros H. simpl. rewrite H. reflexivity. Qed.

Lemma not_expired_flag (now : Z) q :
  isQrCodeExpired now (Some q) = false -> isExpired q = false.
Proof.
  intros H. destruct (isExpired q) eqn:E; [|reflexivity].
  rewrite (flag_expired now q E) in H. discriminate.
Qed.

End Store.

(** ** The expired flag, requests served one after the other *)

#[local] Arguments isQrCodeExpired : simpl never.
#[local] Arguments deviceTypeOf : simpl never.
#[local] Arguments preSave : simpl never.
#[local] Arguments scanUpdate : simpl never.

Ltac wp_next :=
  cbv beta iota;
  first [ apply wp_tryCatch | apply wp_bind | apply wp_ret | apply wp_throw
        | apply wp_storeCall; intros ? ];
  cbn [fst snd docs failures].

Section Sticky.

Implicit Types (w : World) (id : string).

Lemma flagged_docs id w w' : docs w' = docs w -> flagged id w -> flagged id w'.
Proof. unfold flagged. intros ->. exact (fun H => H). Qed.

Lemma flagged_other id w w' :
  docs w' !! id = docs w !! id -> flagged id w -> flagged id w'.
Proof. unfold flagged. intros ->. exact (fun H => H). Qed.

(** One scan request, whatever its identifier, data, instant and store
    failures, leaves a flagged record flagged. *)
Lemma recordScan_keeps_flag (now : Z) (qrCodeId : string) (scanData : ScanData.t)
  id w :
  flagged id w -> flagged id (snd (recordScan now qrCodeId scanData w)).
Proof.
  intros Hfl.
  change (wp (recordScan now qrCodeId scanData) (fun _ w' => flagged id w') w).
  unfold recordScan, findById, findByIdAndUpdate, findOneAndUpdate, findOne,
    updateOne, save.
  do 3 wp_next; [wp_next; exact (flagged_docs id w _ eq_refl Hfl)|].
  rewrite select_byId.
  destruct (docs w !! qrCodeId) as [q|] eqn:Hq; simpl;
    [|wp_next; exact (flagged_docs id w _ eq_refl Hfl)].
  destruct (isQrCodeExpired now (Some q)) eqn:Hexp.
  - (* the record read is expired: it is saved with the flag set *)
    do 2 wp_next; [wp_next; exact (flagged_docs id w _ eq_refl Hfl)|].
    wp_next. destruct Hfl as (q0 & Hq0 & Hf0). unfold flagged. simpl.
    destruct (decide (_id q = id)) as [->|Hne].
    + rewrite lookup_insert_eq. eexists. split; reflexivity.
    + rewrite lookup_insert_ne by exact Hne. eauto.
  - (* the record read is usable: it is not the flagged one *)
    assert (Hne : id <> qrCodeId).
    { intros ->. destruct Hfl as (q0 & Hq0 & Hf0).
      rewrite Hq in Hq0. injection Hq0 as <-.
      rewrite (not_expired_flag _ _ Hexp) in Hf0. discriminate. }
    assert (Hkeep : forall qy ops d, q_id qy = Some qrCodeId ->
              snd (updateFirst qy ops d) !! id = d !! id).
    { intros qy ops d Hqy. apply (updateFirst_other qy ops d qrCodeId id Hqy Hne). }
    do 2 wp_next; [wp_next; exact (flagged_docs id w _ eq_refl Hfl)|].
    set (d1 := snd (updateFirst (byId qrCodeId) _ (docs w))).
    assert (H1 : flagged id (mkWorld d1 fs0)).
    { apply (flagged_other id w); [|exact Hfl]. apply Hkeep. reflexivity. }
    do 2 wp_next; [wp_next; exact (flagged_docs id (mkWorld d1 fs0) _ eq_refl H1)|].
    wp_next.
    match goal with
    | |- wp ?m _ _ =>
        assert (H2 : wp m (fun _ w' => flagged id w') (mkWorld d1 fs1))
    end.
    { destruct (head _); wp_next;
        try exact (flagged_docs id (mkWorld d1 fs0) _ eq_refl H1);
        (apply (flagged_other id (mkWorld d1 fs0)); [|exact H1]);
        apply Hkeep; reflexivity. }
    revert H2. apply wp_mono. intros [[]|e] w' Hw'.
    + do 2 wp_next; [wp_next; exact (flagged_docs id w' _ eq_refl Hw')|].
      destruct (head _); wp_next;
        exact (flagged_docs id w' _ eq_refl Hw').
    + wp_next. exact Hw'.
Qed.

(** The guard matters: the boolean of the update is computed from the
    record read at the start.  Applied to that record it cannot lower the
    flag (the record was usable, so its flag was down); applied to a
    record flagged since the read it would.  Serving each request to its
    end before the next one is what the results of this section assume. *)
Lemma scanUpdate_on_record_read (now : Z) (id : string) (loc : string * string)
  (q : QRCode) :
  isQrCodeExpired now (Some q) = false ->
  isExpired q = false
  /\ isExpired (applyUpdate (byId id) (scanUpdate now q loc) q)
     = (maxScans (security q) >? 0)
       && (scanCount (analytics q) + 1 >=? maxScans (security q)).
Proof. intros H. split; [exact (not_expired_flag now q H)|reflexivity]. Qed.

Lemma scanUpdate_on_other_record (now : Z) (id : string) (loc : string * string)
  (q stored : QRCode) :
  maxScans (security q) = 0 ->
  isExpired (applyUpdate (byId id) (scanUpdate now q loc) stored) = false.
Proof. intros H. unfold scanUpdate, applyUpdate. simpl. rewrite H. reflexivity. Qed.

End Sticky.

(** Requests served one after the other.  Once the record under [id] is
    flagged expired, the evaluator answers true on it at any time, and
    after any sequence of scan requests, each served to its end before
    the next (on any identifiers, with any data, at any instants, with any
    store failures) the record under [id] is still flagged and still
    judged expired.  The update that writes a computed boolean into
    [isExpired] is reached only for a record whose flag is down, so it
    never overwrites a raised flag. *)
Theorem isExpired_sticky (scans : list (Z * string * ScanData.t)) (id : string)
  (w : World) (q : QRCode) :
  docs w !! id = Some q -> isExpired q = true ->
  (forall now, isQrCodeExpired now (Some q) = true)
  /\ (exists q', docs (runScans scans w) !! id = Some q'
                 /\ isExpired q' = true
                 /\ forall now, isQrCodeExpired now (Some q') = true)
  /\ (forall now q0, isQrCodeExpired now (Some q0) = false -> isExpired q0 = false).
Proof.
  intros Hq Hf. split; [intros now; apply flag_expired, Hf|]. split.
  - assert (Hfl : flagged id (runScans scans w)).
    { assert (H0 : flagged id w) by (exists q; auto).
      clear Hq Hf. revert w H0. unfold runScans.
      induction scans as [|[[now qid] sd] scans IH]; intros w H0; simpl; [exact H0|].
      apply IH. apply recordScan_keeps_flag. exact H0. }
    destruct Hfl as (q' & Hq' & Hf'). exists q'.
    split; [exact Hq'|]. split; [exact Hf'|].
    intros now. apply flag_expired, Hf'.
  - intros now q0. apply not_expired_flag.
Qed.

(** ** C9: expired records, absent records and failures *)

Section Clean.

Lemma cleanRun_refl (w : World) : cleanRun w w.
Proof. exists []. split; [reflexivity|constructor]. Qed.

Lemma cleanRun_trans (w1 w2 w3 : World) :
  cleanRun w1 w2 -> cleanRun w2 w3 -> cleanRun w1 w3.
Proof.
  intros (u1 & E1 & F1) (u2 & E2 & F2). exists (u1 ++ u2)%list. split.
  - rewrite E1, E2. apply app_assoc.
  - apply Forall_app. split; assumption.
Qed.

Lemma clean_ret {A} (a : A) : clean (ret a).
Proof. intros w. apply cleanRun_refl. Qed.

Lemma clean_throw {A} (e : Error) : clean (@throw A e).
Proof. intros w. exact I. Qed.

Lemma clean_bind {A B} (m : M A) (k : A -> M B) :
  clean m -> (forall a, clean (k a)) -> clean (bind m k).
Proof.
  intros Hm Hk w. unfold bind. specialize (Hm w).
  destruct (m w) as [[a|e] w1]; [|exact I].
  specialize (Hk a w1). destruct (k a w1) as [[b|e] w2]; [|exact I].
  eapply cleanRun_trans; eassumption.
Qed.

Lemma clean_storeCall {A} (f : gmap string QRCode -> A * gmap string QRCode) :
  clean (storeCall f).
Proof.
  intros w. unfold storeCall.
  destruct (failures w) as [|[|] rest] eqn:E; [| exact I |];
    destruct (f (docs w)) as [a d].
  - exists []. split; [exact E|constructor].
  - exists [false]. split; [exact E|repeat constructor].
Qed.

(** The body of [recordScan] inside its [try]. *)
Lemma recordScan_returns (now : Z) (qrCodeId : string) (scanData : ScanData.t)
  (w : World) :
  exists r, fst (recordScan now qrCodeId scanData w) = Returns r
            /\ (r <> None -> cleanRun w (snd (recordScan now qrCodeId scanData w))).
Proof.
  unfold recordScan, tryCatch.
  match goal with
  | |- context [match ?body w with _ => _ end] =>
      assert (Hc : clean body); [|specialize (Hc w); destruct (body w) as [[r|e] w']]
  end.
  - apply clean_bind; [apply clean_storeCall|]. intros [q|]; [|apply clean_ret].
    destruct (isQrCodeExpired now (Some q)).
    + apply clean_bind; [apply clean_storeCall|]. intros _. apply clean_ret.
    + repeat (apply clean_bind; [try apply clean_storeCall|intros ?]).
      * destruct a0; apply clean_storeCall.
      * destruct a2; [apply clean_ret|apply clean_throw].
  - exists r. split; [reflexivity|]. intros _. exact Hc.
  - exists None. split; [reflexivity|]. intros H. now destruct H.
Qed.

End Clean.

Section Expired.

Implicit Types (w : World) (d : gmap string QRCode) (id : string) (q : QRCode).

Lemma preSave_idempotent q : preSave (preSave q) = preSave q.
Proof.
  unfold preSave. destruct q as [i u t ty a [p pp ex ms] fl]. simpl.
  destruct pp; simpl; destruct (ms <? 0) eqn:Hms; simpl;
    destruct ex as [[ms'|]|]; simpl; rewrite ?Hms; reflexivity.
Qed.

Lemma quiet_eta w : failures w = [] -> w = quiet (docs w).
Proof. destruct w as [d fs]. simpl. intros ->. reflexivity. Qed.

(** On an expired record nothing but [save] is run. *)
Lemma recordScan_expired_quiet (now : Z) id (scanData : ScanData.t) d q :
  d !! id = Some q -> isQrCodeExpired now (Some q) = true ->
  recordScan now id scanData (quiet d)
  = (Returns None, quiet (<[_id q := preSave (with_isExpired true q)]> d)).
Proof.
  intros Hq Hexp. unfold recordScan, tryCatch.
  rewrite (bind_returns _ _ _ _ _ (findById_quiet d id)).
  rewrite Hq, Hexp. unfold save, bind. rewrite storeCall_quiet. reflexivity.
Qed.

Lemma recordScan_absent (now : Z) id (scanData : ScanData.t) w :
  docs w !! id = None ->
  fst (recordScan now id scanData w) = Returns None
  /\ docs (snd (recordScan now id scanData w)) = docs w.
Proof.
  intros Hq.
  change (wp (recordScan now id scanData)
            (fun o w' => o = Returns None /\ docs w' = docs w) w).
  unfold recordScan, findById, findOne.
  do 3 wp_next; [wp_next; split; reflexivity|].
  rewrite select_byId, Hq. simpl. wp_next. split; reflexivity.
Qed.

Lemma recordScan_expired_any (now : Z) id (scanData : ScanData.t) w q :
  docs w !! id = Some q -> _id q = id -> isQrCodeExpired now (Some q) = true ->
  fst (recordScan now id scanData w) = Returns None
  /\ forall j, analyticsOf (snd (recordScan now id scanData w)) j = analyticsOf w j.
Proof.
  intros Hq Hid Hexp.
  change (wp (recordScan now id scanData)
            (fun o w' => o = Returns None
                         /\ forall j, analyticsOf w' j = analyticsOf w j) w).
  unfold recordScan, findById, findOne, save.
  do 3 wp_next; [wp_next; split; reflexivity|].
  rewrite select_byId, Hq. simpl. rewrite Hexp.
  do 2 wp_next; [wp_next; split; reflexivity|].
  wp_next. split; [reflexivity|]. intros j. unfold analyticsOf. simpl.
  rewrite Hid. destruct (decide (id = j)) as [<-|Hne].
  - rewrite lookup_insert_eq, Hq. reflexivity.
  - rewrite lookup_insert_ne by exact Hne. reflexivity.
Qed.

End Expired.

(** C9.  [recordScan] always returns: it gives a record or null, never an
    exception, and it gives a record only when every store call it made
    succeeded.  On an absent identifier it returns null and writes
    nothing.  On a record the evaluator judges expired it returns null
    and leaves the analytics of every record as they were, whatever the
    store does; when the store does not fail, it writes the record back
    with [isExpired] set, its analytics untouched, and a further scan
    request changes nothing more. *)
Theorem recordScan_expired_null (now : Z) (id : string) (scanData : ScanData.t)
  (w : World) :
  let w' := snd (recordScan now id scanData w) in
  (exists r, fst (recordScan now id scanData w) = Returns r
             /\ (r <> None -> cleanRun w w'))
  /\ (docs w !! id = None ->
      fst (recordScan now id scanData w) = Returns None /\ docs w' = docs w)
  /\ (forall q, docs w !! id = Some q -> _id q = id ->
      isQrCodeExpired now (Some q) = true ->
      fst (recordScan now id scanData w) = Returns None
      /\ (forall j, analyticsOf w' j = analyticsOf w j)
      /\ (failures w = [] ->
          docs w' = <[id := preSave (with_isExpired true q)]> (docs w)
          /\ (exists q', docs w' !! id = Some q' /\ isExpired q' = true
                         /\ analytics q' = analytics q)
          /\ forall now' scanData',
               recordScan now' id scanData' w' = (Returns None, w'))).
Proof.
  intros w'. split; [apply recordScan_returns|].
  split; [apply recordScan_absent|].
  intros q Hq Hid Hexp.
  destruct (recordScan_expired_any now id scanData w q Hq Hid Hexp) as [Hr Ha].
  split; [exact Hr|]. split; [exact Ha|].
  intros Hquiet. subst w'. rewrite (quiet_eta w Hquiet).
  rewrite (recordScan_expired_quiet now id scanData (docs w) q Hq Hexp).
  rewrite Hid. simpl. split; [reflexivity|]. split.
  - eexists. split; [apply lookup_insert_eq|]. split; reflexivity.
  - intros now' scanData'.
    set (q1 := preSave (with_isExpired true q)).
    assert (H1 : <[id := q1]> (docs w) !! id = Some q1) by apply lookup_insert_eq.
    rewrite (recordScan_expired_quiet now' id scanData' _ q1 H1
               (flag_expired now' q1 eq_refl)).
    assert (E : preSave (with_isExpired true q1) = q1).
    { unfold q1. change (with_isExpired true (preSave (with_isExpired true q)))
        with (preSave (with_isExpired true q)).
      apply preSave_idempotent. }
    rewrite E. replace (_id q1) with id by (symmetry; exact Hid).
    rewrite insert_insert_eq. reflexivity.
Qed.

(** ** C2: recording a scan *)

Section Recording.

Implicit Types (w : World) (d : gmap string QRCode) (id : string) (q : QRCode).

(** The record after the update of step 4 and the device update of step 5. *)
Lemma recordScan_usable_quiet (now : Z) id (scanData : ScanData.t) d q :
  d !! id = Some q -> isQrCodeExpired now (Some q) = false ->
  let deviceType := deviceTypeOf (default "" (ScanData.userAgent scanData)) in
  let q1 := applyUpdate (byId id) (scanUpdate now q (locationInfoOf scanData)) q in
  let f :=
    if hasDeviceType deviceType q1
    then applyUpdate (byIdAndDeviceType id deviceType) [IncMatchedDeviceCount 1] q1
    else applyUpdate (byId id) [PushDevice (mkDevice deviceType 1)] q1 in
  findByIdAndUpdate id (scanUpdate now q (locationInfoOf scanData)) (quiet d)
  = (Returns (Some q1), quiet (<[id := q1]> d))
  /\ recordScan now id scanData (quiet d) = (Returns (Some f), quiet (<[id := f]> d)).
Proof.
  intros Hq Hexp deviceType q1 f.
  assert (H1 : findByIdAndUpdate id (scanUpdate now q (locationInfoOf scanData)) (quiet d)
               = (Returns (Some q1), quiet (<[id := q1]> d))).
  { unfold findByIdAndUpdate, findOneAndUpdate. rewrite storeCall_quiet.
    rewrite (updateFirst_byId d id _ q Hq). reflexivity. }
  split; [exact H1|].
  unfold recordScan, tryCatch.
  rewrite (bind_returns _ _ _ _ _ (findById_quiet d id)).
  rewrite Hq, Hexp.
  fold (locationInfoOf scanData). fold deviceType.
  rewrite (bind_returns _ _ _ _ _ H1).
  assert (L1 : <[id := q1]> d !! id = Some q1) by apply lookup_insert_eq.
  assert (H2 : findOne (byIdAndDeviceType id deviceType) (quiet (<[id := q1]> d))
               = (Returns (if hasDeviceType deviceType q1 then Some q1 else None),
                  quiet (<[id := q1]> d))).
  { unfold findOne. rewrite storeCall_quiet. unfold select. simpl.
    rewrite L1. unfold matchesFields. simpl.
    destruct (hasDeviceType deviceType q1); reflexivity. }
  rewrite (bind_returns _ _ _ _ _ H2).
  assert (H3 : (if hasDeviceType deviceType q1
                then updateOne (byIdAndDeviceType id deviceType) [IncMatchedDeviceCount 1]
                else updateOne (byId id) [PushDevice (mkDevice deviceType 1)])
                 (quiet (<[id := q1]> d))
               = (Returns tt, quiet (<[id := f]> d))).
  { unfold f, updateOne. destruct (hasDeviceType deviceType q1) eqn:Hdev;
      rewrite storeCall_quiet; unfold updateFirst, select; simpl; rewrite L1;
      unfold matchesFields; simpl; rewrite ?Hdev; simpl;
      rewrite insert_insert_eq; reflexivity. }
  assert (H3' : match (if hasDeviceType deviceType q1 then Some q1 else None) with
                | Some _ =>
                    updateOne (byIdAndDeviceType id deviceType) [IncMatchedDeviceCount 1]
                | None => updateOne (byId id) [PushDevice (mkDevice deviceType 1)]
                end (quiet (<[id := q1]> d))
                = (Returns tt, quiet (<[id := f]> d))).
  { rewrite <- H3. destruct (hasDeviceType deviceType q1); reflexivity. }
  rewrite (bind_returns _ _ _ _ _ H3').
  rewrite (bind_returns _ _ _ _ _ (findById_quiet _ id)).
  rewrite lookup_insert_eq. reflexivity.
Qed.

End Recording.

Lemma locationInfoOf_resolved (scanData : ScanData.t) :
  locationInfoOf scanData
  = (spec_resolved (ScanData.country scanData), spec_resolved (ScanData.city scanData)).
Proof.
  unfold locationInfoOf, spec_resolved, orElse, truthy.
  destruct (ScanData.country scanData) as [c|], (ScanData.city scanData) as [t|];
    simpl; try destruct (String.eqb c ""); try destruct (String.eqb t "");
    reflexivity.
Qed.


(** ** C8: the analytics aggregator *)

Section Aggregation.

Implicit Types (qrCodes : list QRCode) (obj : gmap string Value) (key : string).

Lemma numOr_zero (n : Z) : numOr n 0 = n.
Proof. unfold numOr. destruct (Z.eqb_spec n 0); congruence. Qed.

Lemma writeProperty_lookup_ne key (v : Value) obj k :
  key <> k -> writeProperty key v obj !! k = obj !! k.
Proof.
  intros Hne. unfold writeProperty.
  destruct (String.eqb key "__proto__"); [reflexivity|].
  now apply lookup_insert_ne.
Qed.

(** [addTo] touches the property it is given only. *)
Lemma addTo_lookup_ne key n obj k :
  key <> k -> addTo key n obj !! k = obj !! k.
Proof.
  intros Hne. unfold addTo.
  rewrite writeProperty_lookup_ne by exact Hne.
  destruct (isFalsy _); [now apply writeProperty_lookup_ne|reflexivity].
Qed.

Lemma inheritedName_false key :
  inheritedName key = false ->
  String.eqb key "__proto__" = false /\ inheritedFunction key = None.
Proof.
  unfold inheritedName. intros H. apply orb_false_iff in H as [H1 H2].
  split; [exact H1|]. destruct (inheritedFunction key); [discriminate|reflexivity].
Qed.

(** Under a name that [Object.prototype] does not define, [addTo] counts. *)
Lemma addTo_lookup_eq key n obj :
  inheritedName key = false -> countable obj key ->
  addTo key n obj !! key = Some (NumberValue (numberAt obj key + n)).
Proof.
  intros Hk Hc. destruct (inheritedName_false key Hk) as [Hp Hf].
  unfold addTo, readProperty, writeProperty, countable, numberAt in *.
  rewrite Hp, Hf.
  destruct (obj !! key) as [[v| |t]|] eqn:E; try contradiction; cbn [isFalsy].
  - destruct (Z.eqb_spec v 0) as [->|Hv].
    + rewrite !lookup_insert_eq. reflexivity.
    + rewrite E, lookup_insert_eq. reflexivity.
  - rewrite !lookup_insert_eq. reflexivity.
Qed.

(** Under a name that [Object.prototype] defines, [addTo] does not count:
    the inherited method is truthy, and adding to it builds a text. *)
Lemma addTo_inherited_name :
  addTo "constructor" 1 ∅ !! "constructor"
  = Some (StringValue "function Object() { [native code] }1")
  /\ addTo "constructor" 3 (addTo "constructor" 2 ∅) !! "constructor"
     = Some (StringValue "function Object() { [native code] }23")
  /\ addTo "__proto__" 1 ∅ = ∅.
Proof. repeat split. Qed.

Lemma tally_app (es1 es2 : list (string * Z)) obj :
  tally (es1 ++ es2) obj = tally es2 (tally es1 obj).
Proof. unfold tally. apply fold_left_app. Qed.

(** What a run of [addTo] leaves under a name that [Object.prototype]
    does not define: the former number (0 when there was none) plus the
    amounts filed under the name, when there are any; the former state
    otherwise. *)
Lemma tally_lookup (es : list (string * Z)) obj k :
  inheritedName k = false -> countable obj k ->
  tally es obj !! k
  = match spec_totalOf k es with
    | Some t => Some (NumberValue (numberAt obj k + t))
    | None => obj !! k
    end.
Proof.
  intros Hk. revert obj. unfold spec_totalOf.
  induction es as [|[key n] es IH]; intros obj Hc; [reflexivity|].
  change (tally ((key, n) :: es) obj) with (tally es (addTo key n obj)).
  simpl. destruct (String.eqb_spec key k) as [->|Hne].
  - pose proof (addTo_lookup_eq k n obj Hk Hc) as E.
    rewrite IH by (unfold countable; rewrite E; exact I).
    assert (N : numberAt (addTo k n obj) k = numberAt obj k + n)
      by (unfold numberAt at 1; rewrite E; reflexivity).
    rewrite N.
    destruct (List.filter _ es); simpl; [rewrite E|]; do 2 f_equal; lia.
  - pose proof (addTo_lookup_ne key n obj k Hne) as E.
    rewrite IH by (unfold countable; rewrite E; exact Hc).
    assert (N : numberAt (addTo key n obj) k = numberAt obj k)
      by (unfold numberAt; rewrite E; reflexivity).
    rewrite N.
    destruct (List.filter _ es); [exact E|reflexivity].
Qed.

Lemma fold_left_tally {X} (f : X -> string * Z) (xs : list X) obj :
  fold_left (fun acc x => addTo (fst (f x)) (snd (f x)) acc) xs obj
  = tally (map f xs) obj.
Proof.
  revert obj. induction xs as [|x xs IH]; intros obj; [reflexivity|].
  simpl. rewrite IH. reflexivity.
Qed.

Lemma orElse_resolved (s : string) : orElse s "Unknown" = spec_resolved (Some s).
Proof. unfold orElse, truthy, spec_resolved. destruct (String.eqb s ""); reflexivity. Qed.

Lemma fold_left_locations (ls : list Location) obj :
  fold_left (fun acc location => addTo (orElse (country location) "Unknown") 1 acc)
    ls obj
  = tally (map (fun l => (spec_resolved (Some (country l)), 1)) ls) obj.
Proof.
  revert obj. induction ls as [|l ls IH]; intros obj; [reflexivity|].
  simpl. rewrite IH, orElse_resolved. reflexivity.
Qed.

(** One turn of the loop, field by field. *)
Lemma aggregateStep_fields (a : Summary) (m : Z) (q : QRCode) :
  let sc := scanCount (analytics q) in
  aggregateStep (a, m) q
  = (mkSummary (totalQrCodes a) (totalScans a + sc) (scansByDate a)
       (tally (spec_deviceEntries [q]) (scansByDevice a))
       (tally (spec_locationEntries [q]) (scansByLocation a))
       (if sc >? m then Some (toMostScanned q) else mostScanned a),
     if sc >? m then sc else m).
Proof.
  intros sc. unfold aggregateStep. rewrite numOr_zero. fold sc.
  unfold spec_deviceEntries, spec_locationEntries. simpl concat.
  rewrite !app_nil_r.
  rewrite <- (fold_left_tally (fun dv => (type dv, count dv))).
  rewrite <- fold_left_locations.
  destruct (sc >? m); reflexivity.
Qed.

Lemma spec_totalScans_cons (q : QRCode) qrCodes :
  spec_totalScans (q :: qrCodes) = scanCount (analytics q) + spec_totalScans qrCodes.
Proof. reflexivity. Qed.

Lemma spec_deviceEntries_cons (q : QRCode) qrCodes :
  spec_deviceEntries (q :: qrCodes)
  = (spec_deviceEntries [q] ++ spec_deviceEntries qrCodes)%list.
Proof. unfold spec_deviceEntries. simpl. now rewrite app_nil_r. Qed.

Lemma spec_locationEntries_cons (q : QRCode) qrCodes :
  spec_locationEntries (q :: qrCodes)
  = (spec_locationEntries [q] ++ spec_locationEntries qrCodes)%list.
Proof. unfold spec_locationEntries. simpl. now rewrite app_nil_r. Qed.

(** The counters after the whole loop. *)
Lemma aggregate_loop_counters qrCodes (a : Summary) (m : Z) :
  let r := fst (fold_left aggregateStep qrCodes (a, m)) in
  totalQrCodes r = totalQrCodes a
  /\ totalScans r = totalScans a + spec_totalScans qrCodes
  /\ scansByDate r = scansByDate a
  /\ scansByDevice r = tally (spec_deviceEntries qrCodes) (scansByDevice a)
  /\ scansByLocation r = tally (spec_locationEntries qrCodes) (scansByLocation a).
Proof.
  revert a m. induction qrCodes as [|q l IH]; intros a m.
  - simpl. repeat split; try reflexivity. unfold spec_totalScans. simpl. lia.
  - cbn [fold_left]. rewrite aggregateStep_fields.
    destruct (IH (mkSummary (totalQrCodes a)
                    (totalScans a + scanCount (analytics q)) (scansByDate a)
                    (tally (spec_deviceEntries [q]) (scansByDevice a))
                    (tally (spec_locationEntries [q]) (scansByLocation a))
                    (if scanCount (analytics q) >? m
                     then Some (toMostScanned q) else mostScanned a))
                 (if scanCount (analytics q) >? m
                  then scanCount (analytics q) else m))
      as (H1 & H2 & H3 & H4 & H5).
    cbn zeta in *. rewrite H1, H2, H3, H4, H5. cbn [totalQrCodes totalScans
      scansByDate scansByDevice scansByLocation].
    rewrite spec_totalScans_cons, (spec_deviceEntries_cons q l),
      (spec_locationEntries_cons q l), !tally_app.
    repeat split; try reflexivity. lia.
Qed.

(** Filtering by a threshold keeps the highest record or nothing. *)
Lemma spec_highest_filter (t : Z) qrCodes :
  spec_highest (List.filter (fun q => scanCount (analytics q) >? t) qrCodes)
  = match spec_highest qrCodes with
    | Some r => if scanCount (analytics r) >? t then Some r else None
    | None => None
    end.
Proof.
  induction qrCodes as [|x l IH]; [reflexivity|].
  cbn [List.filter spec_highest].
  destruct (scanCount (analytics x) >? t) eqn:Ex.
  - cbn [spec_highest]. rewrite IH.
    destruct (spec_highest l) as [r|]; [|now rewrite Ex].
    destruct (scanCount (analytics r) >? t) eqn:Er.
    + destruct (scanCount (analytics r) >? scanCount (analytics x));
        [now rewrite Er|now rewrite Ex].
    + destruct (scanCount (analytics r) >? scanCount (analytics x)) eqn:Erx;
        [|now rewrite Ex].
      apply Z.gtb_lt in Ex, Erx. rewrite Z.gtb_ltb in Er.
      apply Z.ltb_ge in Er. lia.
  - rewrite IH. destruct (spec_highest l) as [r|]; [|now rewrite Ex].
    destruct (scanCount (analytics r) >? scanCount (analytics x)) eqn:Erx;
      [reflexivity|rewrite Ex].
    destruct (scanCount (analytics r) >? t) eqn:Er; [|reflexivity].
    apply Z.gtb_lt in Er. rewrite Z.gtb_ltb in Ex, Erx.
    apply Z.ltb_ge in Ex, Erx. lia.
Qed.

(** The record the loop holds at its end: the highest above the starting
    threshold, or the one it started with. *)
Lemma aggregate_loop_most qrCodes (a : Summary) (m : Z) :
  mostScanned (fst (fold_left aggregateStep qrCodes (a, m)))
  = match spec_highest
            (List.filter (fun q => scanCount (analytics q) >? m) qrCodes) with
    | Some r => Some (toMostScanned r)
    | None => mostScanned a
    end.
Proof.
  revert a m. induction qrCodes as [|q l IH]; intros a m; [reflexivity|].
  cbn [fold_left]. rewrite aggregateStep_fields. cbn zeta. rewrite IH.
  cbn [List.filter mostScanned].
  destruct (scanCount (analytics q) >? m) eqn:Eq.
  - cbn [spec_highest]. rewrite !spec_highest_filter.
    destruct (spec_highest l) as [r|]; [|reflexivity].
    destruct (scanCount (analytics r) >? scanCount (analytics q)) eqn:Erq.
    + assert (Er : (scanCount (analytics r) >? m) = true).
      { apply Z.gtb_lt in Eq, Erq. apply Z.gtb_lt. lia. }
      rewrite Er, Erq. reflexivity.
    + destruct (scanCount (analytics r) >? m); [rewrite Erq|]; reflexivity.
  - reflexivity.
Qed.


Lemma getAnalytics_neither (qrCodeId userId : option string) (w : World) :
  given qrCodeId = None -> given userId = None ->
  getAnalytics qrCodeId userId w = (Returns None, w).
Proof. intros H1 H2. unfold getAnalytics, tryCatch. rewrite H1, H2. reflexivity. Qed.

Lemma getAnalytics_record (qrCodeId userId : option string) (i : string)
  (d : gmap string QRCode) :
  given qrCodeId = Some i ->
  getAnalytics qrCodeId userId (quiet d)
  = (Returns (RecordAnalytics <$> (analytics <$> d !! i)), quiet d).
Proof.
  intros H1. unfold getAnalytics, tryCatch, bind, find. rewrite H1.
  rewrite storeCall_quiet. cbn [fst snd]. rewrite select_byId.
  destruct (d !! i); reflexivity.
Qed.

Lemma getAnalytics_user (qrCodeId userId : option string) (u : string)
  (d : gmap string QRCode) :
  given qrCodeId = None -> given userId = Some u ->
  getAnalytics qrCodeId userId (quiet d)
  = (Returns (Some (UserSummary (aggregate (ownedBy u d)))), quiet d).
Proof.
  intros H1 H2. unfold getAnalytics, tryCatch, bind, find. rewrite H1, H2.
  rewrite storeCall_quiet. reflexivity.
Qed.

(** The records of the user scope are the stored records the user owns. *)
Lemma ownedBy_spec (u : string) (d : gmap string QRCode) (q : QRCode) :
  In q (ownedBy u d) <-> exists k, d !! k = Some q /\ userId q = u.
Proof.
  unfold ownedBy, select. simpl. rewrite in_map_iff. split.
  - intros ([k q'] & <- & Hin). apply filter_In in Hin as [Hin Hm].
    apply list_elem_of_In, elem_of_map_to_list in Hin.
    unfold matchesFields in Hm. simpl in Hm. rewrite andb_true_r in Hm.
    apply String.eqb_eq in Hm. eauto.
  - intros (k & Hk & Hu). exists (k, q). split; [reflexivity|].
    apply filter_In. split.
    + apply list_elem_of_In, elem_of_map_to_list. exact Hk.
    + unfold matchesFields. simpl. rewrite andb_true_r. now apply String.eqb_eq.
Qed.

End Aggregation.

(** C8, as amended.  [getAnalytics] returns null when neither identifier
    is given; with a [qrId] it returns the analytics of the record under
    it, and null when there is none; with a [userId] only it returns,
    over the records the user owns in query order: their number, the sum
    of their scan counts, the first record with the highest scan count
    when that count is positive and null when no record has a positive
    scan count, and, for the labels and countries that are not names
    defined by [Object.prototype], per device label the sum of the counts
    of all device entries with the label, and per country the number of
    location entries, an empty country counted as "Unknown".  Scan counts
    5, 12, 3
    give [totalScans = 20] and the record with 12 as [mostScanned]. *)
Theorem getAnalytics_summary (qrId ownerId : option string)
  (d : gmap string QRCode) :
  (given qrId = None -> given ownerId = None ->
   forall w, getAnalytics qrId ownerId w = (Returns None, w))
  /\ (forall i, given qrId = Some i ->
      getAnalytics qrId ownerId (quiet d)
      = (Returns (RecordAnalytics <$> (analytics <$> d !! i)), quiet d))
  /\ (forall u, given qrId = None -> given ownerId = Some u ->
      let qrCodes := ownedBy u d in
      (forall q, In q qrCodes <-> exists k, d !! k = Some q /\ userId q = u)
      /\ exists s,
          getAnalytics qrId ownerId (quiet d)
          = (Returns (Some (UserSummary s)), quiet d)
          /\ totalQrCodes s = Z.of_nat (length qrCodes)
          /\ totalScans s = spec_totalScans qrCodes
          /\ mostScanned s
             = match spec_highest qrCodes with
               | Some r =>
                   if scanCount (analytics r) >? 0 then Some (toMostScanned r)
                   else None
               | None => None
               end
          /\ (forall label,
                 inheritedName label = false ->
                 scansByDevice s !! label
                 = NumberValue <$> spec_totalOf label (spec_deviceEntries qrCodes))
          /\ (forall c,
                 inheritedName c = false ->
                 scansByLocation s !! c
                 = NumberValue <$> spec_totalOf c (spec_locationEntries qrCodes)))
  /\ (forall a b c,
      scanCount (analytics a) = 5 -> scanCount (analytics b) = 12 ->
      scanCount (analytics c) = 3 ->
      totalScans (aggregate [a; b; c]) = 20
      /\ mostScanned (aggregate [a; b; c]) = Some (toMostScanned b)).
Proof.
  split; [intros H1 H2 w; now apply getAnalytics_neither|].
  split; [intros i Hi; now apply getAnalytics_record|].
  assert (Hagg : forall l,
             totalQrCodes (aggregate l) = Z.of_nat (length l)
             /\ totalScans (aggregate l) = spec_totalScans l
             /\ mostScanned (aggregate l)
                = match spec_highest l with
                  | Some r =>
                      if scanCount (analytics r) >? 0 then Some (toMostScanned r)
                      else None
                  | None => None
                  end
             /\ (forall label,
                    inheritedName label = false ->
                    scansByDevice (aggregate l) !! label
                    = NumberValue <$> spec_totalOf label (spec_deviceEntries l))
             /\ (forall c,
                    inheritedName c = false ->
                    scansByLocation (aggregate l) !! c
                    = NumberValue <$> spec_totalOf c (spec_locationEntries l))).
  { intros l. unfold aggregate.
    destruct (aggregate_loop_counters l
                (mkSummary (Z.of_nat (length l)) 0 ∅ ∅ ∅ None) 0)
      as (H1 & H2 & _ & H4 & H5).
    cbn zeta in *. rewrite H1, H2, aggregate_loop_most, spec_highest_filter.
    split; [reflexivity|]. split; [simpl; lia|]. split.
    - destruct (spec_highest l) as [r|]; [|reflexivity].
      destruct (scanCount (analytics r) >? 0); reflexivity.
    - split; intros k Hk; [rewrite H4|rewrite H5];
        (rewrite tally_lookup;
         [|exact Hk|unfold countable; cbn [scansByDevice scansByLocation];
                    rewrite lookup_empty; exact I]);
        unfold numberAt; cbn [scansByDevice scansByLocation];
        rewrite lookup_empty; destruct (spec_totalOf k _); reflexivity. }
  split.
  - intros u H1 H2 qrCodes. split; [intros q; apply ownedBy_spec|].
    exists (aggregate qrCodes). split; [now apply getAnalytics_user|].
    apply Hagg.
  - intros a b c Ha Hb Hc. destruct (Hagg [a; b; c]) as (_ & H2 & H3 & _).
    rewrite H2, H3. split.
    + unfold spec_totalScans. simpl. rewrite Ha, Hb, Hc. reflexivity.
    + cbn [spec_highest]. rewrite Hc, Hb. change (3 >? 12) with false.
      cbv iota. rewrite Hb, Ha. change (12 >? 5) with true.
      cbv iota. rewrite Hb. reflexivity.
Qed.

(** ** C6, C10: the password verification route *)

Section Verification.

Implicit Types (d : gmap string QRCode) (id : string) (q : QRCode).

(** A usable record passes the date and limit checks the routes repeat. *)
Lemma usable_checks (now : Z) q :
  isQrCodeExpired now (Some q) = false ->
  match expiresAt (security q) with
  | Some e => date_gt (ValidDate now) (newDate e)
  | None => false
  end = false
  /\ (maxScans (security q) >? 0)
     && (scanCount (analytics q) >=? maxScans (security q)) = false.
Proof.
  unfold isQrCodeExpired. destruct (isExpired q); [discriminate|].
  destruct (expiresAt (security q)) as [[t|]|]; simpl;
    unfold date_gt; simpl;
    repeat match goal with
           | |- context [if ?b then _ else _] => destruct b
           end; intros H; try discriminate; split; reflexivity.
Qed.

(** The route up to the comparison of the trimmed passwords. *)
Lemma verifyPassword_compare (now : Z) id (s stored : string) (req : Request) d q :
  d !! id = Some q ->
  isPasswordProtected (security q) = true ->
  match expiresAt (security q) with
  | Some e => date_gt (ValidDate now) (newDate e)
  | None => false
  end = false ->
  (maxScans (security q) >? 0)
  && (scanCount (analytics q) >=? maxScans (security q)) = false ->
  password (security q) = Some stored ->
  truthy s = true ->
  let scanData := ScanData.mk (header_userAgent req) (req_ip req)
                    (header_referer req) None None in
  verifyPassword now id (PasswordString s) req (quiet d)
  = if String.eqb (trim stored) (trim s)
    then (Returns (Json 200 (VerifiedBody (text q) (qrType q)
                               (scanCount (analytics q))
                               (numOr (maxScans (security q)) 0))),
          snd (recordScan now id scanData (quiet d)))
    else (Returns (Json 401 InvalidPasswordBody), quiet d).
Proof.
  intros Hq Hprot Hdate Hlim Hpw Hs scanData.
  unfold verifyPassword, tryCatch.
  rewrite (bind_returns _ _ _ _ _ (findById_quiet d id)).
  rewrite Hq, Hprot, Hdate, Hlim, Hpw. cbn [negb submittedFalsy]. rewrite Hs.
  cbn [negb]. destruct (String.eqb (trim stored) (trim s)); cbn [negb]; [|reflexivity].
  unfold bind. fold scanData.
  destruct (recordScan_returns now id scanData (quiet d)) as (r & Hr & _).
  destruct (recordScan now id scanData (quiet d)) as [o w'].
  simpl in Hr. subst o. reflexivity.
Qed.

End Verification.

(** C6.  On a usable password-protected record the route compares the
    stored and the submitted password after trimming both, for exact
    equality: when they are equal it answers success and the store is the
    one the scan recorder leaves, with the scan counted; when they differ
    it answers 401 and the store is untouched.  With "abc" stored,
    " abc " succeeds and "ABC" fails. *)
Theorem verifyPassword_trims_and_compares (now : Z) (id : string) (s stored : string)
  (req : Request) (d : gmap string QRCode) (q : QRCode) :
  d !! id = Some q ->
  isPasswordProtected (security q) = true ->
  isQrCodeExpired now (Some q) = false ->
  password (security q) = Some stored ->
  truthy s = true ->
  let scanData := ScanData.mk (header_userAgent req) (req_ip req)
                    (header_referer req) None None in
  let ok := Json 200 (VerifiedBody (text q) (qrType q) (scanCount (analytics q))
                        (numOr (maxScans (security q)) 0)) in
  let run := verifyPassword now id (PasswordString s) req (quiet d) in
  (trim stored = trim s ->
   run = (Returns ok, snd (recordScan now id scanData (quiet d)))
   /\ exists f, docs (snd run) !! id = Some f
                /\ scanCount (analytics f) = scanCount (analytics q) + 1)
  /\ (trim stored <> trim s ->
      run = (Returns (Json 401 InvalidPasswordBody), quiet d))
  /\ (stored = "abc" ->
      (s = " abc " -> fst run = Returns ok)
      /\ (s = "ABC" -> run = (Returns (Json 401 InvalidPasswordBody), quiet d))).
Proof.
  intros Hq Hprot Hexp Hpw Hs scanData ok run.
  destruct (usable_checks now q Hexp) as [Hdate Hlim].
  pose proof (verifyPassword_compare now id s stored req d q
                Hq Hprot Hdate Hlim Hpw Hs) as Hrun.
  cbn zeta in Hrun. fold scanData ok run in Hrun.
  assert (Hyes : trim stored = trim s ->
                 run = (Returns ok, snd (recordScan now id scanData (quiet d)))).
  { intros E. rewrite Hrun, E, String.eqb_refl. reflexivity. }
  assert (Hno : trim stored <> trim s ->
                run = (Returns (Json 401 InvalidPasswordBody), quiet d)).
  { intros E. rewrite Hrun. apply String.eqb_neq in E. rewrite E. reflexivity. }
  split; [|split; [exact Hno|]].
  - intros E. split; [exact (Hyes E)|]. rewrite (Hyes E). cbn [snd].
    destruct (recordScan_usable_quiet now id scanData d q Hq Hexp) as [_ H2].
    rewrite H2. cbn [snd docs quiet]. eexists.
    split; [apply lookup_insert_eq|].
    destruct (hasDeviceType _ _); reflexivity.
  - intros ->. split; intros ->.
    + rewrite Hyes; reflexivity.
    + apply Hno. discriminate.
Qed.

(** A flagged, protected record without date or limit is its own saved
    form. *)
Lemma preSave_flagged_protected (q : QRCode) :
  isPasswordProtected (security q) = true -> isExpired q = true ->
  expiresAt (security q) = None -> maxScans (security q) = 0 ->
  preSave (with_isExpired true q) = q.
Proof.
  destruct q as [i u t ty a [p pp ex ms] fl]. simpl.
  intros -> -> -> ->. reflexivity.
Qed.

(** C10.  For a password-protected record whose [isExpired] flag is set
    but that has no expiry date and no scan limit, a correct password is
    answered with success and the redirect target, although the recorder
    returns null and the store stays exactly as it was: no scan is
    recorded. *)
Theorem verifyPassword_ignores_recorder (now : Z) (id : string) (s stored : string)
  (req : Request) (d : gmap string QRCode) (q : QRCode) :
  d !! id = Some q -> _id q = id ->
  isPasswordProtected (security q) = true ->
  isExpired q = true ->
  expiresAt (security q) = None ->
  maxScans (security q) = 0 ->
  password (security q) = Some stored ->
  truthy s = true ->
  trim stored = trim s ->
  let scanData := ScanData.mk (header_userAgent req) (req_ip req)
                    (header_referer req) None None in
  verifyPassword now id (PasswordString s) req (quiet d)
  = (Returns (Json 200 (VerifiedBody (text q) (qrType q)
                          (scanCount (analytics q)) 0)),
     quiet d)
  /\ recordScan now id scanData (quiet d) = (Returns None, quiet d)
  /\ isQrCodeExpired now (Some q) = true.
Proof.
  intros Hq Hid Hprot Hfl Hex Hmax Hpw Hs Htrim scanData.
  assert (Hrec : recordScan now id scanData (quiet d) = (Returns None, quiet d)).
  { rewrite (recordScan_expired_quiet now id scanData d q Hq (flag_expired now q Hfl)).
    rewrite (preSave_flagged_protected q Hprot Hfl Hex Hmax), Hid.
    rewrite (insert_id d id q Hq). reflexivity. }
  split; [|split; [exact Hrec|apply flag_expired, Hfl]].
  rewrite (verifyPassword_compare now id s stored req d q Hq Hprot).
  - fold scanData. rewrite Htrim, String.eqb_refl, Hrec, Hmax. reflexivity.
  - rewrite Hex. reflexivity.
  - rewrite Hmax. reflexivity.
  - exact Hpw.
  - exact Hs.
Qed.

(** ** C5: the tracking routes *)

Section Tracking.

Implicit Types (d : gmap string QRCode) (id : string) (q : QRCode).

(** The JSON tracking route records the scan of a usable protected record
    and only then asks for the password. *)
Lemma trackScan_records_then_prompts (now : Z) id (trackingId : string)
  (req : Request) d q :
  d !! id = Some q -> isQrCodeExpired now (Some q) = false ->
  isPasswordProtected (security q) = true ->
  let scanData := ScanData.mk (header_userAgent req) (req_ip req)
                    (header_referer req) (Some "Unknown") (Some "Unknown") in
  trackScan now id trackingId req (quiet d)
  = (Returns (Json 200 (RequiresPasswordBody id trackingId)),
     snd (recordScan now id scanData (quiet d)))
  /\ exists f, docs (snd (recordScan now id scanData (quiet d))) !! id = Some f
               /\ scanCount (analytics f) = scanCount (analytics q) + 1.
Proof.
  intros Hq Hexp Hprot scanData.
  destruct (recordScan_usable_quiet now id scanData d q Hq Hexp) as [_ H2].
  cbn zeta in H2.
  match type of H2 with
  | _ = (Returns (Some ?f0), _) => set (f := f0) in *
  end.
  assert (Hp : isPasswordProtected (security f) = true).
  { unfold f. destruct (hasDeviceType _ _); exact Hprot. }
  assert (Hc : scanCount (analytics f) = scanCount (analytics q) + 1).
  { unfold f. destruct (hasDeviceType _ _); reflexivity. }
  split.
  - unfold trackScan, tryCatch.
    rewrite (bind_returns _ _ _ _ _ (findById_quiet d id)).
    rewrite Hq, Hexp. fold scanData.
    rewrite (bind_returns _ _ _ _ _ H2), H2, Hp. reflexivity.
  - rewrite H2. exists f. split; [apply lookup_insert_eq|exact Hc].
Qed.

(** Both tracking routes check expiry and the scan limit before they ask
    for a password. *)
Lemma trackScan_expired_first (now : Z) id (trackingId : string) (req : Request) d q :
  d !! id = Some q -> isQrCodeExpired now (Some q) = true ->
  trackScan now id trackingId req (quiet d)
  = (Returns (Json 200 (ExpiredBody "This QR code has expired")), quiet d).
Proof.
  intros Hq Hexp. unfold trackScan, tryCatch.
  rewrite (bind_returns _ _ _ _ _ (findById_quiet d id)).
  rewrite Hq, Hexp. reflexivity.
Qed.

(** The page route shows the password form of a usable protected record
    without recording anything. *)
Lemma trackPage_prompts_without_recording (now : Z) id (trackingId : string)
  (req : Request) (geo : option (string * string)) d q :
  d !! id = Some q -> isQrCodeExpired now (Some q) = false ->
  isPasswordProtected (security q) = true ->
  trackPage now id trackingId req geo (quiet d)
  = (Returns (Send 200 (PasswordFormPage (_id q) trackingId)), quiet d).
Proof.
  intros Hq Hexp Hprot. destruct (usable_checks now q Hexp) as [Hdate Hlim].
  unfold trackPage, tryCatch.
  rewrite (bind_returns _ _ _ _ _ (findById_quiet d id)).
  rewrite Hq. unfold newDate in Hdate. rewrite Hdate, Hlim, Hprot. reflexivity.
Qed.

End Tracking.

(** ** C4: the password invariant *)

Section PasswordInvariant.

Implicit Types (d : gmap string QRCode) (q : QRCode) (w : World).

(** Every document written by [save] satisfies the invariant. *)
Lemma preSave_passwordInvariant q : passwordInvariant (preSave q) = true.
Proof.
  unfold passwordInvariant, preSave.
  destruct q as [i u t ty a [p pp ex ms] fl]. simpl.
  destruct pp; simpl; destruct (ms <? 0); simpl;
    destruct ex as [[e|]|]; reflexivity.
Qed.

Lemma select_sound (qy : Query) d k q :
  In (k, q) (select qy d) -> d !! k = Some q.
Proof.
  unfold select. destruct (q_id qy) as [i|].
  - destruct (d !! i) as [q0|] eqn:E; [|intros []].
    destruct (matchesFields qy q0); [|intros []].
    intros [H|[]]. injection H as <- <-. exact E.
  - intros H. apply filter_In in H as [H _].
    now apply list_elem_of_In, elem_of_map_to_list in H.
Qed.

Lemma applyUpdate_security (qy : Query) (ops : list UpdateOp) q :
  forallb analyticsOp ops = true -> security (applyUpdate qy ops q) = security q.
Proof.
  unfold applyUpdate. revert q. induction ops as [|op ops IH]; intros q H; [reflexivity|].
  simpl in H. apply andb_true_iff in H as [Hop Hops].
  simpl. rewrite (IH _ Hops).
  destruct op; try discriminate; try reflexivity.
  simpl. destruct (q_deviceType qy); reflexivity.
Qed.

Lemma updateFirst_passwordsConsistent (qy : Query) (ops : list UpdateOp) d :
  forallb analyticsOp ops = true ->
  passwordsConsistent d -> passwordsConsistent (snd (updateFirst qy ops d)).
Proof.
  intros Hops Hd. unfold updateFirst.
  destruct (select qy d) as [|[k0 q0] rest] eqn:E; [exact Hd|].
  assert (H0 : d !! k0 = Some q0).
  { apply (select_sound qy). rewrite E. left. reflexivity. }
  simpl. intros k q. rewrite lookup_insert.
  destruct (decide (k0 = k)) as [_|_]; [|apply Hd].
  intros H. injection H as <-. unfold passwordInvariant.
  rewrite (applyUpdate_security _ _ _ Hops). apply (Hd k0 q0 H0).
Qed.

(** Scan recording keeps the invariant, whatever the store does. *)
Lemma recordScan_passwordsConsistent (now : Z) (qrCodeId : string)
  (scanData : ScanData.t) w :
  passwordsConsistent (docs w) ->
  passwordsConsistent (docs (snd (recordScan now qrCodeId scanData w))).
Proof.
  intros Hd.
  change (wp (recordScan now qrCodeId scanData)
            (fun _ w' => passwordsConsistent (docs w')) w).
  unfold recordScan, findById, findByIdAndUpdate, findOneAndUpdate, findOne,
    updateOne, save.
  do 3 wp_next; [wp_next; exact Hd|].
  destruct (head _) as [q|]; [|wp_next; exact Hd].
  destruct (isQrCodeExpired now (Some q)).
  - do 2 wp_next; [wp_next; exact Hd|]. wp_next.
    intros k q'. rewrite lookup_insert.
    destruct (decide (_ = k)) as [_|_]; [|apply Hd].
    intros H. injection H as <-. apply preSave_passwordInvariant.
  - do 2 wp_next; [wp_next; exact Hd|].
    match goal with
    | |- wp _ _ (mkWorld ?d1 _) =>
        assert (H1 : passwordsConsistent d1)
          by (apply updateFirst_passwordsConsistent; [reflexivity|exact Hd])
    end.
    do 2 wp_next; [wp_next; exact H1|]. wp_next.
    match goal with
    | |- wp ?m _ (mkWorld ?d1 ?fs) =>
        assert (H2 : wp m (fun _ w' => passwordsConsistent (docs w')) (mkWorld d1 fs))
    end.
    { destruct (head _); wp_next; try exact H1;
        apply updateFirst_passwordsConsistent; try reflexivity; exact H1. }
    revert H2. apply wp_mono. intros [[]|e] w' Hw'.
    + do 2 wp_next; [wp_next; exact Hw'|].
      destruct (head _); wp_next; exact Hw'.
    + wp_next. exact Hw'.
Qed.

End PasswordInvariant.

(** C4, at the input on which the code departs from it.  The owner edits
    the protected record q3 with the body
    [{"security.isPasswordProtected": false}]: the route answers with the
    updated record, and the stored record has protection off and the
    password "abc" still in place.  The record satisfied the invariant
    before the edit; [save] and scan recording keep it (the lemmas above),
    the update route does not. *)
Theorem updateQRCode_keeps_stale_password :
  let edit := updateQRCode "q3" "u1" [SetIsPasswordProtected false]
                (quiet Sample.store) in
  passwordsConsistent Sample.store
  /\ exists q',
      fst edit = Returns (Json 200 (RecordBody q'))
      /\ docs (snd edit) !! "q3" = Some q'
      /\ isPasswordProtected (security q') = false
      /\ password (security q') = Some "abc"
      /\ passwordInvariant q' = false.
Proof.
  split.
  - intros k q. unfold Sample.store. rewrite !lookup_insert, lookup_empty.
    repeat case_decide; intros Hk; try discriminate; injection Hk as <-; reflexivity.
  - eexists. repeat split; vm_compute; reflexivity.
Qed.

(** C5, at the input on which the code departs from it.  A scan request
    through the JSON tracking route on the protected, usable, never
    scanned record q3 is answered with the password prompt, and the scan
    is already counted; the correct password then counts a second one.
    The page route prompts without recording (lemma
    [trackPage_prompts_without_recording]), and both routes check expiry
    and the limit before prompting. *)
Theorem trackScan_counts_before_password :
  let first := trackScan 1000 "q3" "t1" Sample.request (quiet Sample.store) in
  let second := verifyPassword 2000 "q3" (PasswordString "abc") Sample.request
                  (snd first) in
  isPasswordProtected (security Sample.locked) = true
  /\ scanCount <$> analyticsOf (quiet Sample.store) "q3" = Some 0
  /\ fst first = Returns (Json 200 (RequiresPasswordBody "q3" "t1"))
  /\ scanCount <$> analyticsOf (snd first) "q3" = Some 1
  /\ fst second
     = Returns (Json 200 (VerifiedBody "https://example.org/c" "url" 1 0))
  /\ scanCount <$> analyticsOf (snd second) "q3" = Some 2.
Proof. repeat split; vm_compute; reflexivity. Qed.

(** ** Instances *)

Lemma isQrCodeExpired_policy_witness :
  maxScans (security Sample.unscanned) = 0
  /\ isQrCodeExpired 1000 (Some Sample.unscanned) = false.
Proof.
  split; [reflexivity|].
  destruct (isQrCodeExpired_policy 1000 (Some Sample.unscanned)) as (_ & _ & H).
  rewrite (H Sample.unscanned eq_refl eq_refl). reflexivity.
Defined.

Lemma isExpired_sticky_witness :
  exists q',
    docs (runScans [(1000, "q2", Sample.scanData); (2000, "q1", Sample.scanData);
                    (3000, "q2", Sample.scanData)]
            (mkWorld Sample.store [false; true])) !! "q2" = Some q'
    /\ isExpired q' = true.
Proof.
  destruct (isExpired_sticky
              [(1000, "q2", Sample.scanData); (2000, "q1", Sample.scanData);
               (3000, "q2", Sample.scanData)]
              "q2" (mkWorld Sample.store [false; true]) Sample.retired
              eq_refl eq_refl)
    as (_ & (q' & Hq' & Hf & _) & _).
  exists q'. split; assumption.
Defined.

Lemma getAnalytics_summary_witness :
  exists s,
    getAnalytics None (Some "u1") (quiet Sample.store)
    = (Returns (Some (UserSummary s)), quiet Sample.store)
    /\ totalQrCodes s = 3 /\ totalScans s = 9.
Proof.
  destruct (getAnalytics_summary None (Some "u1") Sample.store)
    as (_ & _ & H & _).
  destruct (H "u1" eq_refl eq_refl) as (_ & s & Hrun & Hn & Ht & _).
  exists s. split; [exact Hrun|]. rewrite Hn, Ht. split; reflexivity.
Defined.

Lemma recordScan_expired_null_witness :
  fst (recordScan 1000 "q2" Sample.scanData (quiet Sample.store)) = Returns None
  /\ analyticsOf (snd (recordScan 1000 "q2" Sample.scanData (quiet Sample.store))) "q2"
     = Some (analytics Sample.retired).
Proof.
  destruct (recordScan_expired_null 1000 "q2" Sample.scanData (quiet Sample.store))
    as (_ & _ & H).
  destruct (H Sample.retired eq_refl eq_refl eq_refl) as (Hr & Ha & _).
  split; [exact Hr|]. rewrite Ha. reflexivity.
Defined.

Lemma verifyPassword_trims_and_compares_witness :
  fst (verifyPassword 1000 "q3" (PasswordString " abc ") Sample.request
         (quiet Sample.store))
  = Returns (Json 200 (VerifiedBody "https://example.org/c" "url" 0 0)).
Proof.
  destruct (verifyPassword_trims_and_compares 1000 "q3" " abc " "abc"
              Sample.request Sample.store Sample.locked
              eq_refl eq_refl eq_refl eq_refl eq_refl)
    as (_ & _ & H).
  destruct (H eq_refl) as [Hok _]. exact (Hok eq_refl).
Defined.

Lemma verifyPassword_ignores_recorder_witness :
  verifyPassword 1000 "q2" (PasswordString "abc") Sample.request (quiet Sample.store)
  = (Returns (Json 200 (VerifiedBody "https://example.org/b" "url" 7 0)),
     quiet Sample.store)
  /\ recordScan 1000 "q2" Sample.scanData (quiet Sample.store)
     = (Returns None, quiet Sample.store).
Proof.
  destruct (verifyPassword_ignores_recorder 1000 "q2" "abc" "abc" Sample.request
              Sample.store Sample.retired
              eq_refl eq_refl eq_refl eq_refl eq_refl eq_refl eq_refl eq_refl eq_refl)
    as (H1 & H2 & _).
  split; [exact H1|exact H2].
Defined.

(** C8 as first stated fails: user u2 owns one record, never scanned; it
    is the record with the highest scan count, yet [mostScanned] is
    null. *)
Lemma getAnalytics_mostScanned_counterexample :
  ~ (forall (u : string) (d : gmap string QRCode) (s : Summary),
        getAnalytics None (Some u) (quiet d)
        = (Returns (Some (UserSummary s)), quiet d) ->
        mostScanned s = toMostScanned <$> spec_highest (ownedBy u d)).
Proof.
  intros H.
  specialize (H "u2" Sample.store _
                (getAnalytics_user None (Some "u2") "u2" Sample.store eq_refl eq_refl)).
  vm_compute in H. discriminate H.
Qed.

(** ** No operation lets an exception escape *)

Lemma getAnalytics_returns (qrCodeId ownerId : option string) (w : World) :
  exists r, fst (getAnalytics qrCodeId ownerId w) = Returns r.
Proof. apply tryCatch_returns. Qed.

Lemma trackScan_returns (now : Z) (qrCodeId trackingId : string) (req : Request)
  (w : World) :
  exists r, fst (trackScan now qrCodeId trackingId req w) = Returns r.
Proof. apply tryCatch_returns. Qed.

Lemma verifyPassword_returns (now : Z) (qrCodeId : string) (submitted : Submitted)
  (req : Request) (w : World) :
  exists r, fst (verifyPassword now qrCodeId submitted req w) = Returns r.
Proof. apply tryCatch_returns. Qed.

Lemma trackPage_returns (now : Z) (qrCodeId trackingId : string) (req : Request)
  (geo : option (string * string)) (w : World) :
  exists r, fst (trackPage now qrCodeId trackingId req geo w) = Returns r.
Proof. apply tryCatch_returns. Qed.

Lemma updateQRCode_returns (id owner : string) (updateData : list UpdateOp)
  (w : World) :
  exists r, fst (updateQRCode id owner updateData w) = Returns r.
Proof. apply tryCatch_returns. Qed.

(** * Further properties *)

(** ** The QR version helper *)

Section OptimalVersion.

Variable ceilScaled : Z -> Z.

(** The loop from [version] on, with fuel for all the versions up to 40. *)
Lemma versionLoop_spec (fuel : nat) (contentLength : Z) (hasLogo : bool)
  (version : Z) :
  2 <= version -> 41 - version <= Z.of_nat fuel ->
  let e := effectiveLengthOf ceilScaled contentLength hasLogo in
  let r := versionLoop fuel ceilScaled contentLength hasLogo version in
  (version <= 40 -> version <= r <= 40)
  /\ (forall v, version <= v < r -> v * v * 4 < e)
  /\ (r * r * 4 >= e \/ (r = 40 /\ forall v, version <= v <= 40 -> v * v * 4 < e))
  /\ (40 < version -> r = 40).
Proof.
  revert version. induction fuel as [|fuel IH]; intros version H2 Hfuel e r.
  - simpl in Hfuel. subst r. simpl.
    split; [lia|]. split; [intros v Hv; lia|]. split; [|reflexivity].
    right. split; [reflexivity|]. intros v Hv. lia.
  - subst r. cbn [versionLoop].
    fold (effectiveLengthOf ceilScaled contentLength hasLogo). fold e.
    destruct (Z.leb_spec version 40) as [Hle|Hgt].
    + rewrite Z.geb_leb.
      destruct (Z.leb_spec e (version * version * 4)) as [Hfit|Hno].
      * split; [lia|]. split; [intros v Hv; lia|]. split; [left; lia|lia].
      * destruct (IH (version + 1) ltac:(lia) ltac:(lia)) as (B & M & F & C).
        cbn zeta in B, M, F, C. fold e in M, F.
        set (r := versionLoop fuel ceilScaled contentLength hasLogo (version + 1)) in *.
        assert (Hr : version <= r <= 40).
        { destruct (Z.eq_dec version 40) as [E|E].
          - rewrite C by lia. lia.
          - specialize (B ltac:(lia)). lia. }
        split; [intros _; exact Hr|]. split; [|split; [|lia]].
        -- intros v Hv. destruct (Z.eq_dec v version) as [->|Hne]; [lia|].
           apply M. lia.
        -- destruct F as [F|[F1 F2]]; [left; exact F|].
           right. split; [exact F1|]. intros v Hv.
           destruct (Z.eq_dec v version) as [->|Hne]; [lia|]. apply F2. lia.
    + split; [lia|]. split; [intros v Hv; lia|]. split; [|reflexivity].
      right. split; [reflexivity|]. intros v Hv. lia.
Qed.

(** The version is always between 2 and 40. *)
Theorem calculateOptimalVersion_range (contentLength : Z) (hasLogo : bool) :
  2 <= calculateOptimalVersion ceilScaled contentLength hasLogo <= 40.
Proof.
  unfold calculateOptimalVersion.
  destruct (versionLoop_spec 39 contentLength hasLogo 2 ltac:(lia) ltac:(simpl; lia))
    as (B & _). apply B. lia.
Qed.

(** When some version up to 40 has room for the content, the result is the
    smallest such version, starting at 2. *)
Theorem calculateOptimalVersion_smallest_fit (contentLength : Z) (hasLogo : bool) :
  effectiveLengthOf ceilScaled contentLength hasLogo <= 6400 ->
  let r := calculateOptimalVersion ceilScaled contentLength hasLogo in
  r * r * 4 >= effectiveLengthOf ceilScaled contentLength hasLogo
  /\ forall v, 2 <= v < r ->
               v * v * 4 < effectiveLengthOf ceilScaled contentLength hasLogo.
Proof.
  intros He r. subst r. unfold calculateOptimalVersion.
  destruct (versionLoop_spec 39 contentLength hasLogo 2 ltac:(lia) ltac:(simpl; lia))
    as (_ & M & F & _). cbn zeta in M, F.
  split; [|exact M].
  destruct F as [F|[_ F]]; [exact F|]. specialize (F 40 ltac:(lia)). lia.
Qed.

(** Content too long for version 40 is not refused: the answer is 40. *)
Theorem calculateOptimalVersion_caps_at_40 (contentLength : Z) (hasLogo : bool) :
  6400 < effectiveLengthOf ceilScaled contentLength hasLogo ->
  calculateOptimalVersion ceilScaled contentLength hasLogo = 40.
Proof.
  intros He. unfold calculateOptimalVersion.
  destruct (versionLoop_spec 39 contentLength hasLogo 2 ltac:(lia) ltac:(simpl; lia))
    as (B & _ & F & _). cbn zeta in B, F.
  specialize (B ltac:(lia)).
  destruct F as [F|[F _]]; [|exact F].
  set (r := versionLoop 39 ceilScaled contentLength hasLogo 2) in *. nia.
Qed.

(** More fuel than the 39 turns changes nothing: the loop has ended. *)
Lemma versionLoop_fuel (extra : nat) (contentLength : Z) (hasLogo : bool) :
  versionLoop (39 + extra) ceilScaled contentLength hasLogo 2
  = versionLoop 39 ceilScaled contentLength hasLogo 2.
Proof.
  assert (G : forall fuel version,
             2 <= version -> 41 - version <= Z.of_nat fuel ->
             versionLoop (fuel + extra) ceilScaled contentLength hasLogo version
             = versionLoop fuel ceilScaled contentLength hasLogo version).
  { induction fuel as [|fuel IH]; intros version H2 Hf.
    - simpl in Hf. destruct extra as [|extra']; [reflexivity|].
      simpl. destruct (Z.leb_spec version 40); [lia|reflexivity].
    - cbn [Nat.add versionLoop]. destruct (version <=? 40); [|reflexivity].
      destruct (_ >=? _); [reflexivity|]. apply IH; lia. }
  apply G; simpl; lia.
Qed.

End OptimalVersion.

Lemma calculateOptimalVersion_smallest_fit_witness :
  5 * 5 * 4 >= 100 /\ forall v, 2 <= v < 5 -> v * v * 4 < 100.
Proof.
  apply (calculateOptimalVersion_smallest_fit (fun n => n) 100 false).
  vm_compute. discriminate.
Defined.

Lemma calculateOptimalVersion_caps_at_40_witness :
  calculateOptimalVersion (fun n => n) 7000 false = 40.
Proof.
  apply (calculateOptimalVersion_caps_at_40 (fun n => n) 7000 false).
  reflexivity.
Defined.

(** ** The scan limit over a series of scans *)

Section ScanSeries.

Implicit Types (d : gmap string QRCode) (id : string) (q : QRCode).

(** The record a recorded scan leaves, field by field. *)
Lemma recordScan_usable_fields (now : Z) id (scanData : ScanData.t) d q :
  d !! id = Some q -> isQrCodeExpired now (Some q) = false ->
  exists f,
    recordScan now id scanData (quiet d) = (Returns (Some f), quiet (<[id := f]> d))
    /\ _id f = _id q /\ userId f = userId q /\ text f = text q
    /\ qrType f = qrType q /\ security f = security q
    /\ scanCount (analytics f) = scanCount (analytics q) + 1
    /\ isExpired f
       = (maxScans (security q) >? 0)
         && (scanCount (analytics q) + 1 >=? maxScans (security q)).
Proof.
  intros Hq Hexp.
  destruct (recordScan_usable_quiet now id scanData d q Hq Hexp) as [_ H2].
  cbn zeta in H2. eexists. split; [exact H2|].
  destruct (hasDeviceType _ _); repeat split; reflexivity.
Qed.

(** One scan of an open (unprotected) usable record through the route. *)
Lemma trackScan_open (now : Z) id (trackingId : string) (req : Request) d q :
  d !! id = Some q -> isQrCodeExpired now (Some q) = false ->
  isPasswordProtected (security q) = false ->
  exists f,
    trackScan now id trackingId req (quiet d)
    = (scannedAnswer q (scanCount (analytics q)) 1, quiet (<[id := f]> d))
    /\ text f = text q /\ qrType f = qrType q /\ security f = security q
    /\ scanCount (analytics f) = scanCount (analytics q) + 1
    /\ isExpired f
       = (maxScans (security q) >? 0)
         && (scanCount (analytics q) + 1 >=? maxScans (security q)).
Proof.
  intros Hq Hexp Hopen.
  set (scanData := ScanData.mk (header_userAgent req) (req_ip req)
                     (header_referer req) (Some "Unknown") (Some "Unknown")).
  destruct (recordScan_usable_fields now id scanData d q Hq Hexp)
    as (f & Hrun & _ & _ & Ht & Hty & Hs & Hc & He).
  exists f. split; [|repeat split; assumption].
  unfold trackScan, tryCatch.
  rewrite (bind_returns _ _ _ _ _ (findById_quiet d id)).
  rewrite Hq, Hexp. fold scanData.
  rewrite (bind_returns _ _ _ _ _ Hrun). unfold ret.
  rewrite Hs, Hopen, Ht, Hty, Hc. reflexivity.
Qed.

(** A record without expiry date is usable exactly while its flag is down
    and its limit is not reached. *)
Lemma undated_usable (now : Z) q :
  expiresAt (security q) = None -> isExpired q = false ->
  (maxScans (security q) >? 0)
  && (scanCount (analytics q) >=? maxScans (security q)) = false ->
  isQrCodeExpired now (Some q) = false.
Proof.
  intros Hd Hf Hl. unfold isQrCodeExpired. rewrite Hf, Hd, Hl. reflexivity.
Qed.

(** Scans below the limit all succeed, and count up. *)
Lemma trackAll_below_limit (reqs : list (Z * string * Request)) id d q :
  d !! id = Some q ->
  isExpired q = false -> expiresAt (security q) = None ->
  isPasswordProtected (security q) = false ->
  (maxScans (security q) = 0
   \/ scanCount (analytics q) + Z.of_nat (length reqs) <= maxScans (security q)) ->
  reqs <> [] ->
  exists f,
    trackAll id reqs (quiet d)
    = (map (scannedAnswer q (scanCount (analytics q))) (seq 1 (length reqs)),
       quiet (<[id := f]> d))
    /\ text f = text q /\ qrType f = qrType q /\ security f = security q
    /\ scanCount (analytics f) = scanCount (analytics q) + Z.of_nat (length reqs)
    /\ isExpired f
       = (maxScans (security q) >? 0)
         && (scanCount (analytics f) >=? maxScans (security q)).
Proof.
  revert d q. induction reqs as [|[[now tid] req] rest IH];
    intros d q Hq Hf Hd Hopen Hroom Hne; [congruence|].
  assert (Hnow : isQrCodeExpired now (Some q) = false).
  { apply undated_usable; try assumption.
    cbn [length] in Hroom. destruct Hroom as [->|Hroom]; [reflexivity|].
    apply andb_false_iff. right. rewrite Z.geb_leb. apply Z.leb_gt. lia. }
  destruct (trackScan_open now id tid req d q Hq Hnow Hopen)
    as (f & Hrun & Ht & Hty & Hs & Hc & He).
  cbn [trackAll]. rewrite Hrun.
  destruct (decide (rest = [])) as [->|Hrest].
  - cbn [trackAll length seq map]. exists f.
    split; [reflexivity|]. repeat split; try assumption.
    rewrite He, Hc. reflexivity.
  - assert (Hf' : isExpired f = false).
    { rewrite He. cbn [length] in Hroom. destruct Hroom as [->|Hroom]; [reflexivity|].
      apply andb_false_iff. right. rewrite Z.geb_leb. apply Z.leb_gt.
      destruct rest; [congruence|]. cbn [length] in Hroom. lia. }
    destruct (IH (<[id := f]> d) f (lookup_insert_eq _ _ _) Hf')
      as (g & Hrun' & Gt & Gty & Gs & Gc & Ge).
    + rewrite Hs. exact Hd.
    + rewrite Hs. exact Hopen.
    + rewrite Hs, Hc. cbn [length] in Hroom. lia.
    + exact Hrest.
    + rewrite Hrun'. exists g. rewrite insert_insert_eq.
      split.
      * f_equal. cbn [length seq map]. f_equal.
        rewrite <- (seq_shift (length rest) 1), map_map. apply map_ext. intros k.
        unfold scannedAnswer. rewrite Ht, Hty, Hs, Hc. do 3 f_equal. lia.
      * split; [congruence|]. split; [congruence|]. split; [congruence|].
        split; [rewrite Gc, Hc; cbn [length]; lia|].
        rewrite Ge, Hs. reflexivity.
Qed.

End ScanSeries.

(** A record with a scan limit, no expiry date and no password serves
    exactly the scans that are left: each of them succeeds and reports the
    running count, the last one raises the flag, and every scan after
    that is answered "expired" and changes nothing. *)
Theorem scan_limit_serves_exactly_the_rest (reqs : list (Z * string * Request))
  (id : string) (d : gmap string QRCode) (q : QRCode) :
  d !! id = Some q ->
  isExpired q = false -> expiresAt (security q) = None ->
  isPasswordProtected (security q) = false ->
  0 <= scanCount (analytics q) < maxScans (security q) ->
  Z.of_nat (length reqs) = maxScans (security q) - scanCount (analytics q) ->
  exists w',
    trackAll id reqs (quiet d)
    = (map (scannedAnswer q (scanCount (analytics q))) (seq 1 (length reqs)), w')
    /\ (exists f, docs w' !! id = Some f
                  /\ scanCount (analytics f) = maxScans (security q)
                  /\ isExpired f = true)
    /\ forall now trackingId req,
         trackScan now id trackingId req w'
         = (Returns (Json 200 (ExpiredBody "This QR code has expired")), w').
Proof.
  intros Hq Hf Hd Hopen Hlt Hlen.
  destruct (trackAll_below_limit reqs id d q Hq Hf Hd Hopen) as
    (f & Hrun & _ & _ & Hs & Hc & He).
  - right. lia.
  - intros ->. simpl in Hlen. lia.
  - exists (quiet (<[id := f]> d)). split; [exact Hrun|].
    assert (Hflag : isExpired f = true).
    { rewrite He, Hc, Hlen. apply andb_true_iff. split.
      - apply Z.gtb_lt. lia.
      - rewrite Z.geb_leb. apply Z.leb_le. lia. }
    split.
    + exists f. split; [apply lookup_insert_eq|]. split; [lia|exact Hflag].
    + intros now tid req.
      apply (trackScan_expired_first now id tid req _ f (lookup_insert_eq _ _ _)).
      apply flag_expired, Hflag.
Qed.

(** A record without limit, expiry date and password is never used up:
    any series of scans succeeds, and the count grows by one each time. *)
Theorem unlimited_record_serves_every_scan (reqs : list (Z * string * Request))
  (id : string) (d : gmap string QRCode) (q : QRCode) :
  d !! id = Some q ->
  isExpired q = false -> expiresAt (security q) = None ->
  isPasswordProtected (security q) = false ->
  maxScans (security q) = 0 ->
  reqs <> [] ->
  exists f,
    trackAll id reqs (quiet d)
    = (map (scannedAnswer q (scanCount (analytics q))) (seq 1 (length reqs)),
       quiet (<[id := f]> d))
    /\ scanCount (analytics f) = scanCount (analytics q) + Z.of_nat (length reqs)
    /\ isExpired f = false.
Proof.
  intros Hq Hf Hd Hopen Hmax Hne.
  destruct (trackAll_below_limit reqs id d q Hq Hf Hd Hopen (or_introl Hmax) Hne)
    as (f & Hrun & _ & _ & _ & Hc & He).
  exists f. split; [exact Hrun|]. split; [exact Hc|].
  rewrite He, Hmax. reflexivity.
Qed.

(** ** What scan recording keeps, whatever the store does *)

Section ScanInvariants.

Implicit Types (d : gmap string QRCode) (id : string) (q : QRCode) (w : World).

(** An invariant of the collection that the three writes of [recordScan]
    keep is kept by [recordScan], under every schedule of store failures. *)
Lemma recordScan_preserves (I : gmap string QRCode -> Prop) (now : Z) id
  (scanData : ScanData.t) :
  (forall d q, I d -> d !! id = Some q -> isQrCodeExpired now (Some q) = true ->
               I (<[_id q := preSave (with_isExpired true q)]> d)) ->
  (forall d q, I d -> d !! id = Some q -> isQrCodeExpired now (Some q) = false ->
               I (snd (updateFirst (byId id)
                         (scanUpdate now q (locationInfoOf scanData)) d))) ->
  (forall d, I d ->
             I (deviceStep id (deviceTypeOf (default "" (ScanData.userAgent scanData))) d)) ->
  forall w, I (docs w) -> I (docs (snd (recordScan now id scanData w))).
Proof.
  intros Hsave Hupd Hdev w Hw.
  change (wp (recordScan now id scanData) (fun _ w' => I (docs w')) w).
  unfold recordScan, findById, findByIdAndUpdate, findOneAndUpdate, findOne,
    updateOne, save.
  do 3 wp_next; [wp_next; exact Hw|].
  rewrite select_byId.
  destruct (docs w !! id) as [q|] eqn:Hq; simpl; [|wp_next; exact Hw].
  destruct (isQrCodeExpired now (Some q)) eqn:Hexp.
  - do 2 wp_next; [wp_next; exact Hw|]. wp_next.
    apply (Hsave _ _ Hw Hq Hexp).
  - fold (locationInfoOf scanData).
    pose proof (Hupd _ _ Hw Hq Hexp) as H1.
    do 2 wp_next; [wp_next; exact Hw|].
    do 2 wp_next; [wp_next; exact H1|]. wp_next.
    pose proof (Hdev _ H1) as H2. unfold deviceStep in H2.
    match goal with
    | |- wp ?m _ (mkWorld ?d1 ?fs) =>
        assert (H3 : wp m (fun _ w' => I (docs w')) (mkWorld d1 fs))
    end.
    { destruct (head _); wp_next; first [exact H1|exact H2]. }
    revert H3. apply wp_mono. intros [[]|e] w' Hw'.
    + do 2 wp_next; [wp_next; exact Hw'|].
      destruct (head (map snd (select (byId id) (docs w')))); wp_next; exact Hw'.
    + wp_next. exact Hw'.
Qed.

End ScanInvariants.

Section DeviceStep.

Implicit Types (d : gmap string QRCode) (id t : string) (q : QRCode).

Lemma updateFirst_byId_snd d id ops :
  snd (updateFirst (byId id) ops d)
  = match d !! id with
    | Some q => <[id := applyUpdate (byId id) ops q]> d
    | None => d
    end.
Proof. unfold updateFirst, select. simpl. destruct (d !! id); reflexivity. Qed.

(** Step 5 as a whole: the record under [id], when there is one, gets its
    device counter moved; nothing else changes. *)
Lemma deviceStep_lookup id t d :
  deviceStep id t d
  = match d !! id with
    | Some q => <[id := withDevices (spec_countDevice t (devices (analytics q))) q]> d
    | None => d
    end.
Proof.
  unfold deviceStep, updateFirst, select. simpl.
  destruct (d !! id) as [q|] eqn:E; [|reflexivity].
  unfold matchesFields. simpl. unfold spec_countDevice.
  change (existsb (fun dv => String.eqb (type dv) t) (devices (analytics q)))
    with (hasDeviceType t q).
  destruct (hasDeviceType t q) eqn:Hd; simpl; rewrite ?E; simpl; rewrite ?Hd;
    reflexivity.
Qed.

Lemma incFirstDevice_labels t (n : Z) (ds : list Device) :
  map type (incFirstDevice t n ds) = map type ds.
Proof.
  induction ds as [|dv ds IH]; [reflexivity|]. simpl.
  destruct (String.eqb (type dv) t); [reflexivity|]. simpl. now rewrite IH.
Qed.

Lemma existsb_label_false t (ds : list Device) :
  existsb (fun dv => String.eqb (type dv) t) ds = false -> ~ In t (map type ds).
Proof.
  induction ds as [|dv ds IH]; simpl; [tauto|].
  intros H. apply orb_false_iff in H as [H1 H2].
  apply String.eqb_neq in H1. intros [E|E]; [congruence|]. now apply IH.
Qed.

Lemma spec_countDevice_labelsUnique t (ds : list Device) :
  NoDup (map type ds) -> NoDup (map type (spec_countDevice t ds)).
Proof.
  intros H. unfold spec_countDevice.
  destruct (existsb _ ds) eqn:E.
  - now rewrite incFirstDevice_labels.
  - rewrite map_app. simpl. apply NoDup_app.
    split; [exact H|]. split; [|apply NoDup_singleton].
    intros x Hx Hx'. apply list_elem_of_singleton in Hx'. subst x.
    apply list_elem_of_In in Hx. now apply (existsb_label_false t ds E).
Qed.

End DeviceStep.

Section Growth.

Implicit Types (d : gmap string QRCode) (id : string) (q : QRCode) (w : World).

Lemma grewFrom_refl q : grewFrom q q.
Proof.
  unfold grewFrom. repeat split; try reflexivity; try lia.
  exists []. split; [now rewrite app_nil_r|simpl; lia].
Qed.

Lemma grewFrom_trans q1 q2 q3 : grewFrom q1 q2 -> grewFrom q2 q3 -> grewFrom q1 q3.
Proof.
  intros (A1 & A2 & A3 & A4 & A5 & n1 & A6 & A7) (B1 & B2 & B3 & B4 & B5 & n2 & B6 & B7).
  unfold grewFrom. repeat split; try congruence; try lia.
  exists (n1 ++ n2)%list. split.
  - rewrite B6, A6. now rewrite app_assoc.
  - rewrite length_app, Nat2Z.inj_add. lia.
Qed.

Lemma grewFrom_same_history q q' :
  _id q' = _id q -> userId q' = userId q -> text q' = text q ->
  qrType q' = qrType q ->
  scanCount (analytics q') = scanCount (analytics q) ->
  scanLocations (analytics q') = scanLocations (analytics q) ->
  grewFrom q q'.
Proof.
  intros H1 H2 H3 H4 H5 H6. unfold grewFrom.
  repeat split; try assumption; try lia.
  exists []. split; [now rewrite app_nil_r|simpl; lia].
Qed.

Lemma grew_insert d0 d id q q' :
  keyed d /\ collectionGrew d0 d -> d !! id = Some q -> grewFrom q q' ->
  keyed (<[id := q']> d) /\ collectionGrew d0 (<[id := q']> d).
Proof.
  intros [Hk Hg] Hq Hqq'. split.
  - intros k x. rewrite lookup_insert. destruct (decide (id = k)) as [<-|Hne].
    + intros E. injection E as <-. destruct Hqq' as (E & _). rewrite E.
      apply (Hk id q Hq).
    + apply Hk.
  - intros k x Hx. destruct (Hg k x Hx) as (x' & Hx' & Hgx).
    rewrite lookup_insert. destruct (decide (id = k)) as [<-|Hne].
    + exists q'. split; [reflexivity|].
      rewrite Hq in Hx'. injection Hx' as <-.
      eapply grewFrom_trans; eassumption.
    + exists x'. split; assumption.
Qed.

(** One scan request keeps the keys and only lets records grow. *)
Lemma recordScan_grows (d0 : gmap string QRCode) (now : Z) id
  (scanData : ScanData.t) w :
  keyed (docs w) /\ collectionGrew d0 (docs w) ->
  keyed (docs (snd (recordScan now id scanData w)))
  /\ collectionGrew d0 (docs (snd (recordScan now id scanData w))).
Proof.
  apply (recordScan_preserves (fun d => keyed d /\ collectionGrew d0 d)).
  - intros d q HI Hq _. rewrite (proj1 HI id q Hq).
    apply (grew_insert d0 d id q _ HI Hq).
    apply grewFrom_same_history; reflexivity.
  - intros d q HI Hq _. rewrite updateFirst_byId_snd, Hq.
    apply (grew_insert d0 d id q _ HI Hq).
    unfold grewFrom. repeat split; try reflexivity.
    + simpl. lia.
    + eexists [_]. split; [reflexivity|]. simpl. lia.
  - intros d HI. rewrite deviceStep_lookup.
    destruct (d !! id) as [q|] eqn:Hq; [|exact HI].
    apply (grew_insert d0 d id q _ HI Hq).
    apply grewFrom_same_history; reflexivity.
Qed.

Lemma recordScan_labelsUnique (now : Z) id (scanData : ScanData.t) w :
  labelsUniqueIn (docs w) ->
  labelsUniqueIn (docs (snd (recordScan now id scanData w))).
Proof.
  assert (Hins : forall d k q', labelsUniqueIn d -> labelsUnique q' ->
                                labelsUniqueIn (<[k := q']> d)).
  { intros d k q' Hd Hq' j x. rewrite lookup_insert.
    destruct (decide (k = j)); [|apply Hd]. intros E. injection E as <-. exact Hq'. }
  apply (recordScan_preserves labelsUniqueIn).
  - intros d q HI Hq _. apply Hins; [exact HI|]. exact (HI id q Hq).
  - intros d q HI Hq _. rewrite updateFirst_byId_snd, Hq.
    apply Hins; [exact HI|]. exact (HI id q Hq).
  - intros d HI. rewrite deviceStep_lookup.
    destruct (d !! id) as [q|] eqn:Hq; [|exact HI].
    apply Hins; [exact HI|]. unfold labelsUnique. simpl.
    apply spec_countDevice_labelsUnique. exact (HI id q Hq).
Qed.

End Growth.

(** Whatever scan requests are served and whichever store calls fail, no
    record is lost or re-keyed, identity and content stay, the scan count
    never goes down, and the location history only grows at its end, by
    exactly as many entries as the count grew. *)
Theorem scans_only_grow_records (scans : list (Z * string * ScanData.t))
  (w : World) :
  keyed (docs w) ->
  keyed (docs (runScans scans w))
  /\ collectionGrew (docs w) (docs (runScans scans w)).
Proof.
  intros Hk.
  assert (H0 : keyed (docs w) /\ collectionGrew (docs w) (docs w)).
  { split; [exact Hk|]. intros k q Hq. exists q. split; [exact Hq|apply grewFrom_refl]. }
  clear Hk. revert H0. generalize (docs w) at 2 4 as d0. intros d0.
  revert w. unfold runScans.
  induction scans as [|[[now id] sd] scans IH]; intros w H0; [exact H0|].
  simpl. apply IH. apply recordScan_grows. exact H0.
Qed.

(** Device labels stay unique per record through any series of scan
    requests, whichever store calls fail: a label is appended only after
    the check that the record has no entry for it. *)
Theorem scans_keep_device_labels_unique (scans : list (Z * string * ScanData.t))
  (w : World) :
  labelsUniqueIn (docs w) -> labelsUniqueIn (docs (runScans scans w)).
Proof.
  revert w. unfold runScans.
  induction scans as [|[[now id] sd] scans IH]; intros w H0; [exact H0|].
  simpl. apply IH. apply recordScan_labelsUnique. exact H0.
Qed.

(** ** A store failure in the middle of a scan *)

Section PartialScan.

Implicit Types (d : gmap string QRCode) (id : string) (q : QRCode).

Lemma storeCall_ok {A} (f : gmap string QRCode -> A * gmap string QRCode) d
  (fs : list bool) :
  storeCall f (mkWorld d (false :: fs)) = (Returns (fst (f d)), mkWorld (snd (f d)) fs).
Proof. unfold storeCall. simpl. destruct (f d); reflexivity. Qed.

Lemma storeCall_fails {A} (f : gmap string QRCode -> A * gmap string QRCode) d
  (fs : list bool) :
  storeCall f (mkWorld d (true :: fs)) = (Throws StoreError, mkWorld d fs).
Proof. reflexivity. Qed.

Lemma findById_ok d id (fs : list bool) :
  findById id (mkWorld d (false :: fs)) = (Returns (d !! id), mkWorld d fs).
Proof.
  unfold findById, findOne. rewrite storeCall_ok. simpl.
  rewrite select_byId. destruct (d !! id); reflexivity.
Qed.

(** The counter update succeeds, the device check fails. *)
Lemma recordScan_fails_after_update (now : Z) id (scanData : ScanData.t) d q
  (fs : list bool) :
  d !! id = Some q -> isQrCodeExpired now (Some q) = false ->
  recordScan now id scanData (mkWorld d (false :: false :: true :: fs))
  = (Returns None,
     mkWorld (<[id := applyUpdate (byId id)
                        (scanUpdate now q (locationInfoOf scanData)) q]> d) fs).
Proof.
  intros Hq Hexp. unfold recordScan, tryCatch.
  rewrite (bind_returns _ _ _ _ _ (findById_ok d id _)).
  rewrite Hq, Hexp. fold (locationInfoOf scanData).
  unfold findByIdAndUpdate, findOneAndUpdate.
  erewrite bind_returns by apply storeCall_ok.
  rewrite (updateFirst_byId d id _ q Hq). cbn [fst snd].
  unfold bind at 1. unfold findOne. rewrite storeCall_fails. reflexivity.
Qed.

End PartialScan.

(** ** C2: one update carries the four writes *)

Section SingleUpdate.

Implicit Types (d : gmap string QRCode) (id : string) (q : QRCode).



End SingleUpdate.



(** ** C3: the flag between the read and the update of [recordScan] *)

(** [recordScan] is its first read followed by the rest of the function. *)
Lemma recordScan_read_then_rest (now : Z) (qrCodeId : string)
  (scanData : ScanData.t) (w : World) :
  recordScan now qrCodeId scanData w
  = match findById qrCodeId w with
    | (Returns qrCode, w1) => recordScanAfterRead now qrCodeId scanData qrCode w1
    | (Throws _, w1) => (Returns None, w1)
    end.
Proof.
  unfold recordScan, recordScanAfterRead, tryCatch, bind.
  destruct (findById qrCodeId w) as [[r|e] w1]; reflexivity.
Qed.

(** The rest of [recordScan], run with a usable record [q] read earlier
    whose own count stays below its limit, writes [isExpired = false] over
    whatever the record under the identifier holds by then. *)
Lemma recordScanAfterRead_writes_stale_flag (now : Z) (id : string)
  (scanData : ScanData.t) (q stored : QRCode) (d : gmap string QRCode) :
  isQrCodeExpired now (Some q) = false ->
  (maxScans (security q) >? 0)
  && (scanCount (analytics q) + 1 >=? maxScans (security q)) = false ->
  d !! id = Some stored ->
  exists f,
    recordScanAfterRead now id scanData (Some q) (quiet d)
    = (Returns (Some f), quiet (<[id := f]> d))
    /\ isExpired f = false
    /\ scanCount (analytics f) = scanCount (analytics stored) + 1.
Proof.
  intros Hexp Hlim Hs.
  unfold recordScanAfterRead, tryCatch. rewrite Hexp.
  fold (locationInfoOf scanData).
  unfold findByIdAndUpdate, findOneAndUpdate, findById, findOne, updateOne.
  set (q1 := applyUpdate (byId id) (scanUpdate now q (locationInfoOf scanData)) stored).
  assert (H1 : isExpired q1 = false /\ scanCount (analytics q1)
                                        = scanCount (analytics stored) + 1).
  { unfold q1, scanUpdate, applyUpdate. simpl. rewrite Hlim. auto. }
  erewrite bind_returns by apply storeCall_quiet.
  rewrite (updateFirst_byId d id _ stored Hs). cbn [fst snd]. fold q1.
  erewrite bind_returns by apply storeCall_quiet. cbn [fst snd].
  set (t := deviceTypeOf (default "" (ScanData.userAgent scanData))).
  assert (Hd : deviceStep id t (<[id := q1]> d)
               = <[id := withDevices (spec_countDevice t (devices (analytics q1))) q1]> d).
  { rewrite deviceStep_lookup, lookup_insert_eq. apply insert_insert_eq. }
  unfold deviceStep in Hd.
  destruct (head (map snd (select (byIdAndDeviceType id t) (<[id:=q1]> d))));
    (erewrite bind_returns by apply storeCall_quiet); cbn [fst snd]; rewrite Hd;
    (erewrite bind_returns by apply storeCall_quiet); cbn [fst snd];
    rewrite select_byId, lookup_insert_eq; simpl;
    (eexists; split; [reflexivity|exact H1]).
Qed.

(** C3.  The flag does not stay up when requests overlap.  Three scan
    requests reach a record good for two scans: the first reads the
    record and waits; the other two are served to their end, and the
    second of them raises the flag; then the first goes on with the
    record it read, and its update writes the boolean computed from that
    record, false, over the raised flag.  The record ends with three
    scans counted against a limit of two and the flag down; the
    evaluator still answers true on it, through the count. *)
Theorem recordScan_lowers_raised_flag :
  let read := findById "q6" (quiet Cases.raceStore) in
  let w1 := snd (recordScan 2000 "q6" Sample.scanData (snd read)) in
  let w2 := snd (recordScan 3000 "q6" Sample.scanData w1) in
  let w3 := snd (recordScanAfterRead 1000 "q6" Sample.scanData (Some Cases.twice) w2) in
  read = (Returns (Some Cases.twice), quiet Cases.raceStore)
  /\ (exists q, docs w2 !! "q6" = Some q
                /\ isExpired q = true /\ scanCount (analytics q) = 2)
  /\ (exists q, docs w3 !! "q6" = Some q
                /\ isExpired q = false /\ scanCount (analytics q) = 3
                /\ maxScans (security q) = 2
                /\ forall now, isQrCodeExpired now (Some q) = true).
Proof.
  cbv zeta. split; [reflexivity|]. split.
  - eexists. split; [vm_compute; reflexivity|]. split; reflexivity.
  - eexists. split; [vm_compute; reflexivity|]. repeat split.
Qed.

(** When the store fails right after the counter update, the JSON
    tracking route tells the scanner that the code "has expired or reached
    maximum scans", although the record was usable; the scan stays
    counted, with its location, and no device entry is written for it. *)
Theorem failed_scan_is_reported_expired_but_counted (now : Z) (id trackingId : string)
  (req : Request) (d : gmap string QRCode) (q : QRCode) (fs : list bool) :
  d !! id = Some q -> isQrCodeExpired now (Some q) = false ->
  exists q1,
    trackScan now id trackingId req
      (mkWorld d (false :: false :: false :: true :: fs))
    = (Returns (Json 200
                  (ExpiredBody "This QR code has expired or reached maximum scans")),
       mkWorld (<[id := q1]> d) fs)
    /\ scanCount (analytics q1) = scanCount (analytics q) + 1
    /\ length (scanLocations (analytics q1))
       = S (length (scanLocations (analytics q)))
    /\ devices (analytics q1) = devices (analytics q).
Proof.
  intros Hq Hexp. eexists. split.
  - unfold trackScan, tryCatch.
    rewrite (bind_returns _ _ _ _ _ (findById_ok d id _)).
    rewrite Hq, Hexp.
    erewrite bind_returns by (apply recordScan_fails_after_update; eassumption).
    reflexivity.
  - split; [reflexivity|]. split; [|reflexivity].
    simpl. rewrite length_app. simpl. lia.
Qed.

(** ** The verification route writes only on success *)

(** Whatever is submitted and whichever store calls fail, a verification
    request that is not answered with success leaves every record as it
    was: not found, not protected, expired, limit reached, missing or
    wrong password and internal errors record no scan. *)
Theorem verifyPassword_writes_only_on_success (now : Z) (id : string)
  (submitted : Submitted) (req : Request) (w : World) :
  isVerifiedAnswer (fst (verifyPassword now id submitted req w)) = false ->
  docs (snd (verifyPassword now id submitted req w)) = docs w.
Proof.
  change (wp (verifyPassword now id submitted req)
            (fun o w' => isVerifiedAnswer o = false -> docs w' = docs w) w).
  unfold verifyPassword, findById, findOne.
  do 3 wp_next; [wp_next; reflexivity|].
  destruct (head _) as [q|]; [|wp_next; reflexivity].
  destruct (negb _); [wp_next; reflexivity|].
  destruct (match expiresAt (security q) with Some _ => _ | None => _ end);
    [wp_next; reflexivity|].
  destruct (_ && _); [wp_next; reflexivity|].
  destruct (submittedFalsy submitted); [wp_next; reflexivity|].
  destruct (password (security q)) as [stored|], submitted as [|s|t];
    try (wp_next; reflexivity).
  destruct (negb _); [wp_next; reflexivity|].
  wp_next. unfold wp.
  match goal with
  | |- context [recordScan ?n ?i ?sd ?w0] =>
      destruct (recordScan_returns n i sd w0) as (r & Hr & _);
      destruct (recordScan n i sd w0) as [o w1]
  end.
  simpl in Hr. subst o. simpl. discriminate.
Qed.

Lemma verifyPassword_no_stored_password (now : Z) (id : string) (s : string)
  (req : Request) (d : gmap string QRCode) (q : QRCode) :
  d !! id = Some q ->
  isPasswordProtected (security q) = true ->
  isQrCodeExpired now (Some q) = false ->
  password (security q) = None ->
  truthy s = true ->
  verifyPassword now id (PasswordString s) req (quiet d)
  = (Returns (Json 500 (ErrorBody "Internal server error")), quiet d).
Proof.
  intros Hq Hprot Hexp Hpw Hs.
  destruct (usable_checks now q Hexp) as [Hdate Hlim].
  unfold verifyPassword, tryCatch.
  rewrite (bind_returns _ _ _ _ _ (findById_quiet d id)).
  rewrite Hq, Hprot, Hdate, Hlim, Hpw. cbn [negb submittedFalsy]. rewrite Hs.
  reflexivity.
Qed.

(** A protected record stored without a password cannot be unlocked: any
    non-empty string submitted for it is answered with 500, and nothing is
    recorded. *)
Theorem verifyPassword_without_stored_password (now : Z) (id : string) (s : string)
  (req : Request) (d : gmap string QRCode) (q : QRCode) :
  d !! id = Some q ->
  isPasswordProtected (security q) = true ->
  isQrCodeExpired now (Some q) = false ->
  password (security q) = None ->
  truthy s = true ->
  verifyPassword now id (PasswordString s) req (quiet d)
  = (Returns (Json 500 (ErrorBody "Internal server error")), quiet d).
Proof. apply verifyPassword_no_stored_password. Qed.

(** ** Ownership: editing and deleting *)

Section Ownership.

Implicit Types (d : gmap string QRCode) (id u : string) (q : QRCode) (w : World).

Lemma select_byIdAndUserId id u d :
  select (byIdAndUserId id u) d
  = match d !! id with
    | Some q => if String.eqb (userId q) u then [(id, q)] else []
    | None => []
    end.
Proof.
  unfold select, matchesFields. simpl. destruct (d !! id) as [q|]; [|reflexivity].
  rewrite andb_true_r. reflexivity.
Qed.

(** A query by identifier and owner selects nothing when the record under
    the identifier has another owner or does not exist. *)
Lemma select_not_owner id u d :
  (forall q, d !! id = Some q -> userId q <> u) ->
  select (byIdAndUserId id u) d = [].
Proof.
  intros H. rewrite select_byIdAndUserId.
  destruct (d !! id) as [q|] eqn:E; [|reflexivity].
  destruct (String.eqb_spec (userId q) u) as [Hu|_]; [|reflexivity].
  now destruct (H q eq_refl).
Qed.

End Ownership.

(** The update route touches no record but the one under [id], and not
    even that one unless the caller owns it, whatever the body holds and
    whichever store calls fail. *)
Theorem updateQRCode_only_own_record (id u : string) (updateData : list UpdateOp)
  (w : World) :
  let w' := snd (updateQRCode id u updateData w) in
  (forall k, k <> id -> docs w' !! k = docs w !! k)
  /\ ((forall q, docs w !! id = Some q -> userId q <> u) -> docs w' = docs w).
Proof.
  cbn zeta.
  change (wp (updateQRCode id u updateData)
            (fun _ w' =>
               (forall k, k <> id -> docs w' !! k = docs w !! k)
               /\ ((forall q, docs w !! id = Some q -> userId q <> u) ->
                   docs w' = docs w)) w).
  unfold updateQRCode, findOneAndUpdate.
  do 3 wp_next; [wp_next; split; reflexivity|].
  assert (H : (forall k, k <> id ->
                 snd (updateFirst (byIdAndUserId id u) (deleteUserId updateData)
                        (docs w)) !! k = docs w !! k)
              /\ ((forall q, docs w !! id = Some q -> userId q <> u) ->
                  snd (updateFirst (byIdAndUserId id u) (deleteUserId updateData)
                         (docs w)) = docs w)).
  { split.
    - intros k Hk.
      apply (updateFirst_other (byIdAndUserId id u) _ _ id k eq_refl Hk).
    - intros Hno. unfold updateFirst. rewrite (select_not_owner id u _ Hno).
      reflexivity. }
  destruct (fst _); wp_next; exact H.
Qed.

Lemma deleteQRCode_owner (id u : string) (d : gmap string QRCode) (q : QRCode) :
  d !! id = Some q -> userId q = u ->
  deleteQRCode id u (quiet d)
  = (Returns (AnswerMessage 200 "QR code deleted successfully"), quiet (delete id d)).
Proof.
  intros Hq Hu. unfold deleteQRCode, tryCatch, bind, findOneAndDelete.
  rewrite storeCall_quiet, select_byIdAndUserId, Hq.
  apply String.eqb_eq in Hu. rewrite Hu. reflexivity.
Qed.

Lemma deleteQRCode_not_owner (id u : string) (d : gmap string QRCode) :
  (forall q, d !! id = Some q -> userId q <> u) ->
  deleteQRCode id u (quiet d)
  = (Returns (AnswerError 404 "QR code not found or unauthorized"), quiet d).
Proof.
  intros Hno. unfold deleteQRCode, tryCatch, bind, findOneAndDelete.
  rewrite storeCall_quiet, (select_not_owner id u d Hno). reflexivity.
Qed.

(** The delete route removes the record under [id] when the caller owns
    it and answers 200; otherwise it answers 404 and removes nothing.  No
    other record is touched. *)
Theorem deleteQRCode_only_own_record (id u : string) (d : gmap string QRCode) :
  (forall q, d !! id = Some q -> userId q = u ->
     deleteQRCode id u (quiet d)
     = (Returns (AnswerMessage 200 "QR code deleted successfully"),
        quiet (delete id d)))
  /\ ((forall q, d !! id = Some q -> userId q <> u) ->
      deleteQRCode id u (quiet d)
      = (Returns (AnswerError 404 "QR code not found or unauthorized"), quiet d)).
Proof.
  split; [apply deleteQRCode_owner|apply deleteQRCode_not_owner].
Qed.

(** Once its owner deleted it, a code no longer resolves: the JSON
    tracking route and the verification route answer 404, the page route
    shows the not-found page, and the recorder returns null. *)
Theorem deleted_code_no_longer_resolves (id u : string) (d : gmap string QRCode)
  (q : QRCode) (now : Z) (trackingId : string) (req : Request)
  (geo : option (string * string)) (submitted : Submitted)
  (scanData : ScanData.t) :
  d !! id = Some q -> userId q = u ->
  let w' := snd (deleteQRCode id u (quiet d)) in
  trackScan now id trackingId req w'
  = (Returns (Json 404 (ErrorBody "QR code not found")), w')
  /\ verifyPassword now id submitted req w'
     = (Returns (Json 404 (ErrorBody "QR code not found")), w')
  /\ trackPage now id trackingId req geo w' = (Returns (Send 200 NotFoundPage), w')
  /\ recordScan now id scanData w' = (Returns None, w').
Proof.
  intros Hq Hu w'.
  subst w'. rewrite (deleteQRCode_owner id u d q Hq Hu). cbn [snd].
  assert (Hgone : delete id d !! id = None) by apply lookup_delete_eq.
  pose proof (findById_quiet (delete id d) id) as Hfind. rewrite Hgone in Hfind.
  repeat split.
  - unfold trackScan, tryCatch. rewrite (bind_returns _ _ _ _ _ Hfind). reflexivity.
  - unfold verifyPassword, tryCatch. rewrite (bind_returns _ _ _ _ _ Hfind). reflexivity.
  - unfold trackPage, tryCatch. rewrite (bind_returns _ _ _ _ _ Hfind). reflexivity.
  - unfold recordScan, tryCatch. rewrite (bind_returns _ _ _ _ _ Hfind). reflexivity.
Qed.

(** ** Bulk deletion *)

Section BulkDelete.

Implicit Types (d : gmap string QRCode) (u : string).

Lemma foldr_delete_lookup (hits : list (string * QRCode)) d (k : string) :
  fold_right (fun kq acc => delete (fst kq) acc) d hits !! k
  = if existsb (fun kq => String.eqb (fst kq) k) hits then None else d !! k.
Proof.
  induction hits as [|[k0 q0] hits IH]; [reflexivity|]. simpl.
  rewrite lookup_delete. destruct (decide (k0 = k)) as [->|Hne].
  - now rewrite String.eqb_refl.
  - apply String.eqb_neq in Hne. rewrite Hne. exact IH.
Qed.

Lemma foldr_delete_size (hits : list (string * QRCode)) d :
  List.NoDup (map fst hits) ->
  (forall kq, In kq hits -> d !! fst kq = Some (snd kq)) ->
  (size (fold_right (fun kq acc => delete (fst kq) acc) d hits) + length hits
   = size d)%nat.
Proof.
  induction hits as [|[k0 q0] hits IH]; intros Hnd Hin; [simpl; lia|].
  simpl in *. inversion Hnd as [|? ? Hk0 Hnd']; subst.
  specialize (IH Hnd' (fun kq H => Hin kq (or_intror H))).
  assert (Hp : fold_right (fun kq acc => delete (fst kq) acc) d hits !! k0 = Some q0).
  { rewrite foldr_delete_lookup.
    destruct (existsb _ hits) eqn:E; [|exact (Hin (k0, q0) (or_introl eq_refl))].
    exfalso. apply existsb_exists in E as ([k1 q1] & Hin1 & E1). simpl in E1.
    apply String.eqb_eq in E1. subst k1. apply Hk0.
    apply in_map_iff. exists (k0, q1). split; [reflexivity|exact Hin1]. }
  rewrite map_size_delete, Hp.
  assert (Hne : size (fold_right (fun kq acc => delete (fst kq) acc) d hits) <> 0%nat).
  { apply (map_size_ne_0_lookup_2 _ k0). eauto. }
  lia.
Qed.

Lemma NoDup_map_fst_filter (p : string * QRCode -> bool) (l : list (string * QRCode)) :
  List.NoDup (map fst l) -> List.NoDup (map fst (List.filter p l)).
Proof.
  induction l as [|x l IH]; simpl; intros H; [constructor|].
  inversion H as [|? ? Hx Hl]; subst. destruct (p x); [|now apply IH].
  simpl. constructor; [|now apply IH].
  intros Hin. apply Hx. apply in_map_iff in Hin as (y & Hy & Hin).
  apply filter_In in Hin as [Hin _]. apply in_map_iff. eauto.
Qed.

Lemma NoDup_keys d : List.NoDup (map fst (map_to_list d)).
Proof.
  apply NoDup_ListNoDup. pose proof (NoDup_fst_map_to_list d) as H.
  replace (map fst (map_to_list d)) with ((map_to_list d).*1); [exact H|].
  induction (map_to_list d) as [|x l IH]; [reflexivity|].
  change (fst x :: l.*1 = fst x :: map fst l). now f_equal.
Qed.

End BulkDelete.

(** Bulk deletion answers 400 and deletes nothing when the list is absent
    or empty.  Otherwise it removes exactly the listed records that the
    caller owns, leaves every other record as it is, and reports as
    [deletedCount] the number of records removed. *)
Theorem deleteBulk_removes_listed_own_records (ids : list string) (u : string)
  (d : gmap string QRCode) :
  (forall w, deleteBulk None u w
             = (Returns (AnswerError 400 "No QR codes specified for deletion"), w)
             /\ deleteBulk (Some []) u w
                = (Returns (AnswerError 400 "No QR codes specified for deletion"), w))
  /\ (ids <> [] ->
      exists n d',
        deleteBulk (Some ids) u (quiet d) = (Returns (AnswerDeleted n), quiet d')
        /\ (forall k,
               d' !! k
               = match d !! k with
                 | Some q => if listedAndOwned ids u (k, q) then None else Some q
                 | None => None
                 end)
        /\ Z.of_nat (size d) = Z.of_nat (size d') + n).
Proof.
  split; [intros w; split; reflexivity|].
  intros Hne. destruct ids as [|i ids]; [congruence|].
  assert (Hrun : deleteBulk (Some (i :: ids)) u (quiet d)
                 = (Returns (AnswerDeleted
                               (Z.of_nat (length (List.filter (listedAndOwned (i :: ids) u)
                                                    (map_to_list d))))),
                    quiet (fold_right (fun kq acc => delete (fst kq) acc) d
                             (List.filter (listedAndOwned (i :: ids) u)
                                (map_to_list d))))).
  { unfold deleteBulk, tryCatch, bind, deleteMany. rewrite storeCall_quiet.
    reflexivity. }
  revert Hrun. generalize (i :: ids) as l. intros l Hrun.
  set (hits := List.filter (listedAndOwned l u) (map_to_list d)) in *.
  exists (Z.of_nat (length hits)),
    (fold_right (fun kq acc => delete (fst kq) acc) d hits).
  split; [exact Hrun|split].
  - intros k. rewrite foldr_delete_lookup.
    destruct (d !! k) as [q|] eqn:Hk.
    + destruct (listedAndOwned l u (k, q)) eqn:Hm.
      * assert (E : existsb (fun kq => String.eqb (fst kq) k) hits = true).
        { apply existsb_exists. exists (k, q). split; [|apply String.eqb_refl].
          apply filter_In. split; [|exact Hm].
          apply list_elem_of_In, elem_of_map_to_list. exact Hk. }
        now rewrite E.
      * destruct (existsb _ hits) eqn:E; [|reflexivity].
        apply existsb_exists in E as ([k1 q1] & Hin & E1). simpl in E1.
        apply String.eqb_eq in E1. subst k1.
        apply filter_In in Hin as [Hin Hm1].
        apply list_elem_of_In, elem_of_map_to_list in Hin.
        rewrite Hk in Hin. injection Hin as <-. congruence.
    + destruct (existsb _ hits); reflexivity.
  - pose proof (foldr_delete_size hits d) as Hs.
    rewrite <- Hs.
    + rewrite Nat2Z.inj_add. reflexivity.
    + apply NoDup_map_fst_filter, NoDup_keys.
    + intros [k q] Hin. apply filter_In in Hin as [Hin _].
      now apply list_elem_of_In, elem_of_map_to_list in Hin.
Qed.

(** ** Reading analytics through the routes *)

Section AnalyticsRoutes.

Implicit Types (d : gmap string QRCode) (id u : string) (q : QRCode) (w : World).

Lemma ownedBy_nobody u d :
  (forall k q, d !! k = Some q -> userId q <> u) -> ownedBy u d = [].
Proof.
  intros H. destruct (ownedBy u d) as [|q l] eqn:E; [reflexivity|].
  assert (Hin : In q (ownedBy u d)) by (rewrite E; left; reflexivity).
  apply ownedBy_spec in Hin as (k & Hk & Hu). now destruct (H k q Hk).
Qed.

End AnalyticsRoutes.

(** The analytics of a single record are given to its owner only: when
    the route answers with analytics, the record under [qrCodeId] exists,
    belongs to the caller, and the answer is its analytics block.  The
    route never writes, whichever store calls fail. *)
Theorem getQRCodeAnalytics_owner_only (qrCodeId u : string) (w : World) :
  docs (snd (getQRCodeAnalytics qrCodeId u w)) = docs w
  /\ forall a, fst (getQRCodeAnalytics qrCodeId u w) = Returns (AnswerAnalytics a) ->
               exists q, docs w !! qrCodeId = Some q /\ userId q = u
                         /\ a = RecordAnalytics (analytics q).
Proof.
  change (wp (getQRCodeAnalytics qrCodeId u)
            (fun o w' =>
               docs w' = docs w
               /\ forall a, o = Returns (AnswerAnalytics a) ->
                            exists q, docs w !! qrCodeId = Some q /\ userId q = u
                                      /\ a = RecordAnalytics (analytics q)) w).
  unfold getQRCodeAnalytics, findOne.
  do 3 wp_next; [wp_next; split; [reflexivity|discriminate]|].
  rewrite select_byIdAndUserId.
  destruct (docs w !! qrCodeId) as [q|] eqn:Hq;
    [|wp_next; split; [reflexivity|discriminate]].
  destruct (String.eqb_spec (userId q) u) as [Hu|Hu]; simpl;
    [|wp_next; split; [reflexivity|discriminate]].
  wp_next. unfold getAnalytics. destruct (given (Some qrCodeId)) as [i|] eqn:Hg.
  - assert (i = qrCodeId) as ->.
    { unfold given in Hg. destruct (truthy qrCodeId); congruence. }
    unfold find. do 3 wp_next; [do 2 wp_next; split; [reflexivity|discriminate]|].
    rewrite select_byId. simpl. rewrite Hq. simpl.
    do 2 wp_next. split; [reflexivity|].
    intros a E. injection E as <-. exists q. auto.
  - simpl. do 3 wp_next. split; [reflexivity|discriminate].
Qed.

(** A user who owns no record gets an empty summary with status 200, not
    the 404 "No analytics found": that answer is left for a missing user
    identifier or a failing store. *)
Theorem getUserAnalytics_without_records (u : string) (d : gmap string QRCode) :
  truthy u = true ->
  (forall k q, d !! k = Some q -> userId q <> u) ->
  getUserAnalytics u (quiet d)
  = (Returns (AnswerAnalytics (UserSummary (mkSummary 0 0 ∅ ∅ ∅ None))), quiet d).
Proof.
  intros Hu Hno. unfold getUserAnalytics, tryCatch.
  assert (G : given (Some u) = Some u) by (unfold given; now rewrite Hu).
  rewrite (bind_returns _ _ _ _ _ (getAnalytics_user None (Some u) u d eq_refl G)).
  rewrite (ownedBy_nobody u d Hno). reflexivity.
Qed.

(** ** The totals do not depend on the order of the query *)

Section OrderIndependence.

Lemma spec_totalOf_app (key : string) (es1 es2 : list (string * Z)) :
  spec_totalOf key (es1 ++ es2)
  = addTotals (spec_totalOf key es1) (spec_totalOf key es2).
Proof.
  unfold spec_totalOf. rewrite List.filter_app.
  destruct (List.filter _ es1) as [|h1 t1]; [destruct (List.filter _ es2); reflexivity|].
  destruct (List.filter _ es2) as [|h2 t2]; simpl.
  - now rewrite app_nil_r.
  - f_equal. rewrite map_app, foldr_app. simpl.
    induction (map snd t1) as [|z l IH]; simpl; lia.
Qed.

Lemma addTotals_swap (x y z : option Z) :
  addTotals x (addTotals y z) = addTotals y (addTotals x z).
Proof. destruct x, y, z; simpl; f_equal; lia. Qed.

Lemma totals_permutation (qrCodes1 qrCodes2 : list QRCode) :
  Permutation qrCodes1 qrCodes2 ->
  spec_totalScans qrCodes1 = spec_totalScans qrCodes2
  /\ (forall label, spec_totalOf label (spec_deviceEntries qrCodes1)
                    = spec_totalOf label (spec_deviceEntries qrCodes2))
  /\ (forall c, spec_totalOf c (spec_locationEntries qrCodes1)
                = spec_totalOf c (spec_locationEntries qrCodes2)).
Proof.
  induction 1 as [|x l1 l2 _ (T & D & L)|x y l|l1 l2 l3 _ (T1 & D1 & L1) _ (T2 & D2 & L2)].
  - repeat split.
  - split; [|split].
    + rewrite !spec_totalScans_cons. lia.
    + intros k. rewrite (spec_deviceEntries_cons x l1), (spec_deviceEntries_cons x l2),
        !spec_totalOf_app. now rewrite D.
    + intros k. rewrite (spec_locationEntries_cons x l1),
        (spec_locationEntries_cons x l2), !spec_totalOf_app. now rewrite L.
  - split; [|split].
    + rewrite !spec_totalScans_cons. lia.
    + intros k.
      rewrite (spec_deviceEntries_cons y (x :: l)), (spec_deviceEntries_cons x l),
        (spec_deviceEntries_cons x (y :: l)), (spec_deviceEntries_cons y l),
        !spec_totalOf_app. apply addTotals_swap.
    + intros k.
      rewrite (spec_locationEntries_cons y (x :: l)), (spec_locationEntries_cons x l),
        (spec_locationEntries_cons x (y :: l)), (spec_locationEntries_cons y l),
        !spec_totalOf_app. apply addTotals_swap.
  - split; [congruence|]. split; intros k; [now rewrite D1|now rewrite L1].
Qed.

End OrderIndependence.

(** The order in which the store yields a user's records does not change
    the count of records, the total of scans, or, under every name that
    [Object.prototype] does not define, the totals per device label and
    the totals per country of the summary. *)
Theorem aggregate_totals_order_independent (qrCodes1 qrCodes2 : list QRCode) :
  Permutation qrCodes1 qrCodes2 ->
  totalQrCodes (aggregate qrCodes1) = totalQrCodes (aggregate qrCodes2)
  /\ totalScans (aggregate qrCodes1) = totalScans (aggregate qrCodes2)
  /\ (forall label, inheritedName label = false ->
                    scansByDevice (aggregate qrCodes1) !! label
                    = scansByDevice (aggregate qrCodes2) !! label)
  /\ (forall c, inheritedName c = false ->
                scansByLocation (aggregate qrCodes1) !! c
                = scansByLocation (aggregate qrCodes2) !! c).
Proof.
  intros Hp. destruct (totals_permutation _ _ Hp) as (T & D & L).
  unfold aggregate.
  destruct (aggregate_loop_counters qrCodes1
              (mkSummary (Z.of_nat (length qrCodes1)) 0 ∅ ∅ ∅ None) 0)
    as (A1 & A2 & _ & A4 & A5).
  destruct (aggregate_loop_counters qrCodes2
              (mkSummary (Z.of_nat (length qrCodes2)) 0 ∅ ∅ ∅ None) 0)
    as (B1 & B2 & _ & B4 & B5).
  cbn zeta in *. rewrite A1, A2, A4, A5, B1, B2, B4, B5. simpl.
  split; [now rewrite (Permutation_length Hp)|]. split; [now rewrite T|].
  split; intros k Hk;
    (rewrite !tally_lookup
       by first [exact Hk|unfold countable; rewrite lookup_empty; exact I]);
    [rewrite D|rewrite L]; reflexivity.
Qed.

(** ** The page route *)

Section PageRoute.

Implicit Types (d : gmap string QRCode) (id : string) (q : QRCode) (w : World).

Lemma recordScan_usable_location (now : Z) id (scanData : ScanData.t) d q :
  d !! id = Some q -> isQrCodeExpired now (Some q) = false ->
  exists f,
    recordScan now id scanData (quiet d) = (Returns (Some f), quiet (<[id := f]> d))
    /\ scanCount (analytics f) = scanCount (analytics q) + 1
    /\ scanLocations (analytics f)
       = (scanLocations (analytics q)
          ++ [mkLocation (spec_resolved (ScanData.country scanData))
                (spec_resolved (ScanData.city scanData)) (ValidDate now)])%list.
Proof.
  intros Hq Hexp.
  destruct (recordScan_usable_quiet now id scanData d q Hq Hexp) as [_ H2].
  cbn zeta in H2. eexists. split; [exact H2|].
  pose proof (locationInfoOf_resolved scanData) as E.
  unfold locationInfoOf in E. injection E as E1 E2.
  destruct (hasDeviceType _ _); simpl; rewrite E1, E2; split; reflexivity.
Qed.

End PageRoute.

(** Once the page route has found an open, usable record and knows the
    client address, it redirects to the destination whatever happens to
    the recording: a failing store costs the scan, not the redirect. *)
Theorem trackPage_redirects_even_if_recording_fails (now : Z) (id trackingId : string)
  (req : Request) (geo : option (string * string)) (ip : string)
  (w w1 : World) (q : QRCode) :
  findById id w = (Returns (Some q), w1) ->
  isQrCodeExpired now (Some q) = false ->
  isPasswordProtected (security q) = false ->
  req_ip req = Some ip ->
  fst (trackPage now id trackingId req geo w) = Returns (Redirect (text q)).
Proof.
  intros Hfind Hexp Hopen Hip.
  destruct (usable_checks now q Hexp) as [Hdate Hlim]. unfold newDate in Hdate.
  unfold trackPage, tryCatch.
  rewrite (bind_returns _ _ _ _ _ Hfind).
  rewrite Hdate, Hlim, Hopen, Hexp, Hip.
  unfold bind.
  match goal with
  | |- context [recordScan ?n ?i ?sd ?w0] =>
      destruct (recordScan_returns n i sd w0) as (r & Hr & _);
      destruct (recordScan n i sd w0) as [o w2]
  end.
  simpl in Hr. subst o. reflexivity.
Qed.

(** The page route records the scan of an open, usable record with the
    country and city of the address lookup, "Unknown" where the lookup
    gave nothing, and redirects to the destination. *)
Theorem trackPage_records_located_scan (now : Z) (id trackingId : string)
  (req : Request) (geo : option (string * string)) (ip : string)
  (d : gmap string QRCode) (q : QRCode) :
  d !! id = Some q ->
  isQrCodeExpired now (Some q) = false ->
  isPasswordProtected (security q) = false ->
  req_ip req = Some ip ->
  exists f,
    trackPage now id trackingId req geo (quiet d)
    = (Returns (Redirect (text q)), quiet (<[id := f]> d))
    /\ scanCount (analytics f) = scanCount (analytics q) + 1
    /\ scanLocations (analytics f)
       = (scanLocations (analytics q)
          ++ [mkLocation (spec_resolved (fst <$> geo)) (spec_resolved (snd <$> geo))
                (ValidDate now)])%list.
Proof.
  intros Hq Hexp Hopen Hip.
  destruct (usable_checks now q Hexp) as [Hdate Hlim]. unfold newDate in Hdate.
  set (loc := match geo with Some (c, t) => (c, t) | None => ("Unknown", "Unknown") end).
  set (scanData := ScanData.mk (header_userAgent req) (Some ip) (header_referer req)
                     (Some (fst loc)) (Some (snd loc))).
  destruct (recordScan_usable_location now id scanData d q Hq Hexp)
    as (f & Hrun & Hc & Hl).
  exists f. split; [|split; [exact Hc|]].
  - unfold trackPage, tryCatch at 1.
    rewrite (bind_returns _ _ _ _ _ (findById_quiet d id)).
    rewrite Hq, Hdate, Hlim, Hopen, Hexp, Hip. fold loc. fold scanData.
    unfold bind, tryCatch. rewrite Hrun. reflexivity.
  - rewrite Hl. unfold scanData, loc. simpl.
    destruct geo as [[c t]|]; reflexivity.
Qed.

(** ** The tracking URL *)

Section TrackingUrl.

Lemma append_cancel_l (b x y : string) : b +:+ x = b +:+ y -> x = y.
Proof. induction b as [|c b IH]; simpl; intros H; [exact H|]. injection H as H. auto. Qed.

Lemma cut_at_slash (a1 a2 t1 t2 : string) :
  hasChar "/" a1 = false -> hasChar "/" a2 = false ->
  a1 +:+ "/" +:+ t1 = a2 +:+ "/" +:+ t2 -> a1 = a2 /\ t1 = t2.
Proof.
  revert a2. induction a1 as [|c a1 IH]; intros [|c2 a2] H1 H2 E; simpl in *.
  - injection E as E. subst. auto.
  - injection E as Ec _. subst c2. rewrite Ascii.eqb_refl in H2. discriminate.
  - injection E as Ec _. subst c. rewrite Ascii.eqb_refl in H1. discriminate.
  - injection E as Ec E. subst c2. apply orb_false_iff in H1 as [_ H1].
    apply orb_false_iff in H2 as [_ H2].
    destruct (IH a2 H1 H2 E) as [-> ->]. auto.
Qed.

End TrackingUrl.

(** A tracking URL names one code and one token: for identifiers without
    a slash, two URLs issued under the same base address are equal only
    for the same identifier and the same token. *)
Theorem createTrackingUrl_injective (baseUrl id1 id2 token1 token2 : string) :
  hasChar "/" id1 = false -> hasChar "/" id2 = false ->
  createTrackingUrl baseUrl id1 token1 = createTrackingUrl baseUrl id2 token2 ->
  id1 = id2 /\ token1 = token2.
Proof.
  intros H1 H2 E. unfold createTrackingUrl in E.
  apply append_cancel_l in E. apply (append_cancel_l "/track/") in E.
  now apply cut_at_slash.
Qed.

(** ** The authentication middleware *)

Section Auth.

Context {Decoded : Type} (verify : string -> option Decoded).

Lemma split_space_head (x : string) :
  exists tl, split " " x = uptoSpace x :: tl.
Proof.
  induction x as [|c x [tl IH]]; simpl; [eauto|].
  destruct (Ascii.eqb c " "); [eauto|]. rewrite IH. eauto.
Qed.

Lemma startsWith_Bearer (h : string) :
  startsWith h "Bearer " = true -> exists x, h = "Bearer " +:+ x.
Proof. apply startsWith_inv. Qed.

Lemma authMiddleware_Bearer_prefix (x : string) :
  startsWith ("Bearer " +:+ x) "Bearer " = true.
Proof.
  change (startsWith ("Bearer " +:+ x) "Bearer ") with (startsWith x "").
  destruct x; reflexivity.
Qed.

Lemma authMiddleware_Bearer (x : string) :
  authMiddleware verify (Some ("Bearer " +:+ x))
  = match verify (uptoSpace x) with
    | Some decoded => Next decoded
    | None => Denied 401 "Token is not valid"
    end.
Proof.
  unfold authMiddleware.
  change (truthy ("Bearer " +:+ x)) with true.
  change (startsWith ("Bearer " +:+ x) "Bearer ") with (startsWith x "").
  replace (startsWith x "") with true by (destruct x; reflexivity).
  cbn [negb orb].
  destruct (split_space_head x) as [tl E].
  change (split " " ("Bearer " +:+ x)) with ("Bearer" :: split " " x)%list.
  - rewrite E. reflexivity.
Qed.

End Auth.

(** The middleware lets a request through only with a verified token:
    [next()] is reached exactly when the header is "Bearer " followed by a
    text whose part before the next space the verifier accepts, and
    [req.user] is what the verifier decoded from that part.  Anything
    after the next space is ignored, and a second space right after
    "Bearer " makes the token empty.  In every other case the answer is
    401: "No token, authorization denied" when the header is absent or
    does not start with "Bearer ", "Token is not valid" when the verifier
    rejects the token. *)
Theorem authMiddleware_passes_only_verified {Decoded : Type}
  (verify : string -> option Decoded) (authorization : option string)
  (user : Decoded) :
  (authMiddleware verify authorization = Next user
   <-> exists x, authorization = Some ("Bearer " +:+ x)
                 /\ verify (uptoSpace x) = Some user)
  /\ (forall status message,
         authMiddleware verify authorization = Denied status message ->
         status = 401
         /\ ((message = "No token, authorization denied"
              /\ forall x, authorization <> Some ("Bearer " +:+ x))
             \/ (message = "Token is not valid"
                 /\ exists x, authorization = Some ("Bearer " +:+ x)
                              /\ verify (uptoSpace x) = None))).
Proof.
  split; [split|].
  - intros H. destruct authorization as [h|]; [|discriminate].
    destruct (startsWith h "Bearer ") eqn:Hb.
    + destruct (startsWith_Bearer h Hb) as [x ->]. exists x. split; [reflexivity|].
      rewrite authMiddleware_Bearer in H.
      destruct (verify (uptoSpace x)); [now injection H as ->|discriminate].
    + unfold authMiddleware in H. rewrite Hb in H.
      rewrite orb_true_r in H. discriminate.
  - intros (x & -> & Hv). rewrite authMiddleware_Bearer, Hv. reflexivity.
  - intros status message H. destruct authorization as [h|].
    + destruct (startsWith h "Bearer ") eqn:Hb.
      * destruct (startsWith_Bearer h Hb) as [x ->].
        rewrite authMiddleware_Bearer in H.
        destruct (verify (uptoSpace x)) eqn:Hv; [discriminate|].
        injection H as <- <-. split; [reflexivity|]. right.
        split; [reflexivity|]. exists x. split; [reflexivity|exact Hv].
      * unfold authMiddleware in H. rewrite Hb in H.
        rewrite orb_true_r in H. injection H as <- <-.
        split; [reflexivity|]. left. split; [reflexivity|].
        intros x E. injection E as ->.
        rewrite (authMiddleware_Bearer_prefix x) in Hb. discriminate.
    + injection H as <- <-. split; [reflexivity|]. left.
      split; [reflexivity|]. intros x E. discriminate.
Qed.

(** ** Creating records *)

Section Trim.

Lemma trimEnd_idempotent (s : string) : trimEnd (trimEnd s) = trimEnd s.
Proof.
  induction s as [|c s IH]; [reflexivity|]. simpl.
  destruct (trimEnd s) as [|c' t] eqn:E.
  - destruct (isWhiteSpace c) eqn:Hc; [reflexivity|]. simpl. now rewrite Hc.
  - simpl in IH |- *. rewrite IH. reflexivity.
Qed.

Lemma trimStart_tight (s : string) : tightStart (trimStart s).
Proof.
  induction s as [|c s IH]; simpl; [exact I|].
  destruct (isWhiteSpace c) eqn:Hc; [exact IH|exact Hc].
Qed.

Lemma trimStart_of_tight (s : string) : tightStart s -> trimStart s = s.
Proof. destruct s as [|c s]; simpl; [reflexivity|]. now intros ->. Qed.

Lemma trimEnd_tight (s : string) : tightStart s -> tightStart (trimEnd s).
Proof.
  destruct s as [|c s]; simpl; [exact (fun H => H)|]. intros Hc.
  destruct (trimEnd s); [rewrite Hc|]; exact Hc.
Qed.

(** Trimming twice is trimming once. *)
Lemma trim_idempotent (s : string) : trim (trim s) = trim s.
Proof.
  unfold trim.
  rewrite (trimStart_of_tight (trimEnd (trimStart s))).
  - apply trimEnd_idempotent.
  - apply trimEnd_tight, trimStart_tight.
Qed.

End Trim.

Ltac wp_step :=
  cbv beta iota;
  lazymatch goal with
  | |- wp (tryCatch _ _) _ _ => apply wp_tryCatch
  | |- wp (bind _ _) _ _ => apply wp_bind
  | |- wp (ret _) _ _ => apply wp_ret
  | |- wp (throw _) _ _ => apply wp_throw
  | |- wp (storeCall _) _ _ => apply wp_storeCall; intros ?
  end;
  cbn [fst snd docs failures].

Section Creation.

Implicit Types (d : gmap string QRCode) (w : World) (q : QRCode).

Lemma checkedPassword_protected (security : SecurityInput) (pv : string) :
  jsTruthy (in_isPasswordProtected security) = true ->
  checkedPassword security = Some pv ->
  exists p, in_password security = JStr p /\ pv = trim p /\ pv <> "".
Proof.
  unfold checkedPassword. intros ->.
  destruct (in_password security) as [| |b|p]; try discriminate.
  destruct (negb (truthy p) || String.eqb (trim p) "") eqn:E; [discriminate|].
  intros H. injection H as <-. exists p. split; [reflexivity|]. split; [reflexivity|].
  apply orb_false_iff in E as [_ E]. now apply String.eqb_neq in E.
Qed.

Lemma checkedPassword_open (security : SecurityInput) (pv : string) :
  jsTruthy (in_isPasswordProtected security) = false ->
  checkedPassword security = Some pv -> pv = "".
Proof. unfold checkedPassword. intros ->. congruence. Qed.

(** The saved form of a new document. *)
Lemma preSave_newQRCode (id u : string) (txt : option string) (ty : string)
  (prot : bool) (pw : option string) (ex : option Date) (ms : Z) :
  let q := preSave (newQRCode id u txt ty prot pw ex ms) in
  _id q = id /\ userId q = u /\ text q = default "" txt /\ qrType q = ty
  /\ analytics q = mkAnalytics 0 None [] []
  /\ isExpired q = false
  /\ isPasswordProtected (security q) = prot
  /\ password (security q) = (if prot then pw else Some "")
  /\ 0 <= maxScans (security q)
  /\ maxScans (security q) = Z.max 0 ms
  /\ expiresAt (security q) <> Some InvalidDate
  /\ expiresAt (security q) = expiresAtSetter ex.
Proof.
  unfold preSave, newQRCode, expiresAtSetter, maxScansSetter, newDate. simpl.
  assert (Hms : (Z.max 0 ms <? 0) = false) by (apply Z.ltb_ge; lia).
  destruct prot; simpl; rewrite Hms; destruct ex as [[t|]|]; simpl;
    repeat split; try reflexivity; try lia; discriminate.
Qed.

End Creation.

(** The creation route refuses protection without a usable password: a
    password that is missing, not a string, empty or made of white space
    only is answered with 400 before anything is rendered or stored. *)
Theorem createQRCode_refuses_blank_password (render : option string -> option string)
  (baseUrl temporaryId trackingId userId : string) (input : CreateInput)
  (w : World) :
  jsTruthy (in_isPasswordProtected (in_security input)) = true ->
  (forall p, in_password (in_security input) = JStr p -> trim p = "") ->
  createQRCode render baseUrl temporaryId trackingId userId input w
  = (Returns (AnswerError 400
                "Password is required and cannot be empty when password protection is enabled."),
     w).
Proof.
  intros Hprot Hblank. unfold createQRCode, tryCatch.
  assert (E : checkedPassword (in_security input) = None).
  { unfold checkedPassword. rewrite Hprot.
    destruct (in_password (in_security input)) as [| |b|p]; try reflexivity.
    rewrite (Hblank p eq_refl). simpl. now rewrite orb_true_r. }
  rewrite E. reflexivity.
Qed.

(** For a fresh identifier: whenever the creation route answers with a
    record, the status is 201 and the record is stored under the
    identifier as answered: it
    belongs to the caller, has never been scanned and is not expired, its
    [maxScans] is not negative, its expiry date is valid or absent, and
    its password is the trimmed, non-empty password given when it is
    protected and empty when it is not.  No other record changes. *)
Theorem createQRCode_creates_well_formed_record
  (render : option string -> option string)
  (baseUrl temporaryId trackingId u : string) (input : CreateInput)
  (w : World) (status : Z) (q : QRCode) :
  docs w !! temporaryId = None ->
  fst (createQRCode render baseUrl temporaryId trackingId u input w)
  = Returns (AnswerRecord status q) ->
  let w' := snd (createQRCode render baseUrl temporaryId trackingId u input w) in
  status = 201
  /\ docs w' !! temporaryId = Some q
  /\ (forall k, k <> temporaryId -> docs w' !! k = docs w !! k)
  /\ _id q = temporaryId /\ userId q = u
  /\ analytics q = mkAnalytics 0 None [] []
  /\ isExpired q = false
  /\ 0 <= maxScans (security q)
  /\ expiresAt (security q) <> Some InvalidDate
  /\ (if isPasswordProtected (security q)
      then exists p, in_password (in_security input) = JStr p
                     /\ password (security q) = Some (trim p) /\ trim p <> ""
      else password (security q) = Some "").
Proof.
  intros _. cbn zeta.
  change (wp (createQRCode render baseUrl temporaryId trackingId u input)
            (fun o w' =>
               o = Returns (AnswerRecord status q) ->
               status = 201
               /\ docs w' !! temporaryId = Some q
               /\ (forall k, k <> temporaryId -> docs w' !! k = docs w !! k)
               /\ _id q = temporaryId /\ userId q = u
               /\ analytics q = mkAnalytics 0 None [] []
               /\ isExpired q = false
               /\ 0 <= maxScans (security q)
               /\ expiresAt (security q) <> Some InvalidDate
               /\ (if isPasswordProtected (security q)
                   then exists p, in_password (in_security input) = JStr p
                                  /\ password (security q) = Some (trim p)
                                  /\ trim p <> ""
                   else password (security q) = Some "")) w).
  unfold createQRCode. wp_step.
  destruct (checkedPassword (in_security input)) as [pv|] eqn:Hpw;
    [|wp_step; discriminate].
  destruct (render _) as [img|]; [|do 2 wp_step; discriminate].
  destruct (validates _ _ _); [|do 2 wp_step; discriminate].
  unfold save. do 2 wp_step; [wp_step; discriminate|].
  wp_step. intros E. injection E as <- <-.
  match goal with
  | |- context [preSave (newQRCode ?i ?uu ?t ?ty ?pr ?pw ?ex ?ms)] =>
      destruct (preSave_newQRCode i uu t ty pr pw ex ms)
        as (H1 & H2 & _ & _ & H5 & H6 & H7 & H8 & H9 & _ & H11 & _)
  end.
  cbn zeta in *.
  split; [reflexivity|]. split; [apply lookup_insert_eq|].
  split; [intros k Hk; apply lookup_insert_ne; simpl; congruence|].
  repeat (split; [assumption|]).
  rewrite H7, H8.
  destruct (jsTruthy (in_isPasswordProtected (in_security input))) eqn:Hprot.
  - destruct (checkedPassword_protected _ _ Hprot Hpw) as (p & Hp & -> & Hne).
    exists p. auto.
  - reflexivity.
Qed.

Section CreateThenVerify.

Implicit Types (d : gmap string QRCode) (q : QRCode).

Lemma trim_nonempty (s : string) : trim s <> "" -> truthy s = true.
Proof. destruct s; [intros H; now destruct H|reflexivity]. Qed.

(** A new record without expiry date passes the checks of the
    verification route. *)
Lemma fresh_record_checks (now : Z) q :
  expiresAt (security q) = None -> scanCount (analytics q) = 0 ->
  0 <= maxScans (security q) ->
  match expiresAt (security q) with
  | Some e => date_gt (ValidDate now) (newDate e)
  | None => false
  end = false
  /\ (maxScans (security q) >? 0)
     && (scanCount (analytics q) >=? maxScans (security q)) = false.
Proof.
  intros -> -> Hm. split; [reflexivity|].
  destruct (Z.gtb_spec (maxScans (security q)) 0) as [H|H]; [|reflexivity].
  simpl. rewrite Z.geb_leb. apply Z.leb_gt. lia.
Qed.

Lemma validates_new (id u : string) (t img ty : string) (prot : bool)
  (pw : option string) (ex : option Date) (ms : Z) :
  truthy u = true -> truthy t = true -> truthy img = true -> In ty qrTypes ->
  validates (Some t) img (newQRCode id u (Some t) ty prot pw ex ms) = true.
Proof.
  intros Hu Ht Himg Hty. unfold validates.
  change (userId (newQRCode id u (Some t) ty prot pw ex ms)) with u.
  change (qrType (newQRCode id u (Some t) ty prot pw ex ms)) with ty.
  change (maxScans (security (newQRCode id u (Some t) ty prot pw ex ms)))
    with (Z.max 0 ms).
  rewrite Hu, Ht, Himg.
  assert (E : existsb (String.eqb ty) qrTypes = true).
  { apply existsb_exists. exists ty. split; [exact Hty|apply String.eqb_refl]. }
  rewrite E. apply Z.leb_le. lia.
Qed.

End CreateThenVerify.

(** A protected code created with a password is unlocked by that
    password: after the creation route stored the record, the
    verification route accepts the password as it was typed at creation,
    and any password equal to it up to surrounding white space. *)
Theorem created_password_unlocks (render : option string -> option string)
  (baseUrl id trackingId u : string) (input : CreateInput)
  (d : gmap string QRCode) (t p img : string) :
  d !! id = None ->
  truthy u = true ->
  in_text input = Some t -> truthy t = true ->
  In (default "url" (in_qrType input)) qrTypes ->
  render (textToEncode baseUrl id trackingId
            (trackingAsked (in_enableTracking input)) (in_text input)) = Some img ->
  truthy img = true ->
  jsTruthy (in_isPasswordProtected (in_security input)) = true ->
  in_password (in_security input) = JStr p -> trim p <> "" ->
  in_expiresAt (in_security input) = None ->
  exists q,
    createQRCode render baseUrl id trackingId u input (quiet d)
    = (Returns (AnswerRecord 201 q), quiet (<[id := q]> d))
    /\ password (security q) = Some (trim p)
    /\ forall now p' req,
         trim p' = trim p ->
         fst (verifyPassword now id (PasswordString p') req (quiet (<[id := q]> d)))
         = Returns (Json 200 (VerifiedBody t (default "url" (in_qrType input)) 0
                                (numOr (maxScans (security q)) 0))).
Proof.
  intros Hfresh Hu Ht Htt Hty Hrender Himg Hprot Hp Hne Hex.
  set (ms := parsedOr0 (in_maxScans (in_security input))).
  set (new := newQRCode id u (in_text input) (default "url" (in_qrType input))
                true (Some (trim p)) None ms).
  destruct (preSave_newQRCode id u (in_text input) (default "url" (in_qrType input))
              true (Some (trim p)) None ms)
    as (H1 & H2 & H3 & H4 & H5 & H6 & H7 & H8 & H9 & H10 & _ & H12).
  cbn zeta in *. fold new in H1, H2, H3, H4, H5, H6, H7, H8, H9, H10, H12.
  exists (preSave new).
  assert (Hcheck : checkedPassword (in_security input) = Some (trim p)).
  { unfold checkedPassword. rewrite Hprot, Hp, (trim_nonempty p Hne).
    apply String.eqb_neq in Hne. rewrite Hne. reflexivity. }
  assert (Hval : validates (in_text input) img new = true).
  { unfold new. rewrite Ht. now apply validates_new. }
  split; [|split; [exact H8|]].
  - unfold createQRCode, tryCatch. rewrite Hcheck. cbv zeta.
    rewrite Hrender, Hprot, Hex. fold ms. fold new. rewrite Hval.
    unfold bind, save. rewrite storeCall_quiet. reflexivity.
  - intros now p' req Hp'.
    assert (Hq : <[id := preSave new]> d !! id = Some (preSave new))
      by apply lookup_insert_eq.
    destruct (fresh_record_checks now (preSave new)) as [Hdate Hlim].
    { rewrite H12. reflexivity. }
    { rewrite H5. reflexivity. }
    { exact H9. }
    rewrite (verifyPassword_compare now id p' (trim p) req _ (preSave new)
               Hq H7 Hdate Hlim H8).
    + rewrite trim_idempotent, <- Hp', String.eqb_refl. cbn [fst].
      rewrite H3, H4, H5, Ht. reflexivity.
    + apply trim_nonempty. rewrite Hp'. exact Hne.
Qed.

(** The bulk route does not ask for the password the single route
    insists on: an item that asks for protection without a password is
    stored, under its fresh identifier, protected with no password, and
    such a code cannot be unlocked, every non-empty password is answered
    with 500. *)
Theorem bulk_protection_without_password_locks_the_code
  (render : option string -> option string)
  (baseUrl id trackingId u : string) (enableTracking : bool) (qr : CreateInput)
  (d : gmap string QRCode) (t img : string) :
  d !! id = None ->
  truthy u = true ->
  in_text qr = Some t -> truthy t = true ->
  In (orElse (default "" (in_qrType qr)) "url") qrTypes ->
  render (textToEncode baseUrl id trackingId enableTracking (in_text qr)) = Some img ->
  truthy img = true ->
  jsTruthy (in_isPasswordProtected (in_security qr)) = true ->
  in_password (in_security qr) = JUndefined ->
  in_expiresAt (in_security qr) = None ->
  exists q,
    createBulkItem render baseUrl id trackingId u enableTracking qr (quiet d)
    = (Returns (Some q), quiet (<[id := q]> d))
    /\ isPasswordProtected (security q) = true
    /\ password (security q) = None
    /\ forall now s req,
         truthy s = true ->
         verifyPassword now id (PasswordString s) req (quiet (<[id := q]> d))
         = (Returns (Json 500 (ErrorBody "Internal server error")),
            quiet (<[id := q]> d)).
Proof.
  intros _ Hu Ht Htt Hty Hrender Himg Hprot Hp Hex.
  set (ms := parsedOr0 (in_maxScans (in_security qr))).
  set (new := newQRCode id u (in_text qr) (orElse (default "" (in_qrType qr)) "url")
                true None None ms).
  destruct (preSave_newQRCode id u (in_text qr) (orElse (default "" (in_qrType qr)) "url")
              true None None ms)
    as (H1 & H2 & H3 & H4 & H5 & H6 & H7 & H8 & H9 & H10 & _ & H12).
  cbn zeta in *. fold new in H1, H2, H3, H4, H5, H6, H7, H8, H9, H10, H12.
  exists (preSave new).
  assert (Hval : validates (in_text qr) img new = true).
  { unfold new. rewrite Ht. now apply validates_new. }
  split; [|split; [exact H7|split; [exact H8|]]].
  - unfold createBulkItem, tryCatch. cbv zeta.
    rewrite Hrender, Hprot, Hp, Hex. fold ms. fold new. rewrite Hval.
    unfold bind, save. rewrite storeCall_quiet. reflexivity.
  - intros now s req Hs.
    apply (verifyPassword_no_stored_password now id s req _ (preSave new));
      try assumption.
    + apply lookup_insert_eq.
    + destruct (fresh_record_checks now (preSave new)) as [_ Hlim];
        [rewrite H12; reflexivity|rewrite H5; reflexivity|exact H9|].
      apply undated_usable; [rewrite H12; reflexivity|exact H6|exact Hlim].
Qed.

(** ** The further properties at sample inputs *)

Lemma scan_limit_serves_exactly_the_rest_witness :
  exists w',
    trackAll "q1" [(1000, "t1", Sample.request)] (quiet Sample.store)
    = ([Returns (Json 200 (ScannedBody "https://example.org/a" "url" 3 3))], w')
    /\ trackScan 2000 "q1" "t2" Sample.request w'
       = (Returns (Json 200 (ExpiredBody "This QR code has expired")), w').
Proof.
  destruct (scan_limit_serves_exactly_the_rest [(1000, "t1", Sample.request)]
              "q1" Sample.store Sample.limited)
    as (w' & Hrun & _ & Hafter);
    [reflexivity|reflexivity|reflexivity|reflexivity|simpl; lia|reflexivity|].
  exists w'. split; [exact Hrun|apply Hafter].
Defined.

Lemma unlimited_record_serves_every_scan_witness :
  exists f,
    trackAll "q4" [(1000, "t1", Sample.request); (2000, "t2", Sample.request)]
      (quiet Sample.store)
    = ([Returns (Json 200 (ScannedBody "https://example.org/d" "url" 1 0));
        Returns (Json 200 (ScannedBody "https://example.org/d" "url" 2 0))],
       quiet (<["q4" := f]> Sample.store))
    /\ scanCount (analytics f) = 2.
Proof.
  destruct (unlimited_record_serves_every_scan
              [(1000, "t1", Sample.request); (2000, "t2", Sample.request)]
              "q4" Sample.store Sample.unscanned)
    as (f & Hrun & Hc & _);
    [reflexivity|reflexivity|reflexivity|reflexivity|reflexivity|discriminate|].
  exists f. split; [exact Hrun|exact Hc].
Defined.

Lemma scans_only_grow_records_witness :
  collectionGrew Sample.store
    (docs (runScans [(1000, "q1", Sample.scanData); (2000, "q4", Sample.scanData);
                     (3000, "q1", Sample.scanData)]
             (mkWorld Sample.store [false; false; true]))).
Proof.
  refine (proj2 (scans_only_grow_records
                   [(1000, "q1", Sample.scanData); (2000, "q4", Sample.scanData);
                    (3000, "q1", Sample.scanData)]
                   (mkWorld Sample.store [false; false; true]) _)).
  intros k q H. unfold docs, Sample.store in H.
  repeat (apply lookup_insert_Some in H as [[<- <-]|[_ H]]; [reflexivity|]).
  rewrite lookup_empty in H. discriminate.
Defined.

Lemma scans_keep_device_labels_unique_witness :
  labelsUniqueIn
    (docs (runScans [(1000, "q1", Sample.scanData); (2000, "q1", Sample.scanData);
                     (3000, "q4", Sample.scanData)]
             (mkWorld Sample.store [false; false; false; true]))).
Proof.
  apply (scans_keep_device_labels_unique
           [(1000, "q1", Sample.scanData); (2000, "q1", Sample.scanData);
            (3000, "q4", Sample.scanData)]
           (mkWorld Sample.store [false; false; false; true])).
  intros k q H. unfold docs, Sample.store in H.
  repeat (apply lookup_insert_Some in H as [[<- <-]|[_ H]]; [apply NoDup_nil_2|]).
  rewrite lookup_empty in H. discriminate.
Defined.

Lemma failed_scan_is_reported_expired_but_counted_witness :
  exists q1,
    trackScan 1000 "q1" "t1" Sample.request
      (mkWorld Sample.store [false; false; false; true])
    = (Returns (Json 200
                  (ExpiredBody "This QR code has expired or reached maximum scans")),
       mkWorld (<["q1" := q1]> Sample.store) [])
    /\ scanCount (analytics q1) = scanCount (analytics Sample.limited) + 1.
Proof.
  destruct (failed_scan_is_reported_expired_but_counted 1000 "q1" "t1"
              Sample.request Sample.store Sample.limited [] eq_refl eq_refl)
    as (q1 & Hrun & Hc & _).
  exists q1. split; [exact Hrun|exact Hc].
Defined.

Lemma verifyPassword_writes_only_on_success_witness :
  docs (snd (verifyPassword 1000 "q3" (PasswordString "ABC") Sample.request
               (quiet Sample.store)))
  = docs (quiet Sample.store).
Proof.
  apply (verifyPassword_writes_only_on_success 1000 "q3" (PasswordString "ABC")
           Sample.request (quiet Sample.store)).
  reflexivity.
Defined.

Lemma verifyPassword_without_stored_password_witness :
  verifyPassword 1000 "q5" (PasswordString "abc") Sample.request (quiet Cases.store)
  = (Returns (Json 500 (ErrorBody "Internal server error")), quiet Cases.store).
Proof.
  apply (verifyPassword_without_stored_password 1000 "q5" "abc" Sample.request
           Cases.store Cases.passwordless);
    reflexivity.
Defined.

Lemma updateQRCode_only_own_record_witness :
  docs (snd (updateQRCode "q4" "u1" [SetText "https://example.org/x"]
               (quiet Sample.store)))
  = docs (quiet Sample.store).
Proof.
  apply (proj2 (updateQRCode_only_own_record "q4" "u1"
                  [SetText "https://example.org/x"] (quiet Sample.store))).
  intros q H. change (Some Sample.unscanned = Some q) in H.
  injection H as <-. discriminate.
Defined.

Lemma deleteQRCode_only_own_record_witness :
  deleteQRCode "q4" "u2" (quiet Sample.store)
  = (Returns (AnswerMessage 200 "QR code deleted successfully"),
     quiet (delete "q4" Sample.store)).
Proof.
  apply (proj1 (deleteQRCode_only_own_record "q4" "u2" Sample.store)
           Sample.unscanned);
    reflexivity.
Defined.

Lemma deleted_code_no_longer_resolves_witness :
  let w' := snd (deleteQRCode "q4" "u2" (quiet Sample.store)) in
  trackScan 1000 "q4" "t1" Sample.request w'
  = (Returns (Json 404 (ErrorBody "QR code not found")), w').
Proof.
  apply (deleted_code_no_longer_resolves "q4" "u2" Sample.store Sample.unscanned
           1000 "t1" Sample.request None NoPassword Sample.scanData
           eq_refl eq_refl).
Defined.

Lemma deleteBulk_removes_listed_own_records_witness :
  exists n d',
    deleteBulk (Some ["q1"; "q4"]) "u1" (quiet Sample.store)
    = (Returns (AnswerDeleted n), quiet d')
    /\ Z.of_nat (size Sample.store) = Z.of_nat (size d') + n.
Proof.
  destruct (proj2 (deleteBulk_removes_listed_own_records ["q1"; "q4"] "u1"
                     Sample.store))
    as (n & d' & Hrun & _ & Hsize); [discriminate|].
  exists n, d'. split; [exact Hrun|exact Hsize].
Defined.

Lemma getQRCodeAnalytics_owner_only_witness :
  exists q, docs (quiet Sample.store) !! "q1" = Some q /\ userId q = "u1"
            /\ RecordAnalytics (analytics Sample.limited)
               = RecordAnalytics (analytics q).
Proof.
  apply (proj2 (getQRCodeAnalytics_owner_only "q1" "u1" (quiet Sample.store))).
  reflexivity.
Defined.

Lemma getUserAnalytics_without_records_witness :
  getUserAnalytics "u3" (quiet Sample.store)
  = (Returns (AnswerAnalytics (UserSummary (mkSummary 0 0 ∅ ∅ ∅ None))),
     quiet Sample.store).
Proof.
  apply (getUserAnalytics_without_records "u3" Sample.store); [reflexivity|].
  intros k q H. unfold Sample.store in H.
  repeat (apply lookup_insert_Some in H as [[<- <-]|[_ H]]; [discriminate|]).
  rewrite lookup_empty in H. discriminate.
Defined.

Lemma aggregate_totals_order_independent_witness :
  totalScans (aggregate [Sample.limited; Sample.retired])
  = totalScans (aggregate [Sample.retired; Sample.limited]).
Proof.
  apply (aggregate_totals_order_independent [Sample.limited; Sample.retired]
           [Sample.retired; Sample.limited]).
  apply perm_swap.
Defined.

Lemma trackPage_redirects_even_if_recording_fails_witness :
  fst (trackPage 1000 "q1" "t1" Cases.request (Some ("IN", "Pune"))
         (mkWorld Sample.store [false; true]))
  = Returns (Redirect (text Sample.limited)).
Proof.
  apply (trackPage_redirects_even_if_recording_fails 1000 "q1" "t1" Cases.request
           (Some ("IN", "Pune")) "203.0.113.7"
           (mkWorld Sample.store [false; true]) (mkWorld Sample.store [true])
           Sample.limited);
    reflexivity.
Defined.

Lemma trackPage_records_located_scan_witness :
  exists f,
    trackPage 1000 "q1" "t1" Cases.request (Some ("IN", "Pune")) (quiet Sample.store)
    = (Returns (Redirect (text Sample.limited)), quiet (<["q1" := f]> Sample.store))
    /\ scanLocations (analytics f) = [mkLocation "IN" "Pune" (ValidDate 1000)].
Proof.
  destruct (trackPage_records_located_scan 1000 "q1" "t1" Cases.request
              (Some ("IN", "Pune")) "203.0.113.7" Sample.store Sample.limited
              eq_refl eq_refl eq_refl eq_refl)
    as (f & Hrun & _ & Hloc).
  exists f. split; [exact Hrun|exact Hloc].
Defined.

Lemma createTrackingUrl_injective_witness :
  "q1" = "q1" /\ "t1" = "t1".
Proof.
  apply (createTrackingUrl_injective "https://example.org" "q1" "q1" "t1" "t1");
    reflexivity.
Defined.

Lemma authMiddleware_passes_only_verified_witness :
  authMiddleware Cases.verify (Some "Bearer tok and more") = Next "u1"
  /\ exists x, Some "Bearer forged" = Some ("Bearer " +:+ x)
               /\ Cases.verify (uptoSpace x) = None.
Proof.
  split.
  - apply (authMiddleware_passes_only_verified Cases.verify
             (Some "Bearer tok and more") "u1").
    exists "tok and more". split; reflexivity.
  - destruct (proj2 (authMiddleware_passes_only_verified Cases.verify
                       (Some "Bearer forged") "u1")
                401 "Token is not valid" eq_refl)
      as [_ [[E _]|[_ H]]]; [discriminate E|exact H].
Defined.

Lemma createQRCode_refuses_blank_password_witness :
  createQRCode Cases.render "https://example.org" "q9" "t9" "u1" Cases.blankInput
    (quiet Sample.store)
  = (Returns (AnswerError 400
                "Password is required and cannot be empty when password protection is enabled."),
     quiet Sample.store).
Proof.
  apply (createQRCode_refuses_blank_password Cases.render "https://example.org"
           "q9" "t9" "u1" Cases.blankInput (quiet Sample.store)); [reflexivity|].
  intros p H. injection H as <-. reflexivity.
Defined.

Lemma createQRCode_creates_well_formed_record_witness :
  docs (snd (createQRCode Cases.render "https://example.org" "q9" "t9" "u1"
               Cases.protectedInput (quiet Sample.store))) !! "q9"
  = Some Cases.created.
Proof.
  destruct (createQRCode_creates_well_formed_record Cases.render
              "https://example.org" "q9" "t9" "u1" Cases.protectedInput
              (quiet Sample.store) 201 Cases.created eq_refl eq_refl)
    as (_ & H & _).
  exact H.
Defined.

Lemma created_password_unlocks_witness :
  exists q,
    createQRCode Cases.render "https://example.org" "q9" "t9" "u1"
      Cases.protectedInput (quiet Sample.store)
    = (Returns (AnswerRecord 201 q), quiet (<["q9" := q]> Sample.store))
    /\ fst (verifyPassword 1000 "q9" (PasswordString "s3cret  ") Sample.request
              (quiet (<["q9" := q]> Sample.store)))
       = Returns (Json 200 (VerifiedBody "https://example.org/f" "url" 0
                              (numOr (maxScans (security q)) 0))).
Proof.
  destruct (created_password_unlocks Cases.render "https://example.org" "q9" "t9"
              "u1" Cases.protectedInput Sample.store "https://example.org/f"
              " s3cret " "png:https://example.org/f")
    as (q & Hrun & _ & Hv);
    [reflexivity|reflexivity|reflexivity|reflexivity|left; reflexivity
    |reflexivity|reflexivity|reflexivity|reflexivity|discriminate|reflexivity|].
  exists q. split; [exact Hrun|].
  apply (Hv 1000 "s3cret  " Sample.request). reflexivity.
Defined.

Lemma bulk_protection_without_password_locks_the_code_witness :
  exists q,
    createBulkItem Cases.render "https://example.org" "q9" "t9" "u1" false
      Cases.bareInput (quiet Sample.store)
    = (Returns (Some q), quiet (<["q9" := q]> Sample.store))
    /\ verifyPassword 1000 "q9" (PasswordString "abc") Sample.request
         (quiet (<["q9" := q]> Sample.store))
       = (Returns (Json 500 (ErrorBody "Internal server error")),
          quiet (<["q9" := q]> Sample.store)).
Proof.
  destruct (bulk_protection_without_password_locks_the_code Cases.render
              "https://example.org" "q9" "t9" "u1" false Cases.bareInput
              Sample.store "https://example.org/f" "png:https://example.org/f")
    as (q & Hrun & _ & _ & Hv);
    [reflexivity|reflexivity|reflexivity|reflexivity|left; reflexivity
    |reflexivity|reflexivity|reflexivity|reflexivity|reflexivity|].
  exists q. split; [exact Hrun|].
  apply (Hv 1000 "abc" Sample.request). reflexivity.
Defined.

(** ** The password invariant over all routes *)

Section RoutesKeepPasswords.

Implicit Types (d : gmap string QRCode) (q : QRCode) (w : World).

Lemma applyUpdate_leaves_security (qy : Query) (ops : list UpdateOp) q :
  forallb (fun op => negb (securityOp op)) ops = true ->
  security (applyUpdate qy ops q) = security q.
Proof.
  unfold applyUpdate. revert q.
  induction ops as [|op ops IH]; intros q H; [reflexivity|].
  simpl in H. apply andb_true_iff in H as [Hop Hops].
  simpl. rewrite (IH _ Hops).
  destruct op; try discriminate; try reflexivity.
  simpl. destruct (q_deviceType qy); reflexivity.
Qed.

Lemma updateFirst_leaves_passwords (qy : Query) (ops : list UpdateOp) d :
  forallb (fun op => negb (securityOp op)) ops = true ->
  passwordsConsistent d -> passwordsConsistent (snd (updateFirst qy ops d)).
Proof.
  intros Hops Hd. unfold updateFirst.
  destruct (select qy d) as [|[k0 q0] rest] eqn:E; [exact Hd|].
  assert (H0 : d !! k0 = Some q0).
  { apply (select_sound qy). rewrite E. left. reflexivity. }
  simpl. intros k q. rewrite lookup_insert.
  destruct (decide (k0 = k)) as [_|_]; [|apply Hd].
  intros H. injection H as <-. unfold passwordInvariant.
  rewrite (applyUpdate_leaves_security _ _ _ Hops). apply (Hd k0 q0 H0).
Qed.

Lemma deleteUserId_leaves_passwords (ops : list UpdateOp) :
  forallb (fun op => negb (securityOp op)) ops = true ->
  forallb (fun op => negb (securityOp op)) (deleteUserId ops) = true.
Proof.
  unfold deleteUserId. induction ops as [|op ops IH]; [reflexivity|].
  simpl. intros H. apply andb_true_iff in H as [Hop Hops].
  destruct op; simpl in *; try discriminate; apply IH; exact Hops.
Qed.

Lemma save_passwordsConsistent q d :
  passwordsConsistent d -> passwordsConsistent (<[_id q := preSave q]> d).
Proof.
  intros Hd k q'. rewrite lookup_insert.
  destruct (decide (_ = k)) as [_|_]; [|apply Hd].
  intros H. injection H as <-. apply preSave_passwordInvariant.
Qed.

Lemma delete_passwordsConsistent (k : string) d :
  passwordsConsistent d -> passwordsConsistent (delete k d).
Proof.
  intros Hd k' q H. apply lookup_delete_Some in H as [_ H]. exact (Hd _ _ H).
Qed.

Lemma foldr_delete_passwordsConsistent (hits : list (string * QRCode)) d :
  passwordsConsistent d ->
  passwordsConsistent (fold_right (fun kq acc => delete (fst kq) acc) d hits).
Proof.
  intros Hd. induction hits as [|kq hits IH]; [exact Hd|].
  simpl. apply delete_passwordsConsistent. exact IH.
Qed.

(** After [recordScan], whatever it returned. *)
Lemma wp_recordScan_passwords {B} (now : Z) (id : string) (scanData : ScanData.t)
  (k : option QRCode -> M B) (Q : Outcome B -> World -> Prop) w :
  passwordsConsistent (docs w) ->
  (forall o w', passwordsConsistent (docs w') ->
                match o with
                | Returns a => wp (k a) Q w'
                | Throws e => Q (Throws e) w'
                end) ->
  wp (bind (recordScan now id scanData) k) Q w.
Proof.
  intros Hw Hk. apply wp_bind.
  apply (wp_mono _ (fun _ w' => passwordsConsistent (docs w'))); [exact Hk|].
  exact (recordScan_passwordsConsistent now id scanData w Hw).
Qed.

Lemma trackScan_passwordsConsistent (now : Z) (id t : string) (req : Request) w :
  passwordsConsistent (docs w) ->
  passwordsConsistent (docs (snd (trackScan now id t req w))).
Proof.
  intros Hw.
  change (wp (trackScan now id t req) (fun _ w' => passwordsConsistent (docs w')) w).
  unfold trackScan, findById, findOne.
  do 3 wp_step; [wp_step; exact Hw|].
  destruct (head _) as [q|]; [|wp_step; exact Hw].
  destruct (isQrCodeExpired now (Some q)); [wp_step; exact Hw|].
  apply wp_recordScan_passwords; [exact Hw|].
  intros [[u|]|e] w' Hw'; [destruct (isPasswordProtected (security u))|..];
    wp_step; exact Hw'.
Qed.

Lemma verifyPassword_passwordsConsistent (now : Z) (id : string)
  (submitted : Submitted) (req : Request) w :
  passwordsConsistent (docs w) ->
  passwordsConsistent (docs (snd (verifyPassword now id submitted req w))).
Proof.
  intros Hw.
  change (wp (verifyPassword now id submitted req)
            (fun _ w' => passwordsConsistent (docs w')) w).
  unfold verifyPassword, findById, findOne.
  do 3 wp_step; [wp_step; exact Hw|].
  destruct (head _) as [q|]; [|wp_step; exact Hw].
  destruct (negb _); [wp_step; exact Hw|].
  destruct (match expiresAt (security q) with Some _ => _ | None => _ end);
    [wp_step; exact Hw|].
  destruct (_ && _); [wp_step; exact Hw|].
  destruct (submittedFalsy submitted); [wp_step; exact Hw|].
  destruct (password (security q)) as [stored|], submitted as [|s|b];
    try (do 2 wp_step; exact Hw).
  destruct (negb _); [wp_step; exact Hw|].
  apply wp_recordScan_passwords; [exact Hw|].
  intros [r|e] w' Hw'; wp_step; exact Hw'.
Qed.

Lemma trackPage_passwordsConsistent (now : Z) (id t : string) (req : Request)
  (geo : option (string * string)) w :
  passwordsConsistent (docs w) ->
  passwordsConsistent (docs (snd (trackPage now id t req geo w))).
Proof.
  intros Hw.
  change (wp (trackPage now id t req geo)
            (fun _ w' => passwordsConsistent (docs w')) w).
  unfold trackPage, findById, findOne.
  do 3 wp_step; [wp_step; exact Hw|].
  destruct (head _) as [q|]; [|wp_step; exact Hw].
  destruct (match expiresAt (security q) with Some _ => _ | None => _ end);
    [wp_step; exact Hw|].
  destruct (_ && _); [wp_step; exact Hw|].
  destruct (isPasswordProtected (security q)); [wp_step; exact Hw|].
  destruct (isQrCodeExpired now (Some q)); [wp_step; exact Hw|].
  destruct (req_ip req) as [ip|]; [|do 2 wp_step; exact Hw].
  do 2 wp_step.
  match goal with
  | |- wp (recordScan ?n ?i ?sd) _ ?w0 =>
      apply (wp_mono _ (fun _ w' => passwordsConsistent (docs w')));
        [|exact (recordScan_passwordsConsistent n i sd w0 Hw)]
  end.
  intros [r|e] w' Hw'; repeat wp_step; exact Hw'.
Qed.

Lemma getUserAnalytics_passwordsConsistent (u : string) w :
  passwordsConsistent (docs w) ->
  passwordsConsistent (docs (snd (getUserAnalytics u w))).
Proof.
  intros Hw.
  change (wp (getUserAnalytics u) (fun _ w' => passwordsConsistent (docs w')) w).
  unfold getUserAnalytics, getAnalytics, find. cbn [given].
  destruct (truthy u); repeat (wp_step; try exact Hw).
Qed.

Lemma getQRCodeAnalytics_passwordsConsistent (id u : string) w :
  passwordsConsistent (docs w) ->
  passwordsConsistent (docs (snd (getQRCodeAnalytics id u w))).
Proof.
  intros Hw.
  change (wp (getQRCodeAnalytics id u)
            (fun _ w' => passwordsConsistent (docs w')) w).
  unfold getQRCodeAnalytics, getAnalytics, findOne, find. cbn [given].
  do 3 wp_step; [wp_step; exact Hw|].
  destruct (head _) as [q|]; [|wp_step; exact Hw].
  destruct (truthy id); repeat (wp_step; try exact Hw);
    destruct (head _); wp_step; exact Hw.
Qed.

Lemma createQRCode_passwordsConsistent (render : option string -> option string)
  (baseUrl id t u : string) (input : CreateInput) w :
  passwordsConsistent (docs w) ->
  passwordsConsistent (docs (snd (createQRCode render baseUrl id t u input w))).
Proof.
  intros Hw.
  change (wp (createQRCode render baseUrl id t u input)
            (fun _ w' => passwordsConsistent (docs w')) w).
  unfold createQRCode, save.
  wp_step.
  destruct (checkedPassword _); [|wp_step; exact Hw].
  destruct (render _); [|do 2 wp_step; exact Hw].
  destruct (validates _ _ _); [|do 2 wp_step; exact Hw].
  do 2 wp_step; [wp_step; exact Hw|].
  wp_step. apply save_passwordsConsistent. exact Hw.
Qed.

Lemma createBulkItem_passwordsConsistent (render : option string -> option string)
  (baseUrl id t u : string) (enableTracking : bool) (qr : CreateInput) w :
  passwordsConsistent (docs w) ->
  passwordsConsistent
    (docs (snd (createBulkItem render baseUrl id t u enableTracking qr w))).
Proof.
  intros Hw.
  change (wp (createBulkItem render baseUrl id t u enableTracking qr)
            (fun _ w' => passwordsConsistent (docs w')) w).
  unfold createBulkItem, save.
  wp_step.
  destruct (render _); [|do 2 wp_step; exact Hw].
  destruct (validates _ _ _); [|do 2 wp_step; exact Hw].
  do 2 wp_step; [wp_step; exact Hw|].
  wp_step. apply save_passwordsConsistent. exact Hw.
Qed.

Lemma updateQRCode_passwordsConsistent (id u : string) (updateData : list UpdateOp) w :
  forallb (fun op => negb (securityOp op)) updateData = true ->
  passwordsConsistent (docs w) ->
  passwordsConsistent (docs (snd (updateQRCode id u updateData w))).
Proof.
  intros Hops Hw.
  change (wp (updateQRCode id u updateData)
            (fun _ w' => passwordsConsistent (docs w')) w).
  unfold updateQRCode, findOneAndUpdate.
  do 3 wp_step; [wp_step; exact Hw|].
  assert (H1 : passwordsConsistent
                 (snd (updateFirst (byIdAndUserId id u) (deleteUserId updateData)
                         (docs w))))
    by (apply updateFirst_leaves_passwords;
        [apply deleteUserId_leaves_passwords; exact Hops|exact Hw]).
  destruct (fst _); wp_step; exact H1.
Qed.

Lemma deleteQRCode_passwordsConsistent (id u : string) w :
  passwordsConsistent (docs w) ->
  passwordsConsistent (docs (snd (deleteQRCode id u w))).
Proof.
  intros Hw.
  change (wp (deleteQRCode id u) (fun _ w' => passwordsConsistent (docs w')) w).
  unfold deleteQRCode, findOneAndDelete.
  do 3 wp_step; [wp_step; exact Hw|].
  destruct (head (select _ _)) as [[k q]|]; cbn [fst snd]; wp_step;
    [apply delete_passwordsConsistent|]; exact Hw.
Qed.

Lemma deleteBulk_passwordsConsistent (ids : option (list string)) (u : string) w :
  passwordsConsistent (docs w) ->
  passwordsConsistent (docs (snd (deleteBulk ids u w))).
Proof.
  intros Hw.
  change (wp (deleteBulk ids u) (fun _ w' => passwordsConsistent (docs w')) w).
  unfold deleteBulk, deleteMany.
  wp_step.
  destruct ids as [[|i ids]|]; try (wp_step; exact Hw).
  do 2 wp_step; [wp_step; exact Hw|].
  wp_step. apply foldr_delete_passwordsConsistent. exact Hw.
Qed.

End RoutesKeepPasswords.

(** Whatever requests are served one after the other and whichever store
    calls fail, every stored record keeps an empty password unless it is
    protected, as long as no update request names one of the two password
    fields: scans, verifications, creations and deletions cannot break
    what the pre-save hook sets up. *)
Theorem requests_keep_passwords_consistent (calls : list Call) (w : World) :
  forallb leavesPasswords calls = true ->
  passwordsConsistent (docs w) ->
  passwordsConsistent (docs (serveAll calls w)).
Proof.
  unfold serveAll. revert w.
  induction calls as [|c calls IH]; intros w Hc Hw; [exact Hw|].
  simpl in Hc. apply andb_true_iff in Hc as [Hc Hcs].
  simpl. apply IH; [exact Hcs|].
  destruct c; cbn [serve].
  - apply trackScan_passwordsConsistent, Hw.
  - apply verifyPassword_passwordsConsistent, Hw.
  - apply trackPage_passwordsConsistent, Hw.
  - apply getUserAnalytics_passwordsConsistent, Hw.
  - apply getQRCodeAnalytics_passwordsConsistent, Hw.
  - apply createQRCode_passwordsConsistent, Hw.
  - apply createBulkItem_passwordsConsistent, Hw.
  - apply updateQRCode_passwordsConsistent; [exact Hc|exact Hw].
  - apply deleteQRCode_passwordsConsistent, Hw.
  - apply deleteBulk_passwordsConsistent, Hw.
Qed.

Lemma requests_keep_passwords_consistent_witness :
  passwordsConsistent
    (docs (serveAll
             [GetTrack 1000 "q3" "t1" Sample.request;
              PostQRCode Cases.render "https://example.org" "q9" "t9" "u1"
                Cases.protectedInput;
              PostVerifyPassword 2000 "q9" (PasswordString "s3cret") Sample.request;
              PutQRCode "q9" "u1" [SetText "https://example.org/g"];
              DeleteQRCode "q4" "u2"]
             (mkWorld Sample.store [false; false; true]))).
Proof.
  apply (requests_keep_passwords_consistent
           [GetTrack 1000 "q3" "t1" Sample.request;
            PostQRCode Cases.render "https://example.org" "q9" "t9" "u1"
              Cases.protectedInput;
            PostVerifyPassword 2000 "q9" (PasswordString "s3cret") Sample.request;
            PutQRCode "q9" "u1" [SetText "https://example.org/g"];
            DeleteQRCode "q4" "u2"]
           (mkWorld Sample.store [false; false; true])); [reflexivity|].
  intros k q H. unfold docs, Sample.store in H.
  repeat (apply lookup_insert_Some in H as [[<- <-]|[_ H]]; [reflexivity|]).
  rewrite lookup_empty in H. discriminate.
Defined.

(** ** The content formatters *)

Section EncodingFacts.

Lemma decodeFirst_encodeChar (c : ascii) (r : string) :
  decodeFirst (encodeChar c +:+ r) = Some (c, r).
Proof.
  destruct c as [b0 b1 b2 b3 b4 b5 b6 b7].
  destruct b0, b1, b2, b3, b4, b5, b6, b7; reflexivity.
Qed.

Lemma encodeURIComponent_inj (s1 s2 : string) :
  encodeURIComponent s1 = encodeURIComponent s2 -> s1 = s2.
Proof.
  revert s2. induction s1 as [|c1 s1 IH]; intros [|c2 s2] E; simpl in E.
  - reflexivity.
  - apply (f_equal decodeFirst) in E. rewrite decodeFirst_encodeChar in E.
    discriminate.
  - apply (f_equal decodeFirst) in E. rewrite decodeFirst_encodeChar in E.
    discriminate.
  - apply (f_equal decodeFirst) in E. rewrite !decodeFirst_encodeChar in E.
    injection E as -> E. f_equal. apply IH, E.
Qed.

Lemma hasChar_append (c : ascii) (a b : string) :
  hasChar c (a +:+ b) = hasChar c a || hasChar c b.
Proof.
  induction a as [|x a IH]; [reflexivity|].
  simpl. rewrite IH. apply orb_assoc.
Qed.

Lemma encodeChar_no_ampersand (c : ascii) : hasChar "&" (encodeChar c) = false.
Proof.
  destruct c as [b0 b1 b2 b3 b4 b5 b6 b7].
  destruct b0, b1, b2, b3, b4, b5, b6, b7; reflexivity.
Qed.

Lemma encodeURIComponent_no_ampersand (s : string) :
  hasChar "&" (encodeURIComponent s) = false.
Proof.
  induction s as [|c s IH]; [reflexivity|].
  simpl. rewrite hasChar_append, encodeChar_no_ampersand, IH. reflexivity.
Qed.

Lemma cut_at_char (c : ascii) (a1 a2 t1 t2 : string) :
  hasChar c a1 = false -> hasChar c a2 = false ->
  a1 +:+ String c t1 = a2 +:+ String c t2 -> a1 = a2 /\ t1 = t2.
Proof.
  revert a2. induction a1 as [|x a1 IH]; intros [|y a2] H1 H2 E; simpl in *.
  - injection E as E. subst. auto.
  - injection E as Ec _. subst y. rewrite Ascii.eqb_refl in H2. discriminate.
  - injection E as Ec _. subst x. rewrite Ascii.eqb_refl in H1. discriminate.
  - injection E as Ec E. subst y. apply orb_false_iff in H1 as [_ H1].
    apply orb_false_iff in H2 as [_ H2].
    destruct (IH a2 H1 H2 E) as [-> ->]. auto.
Qed.

Lemma append_assoc_r (a b c : string) : (a +:+ b) +:+ c = a +:+ (b +:+ c).
Proof.
  induction a as [|x a IH]; [reflexivity|].
  change (String x ((a +:+ b) +:+ c) = String x (a +:+ (b +:+ c))).
  f_equal. exact IH.
Qed.

Lemma length_append_sum (a b : string) :
  String.length (a +:+ b) = (String.length a + String.length b)%nat.
Proof.
  induction a as [|x a IH]; [reflexivity|].
  change (S (String.length (a +:+ b)) = S (String.length a + String.length b)).
  f_equal. exact IH.
Qed.

(** A check on every integer of a range, run on the range. *)
Lemma checked_on_range (P : Z -> bool) (lo : Z) (len : nat) :
  forallb (fun k => P (lo + Z.of_nat k)) (seq 0 len) = true ->
  forall n, lo <= n < lo + Z.of_nat len -> P n = true.
Proof.
  intros H n Hn. rewrite forallb_forall in H.
  specialize (H (Z.to_nat (n - lo))).
  replace (lo + Z.of_nat (Z.to_nat (n - lo))) with n in H by lia.
  apply H. apply in_seq. lia.
Qed.

Lemma padStart2_two_digits (n : Z) :
  0 <= n < 100 -> String.length (padStart2 (decimal n)) = 2%nat.
Proof.
  intros Hn.
  apply Nat.eqb_eq.
  apply (checked_on_range
           (fun n => Nat.eqb (String.length (padStart2 (decimal n))) 2) 0 100);
    [vm_compute; reflexivity|lia].
Qed.

Lemma decimal_four_digits (n : Z) :
  1000 <= n <= 9999 -> String.length (decimal n) = 4%nat.
Proof.
  intros Hn.
  apply Nat.eqb_eq.
  apply (checked_on_range (fun n => Nat.eqb (String.length (decimal n)) 4) 1000
           (Z.to_nat 9000));
    [vm_compute; reflexivity|lia].
Qed.

End EncodingFacts.

(** For one address, the mailto link determines the subject and the body:
    whatever characters they hold, an ampersand or an equals sign
    included, two links are equal only for the same subject and the same
    body. *)
Theorem formatEmail_subject_and_body_stay_apart (data1 data2 : gmap string FieldValue) :
  printed (field data1 "email") = printed (field data2 "email") ->
  formatEmail data1 = formatEmail data2 ->
  printed (orEmpty (field data1 "subject")) = printed (orEmpty (field data2 "subject"))
  /\ printed (orEmpty (field data1 "body")) = printed (orEmpty (field data2 "body")).
Proof.
  intros He E. unfold formatEmail in E. rewrite He in E.
  do 3 apply append_cancel_l in E.
  change ("&body=" +:+ ?x) with (String "&" ("body=" +:+ x)) in E.
  apply cut_at_char in E as [Es Eb];
    try apply encodeURIComponent_no_ampersand.
  apply append_cancel_l in Eb.
  split; apply encodeURIComponent_inj; assumption.
Qed.

(** The WiFi formatter copies its fields without escaping: a network name
    that ends in ";T:" and a text gives the same content as the shorter
    name with that text as encryption, so the content does not determine
    the network it names. *)
Theorem formatWifi_does_not_escape (data : gmap string FieldValue) (s e : string) :
  truthy e = true ->
  isTruthy (field data "encryption") = false ->
  formatWifi (<["ssid" := Text (s +:+ ";T:" +:+ e)]> data)
  = formatWifi (<["encryption" := Text e]> (<["ssid" := Text s]> data)).
Proof.
  intros He Hn. unfold formatWifi, field in *.
  repeat first [rewrite lookup_insert_eq|rewrite lookup_insert_ne by discriminate].
  cbn [from_option id]. rewrite Hn. cbn [isTruthy printed]. rewrite He.
  destruct (isTruthy (default Undefined (data !! "password")));
    destruct (default Undefined (data !! "hidden")) as [| |[]| |];
    rewrite ?append_assoc_r; reflexivity.
Qed.

(** The event formatter does not refuse a start date that cannot be
    parsed: the event then carries the line
    DTSTART:NaNNaNNaNTNaNNaNNaNZ. *)
Theorem formatEvent_prints_unparsable_start
  (newDateOf : FieldValue -> option UTCFields) (data : gmap string FieldValue) :
  isTruthy (field data "startDate") = true ->
  newDateOf (field data "startDate") = None ->
  contains (formatEvent newDateOf data) ("DTSTART:NaNNaNNaNTNaNNaNNaNZ" +:+ LF).
Proof.
  intros Ht Hd.
  assert (Hical : formatICalDate newDateOf (field data "startDate")
                  = "NaNNaNNaNTNaNNaNNaNZ")
    by (unfold formatICalDate; rewrite Hd; reflexivity).
  unfold contains, formatEvent. rewrite Ht, Hical.
  set (ev := if isTruthy (field data "description") then _ else _).
  exists ev. destruct (isTruthy (field data "endDate")).
  - exists ("DTEND:" +:+ formatICalDate newDateOf (field data "endDate") +:+ LF
            +:+ "END:VEVENT").
    rewrite !append_assoc_r. reflexivity.
  - exists "END:VEVENT". rewrite !append_assoc_r. reflexivity.
Qed.

(** The date of an event is printed with an unpadded year: for a valid
    date the text is as long as the year in decimal and twelve characters
    more, sixteen characters exactly for the years 1000 to 9999. *)
Theorem formatICalDate_length (newDateOf : FieldValue -> option UTCFields)
  (dateString : FieldValue) (f : UTCFields) :
  newDateOf dateString = Some f ->
  0 <= utcMonth f <= 11 -> 1 <= utcDate f <= 31 -> 0 <= utcHours f <= 23 ->
  0 <= utcMinutes f <= 59 -> 0 <= utcSeconds f <= 59 ->
  String.length (formatICalDate newDateOf dateString)
  = (String.length (decimal (utcFullYear f)) + 12)%nat
  /\ (1000 <= utcFullYear f <= 9999 ->
      String.length (formatICalDate newDateOf dateString) = 16%nat).
Proof.
  intros Hd Hmo Hda Hh Hmi Hs.
  assert (L : String.length (formatICalDate newDateOf dateString)
              = (String.length (decimal (utcFullYear f)) + 12)%nat).
  { unfold formatICalDate. rewrite Hd. cbn [fmap option_fmap option_map numberToString].
    rewrite !length_append_sum.
    rewrite !padStart2_two_digits by lia. reflexivity. }
  split; [exact L|].
  intros Hy. rewrite L, (decimal_four_digits _ Hy). reflexivity.
Qed.

Lemma formatEmail_subject_and_body_stay_apart_witness :
  printed (orEmpty (field Forms.mail "subject"))
  = printed (orEmpty (field Forms.mail' "subject"))
  /\ printed (orEmpty (field Forms.mail "body"))
     = printed (orEmpty (field Forms.mail' "body")).
Proof.
  apply (formatEmail_subject_and_body_stay_apart Forms.mail Forms.mail');
    reflexivity.
Defined.

Lemma formatWifi_does_not_escape_witness :
  formatWifi (<["ssid" := Text ("home" +:+ ";T:" +:+ "WPA")]> Forms.wifi)
  = formatWifi (<["encryption" := Text "WPA"]> (<["ssid" := Text "home"]> Forms.wifi)).
Proof.
  apply (formatWifi_does_not_escape Forms.wifi "home" "WPA"); reflexivity.
Defined.

Lemma formatEvent_prints_unparsable_start_witness :
  contains (formatEvent Forms.rejecting Forms.event)
    ("DTSTART:NaNNaNNaNTNaNNaNNaNZ" +:+ LF).
Proof.
  apply (formatEvent_prints_unparsable_start Forms.rejecting Forms.event);
    reflexivity.
Defined.

Lemma formatICalDate_length_witness :
  String.length (formatICalDate Forms.fixedDate (Text "2024-01-05T07:08:09Z"))
  = 16%nat.
Proof.
  apply (formatICalDate_length Forms.fixedDate (Text "2024-01-05T07:08:09Z")
           (mkUTCFields 2024 0 5 7 8 9));
    first [reflexivity|simpl; lia].
Defined.
